(** * MISTRAL-VISUALIZER: frame synchronisation, packet decoding, ingest queue
      and cluster classification

    A shallow embedding of [NEW FILES/collecter.py], [OLD FILES/collector.py]
    and [NEW FILES/detection.py], and of the code around them: the two
    [sender.py], the polling blocks and the log of the two [app.py].

    - byte buffers ([bytearray], [bytes]) are [list byte];
    - integers read from the wire are [Z] (Python integers do not wrap);
    - Python floats are IEEE binary64 values, i.e. Rocq's primitive [float];
    - a [str] is the list of its code points;
    - [struct.error] is the [None] of an [option];
    - the [while True] loops run on fuel, and the fuel handed to them is
      shown to be enough;
    - what the operating system, the port and the clock answer is handed to
      the functions as arguments, and so are [DBSCAN] of scikit-learn and
      [Series.mean] of pandas; the [ValueError] of a clustering that raises
      is a [None], and ends [process] and the polling block that called
      it;
    - [serial.Serial] objects that two fields may share are positions in a
      list of objects;
    - the wall-clock [timestamp] of a [MovingObject] and the [logging] calls
      are left out. *)

From Stdlib Require Import ZArith List Bool Lia PeanoNat.
From Stdlib.Strings Require Import Byte.
From Stdlib Require Import Floats.
From Stdlib Require String Ascii DecimalString.
Import ListNotations.
Import String.StringSyntax.
Delimit Scope string_scope with string.

Local Open Scope Z_scope.

(** ** The wire format *)

Module Wire.

Definition bytes := list byte.

(** [MAGIC_WORD = b'\x02\x01\x04\x03\x06\x05\x08\x07'] *)
Definition MAGIC_WORD : bytes := [x02; x01; x04; x03; x06; x05; x08; x07].

(** [TLV_HEADER_SIZE = 8] *)
Definition TLV_HEADER_SIZE : Z := 8.

Definition len (b : bytes) : Z := Z.of_nat (length b).

(** [buf[:n]] and [buf[n:]] for a non-negative Python integer [n]. *)
Definition take (n : Z) (b : bytes) : bytes := firstn (Z.to_nat n) b.
Definition drop (n : Z) (b : bytes) : bytes := skipn (Z.to_nat n) b.

(** [l.startswith(p)] *)
Fixpoint starts_with (p l : bytes) : bool :=
  match p, l with
  | [], _ => true
  | _ :: _, [] => false
  | a :: p', b :: l' => Byte.eqb a b && starts_with p' l'
  end.

(** [buf.find(sub)]: the lowest index at which [sub] occurs, [None] for
    Python's [-1]. *)
Fixpoint find (sub buf : bytes) : option nat :=
  if starts_with sub buf then Some 0%nat
  else match buf with
       | [] => None
       | _ :: t => option_map S (find sub t)
       end.

(** Little-endian value of a run of bytes. *)
Fixpoint le_combine (l : bytes) : Z :=
  match l with
  | [] => 0
  | h :: t => Z.of_N (Byte.to_N h) + 256 * le_combine t
  end.

(** [struct.unpack_from('<I', buf, off)[0]]; [None] is [struct.error]
    (fewer than four bytes left at [off]). *)
Definition unpack_u32 (buf : bytes) (off : Z) : option Z :=
  if (0 <=? off) && (off + 4 <=? len buf)
  then Some (le_combine (take 4 (drop off buf)))
  else None.

(** Two's complement reading of a [w]-bit pattern. *)
Definition to_signed (w : Z) (v : Z) : Z :=
  if v <? 2 ^ (w - 1) then v else v - 2 ^ w.

(** [struct.unpack_from('<h', buf, off)[0]] *)
Definition unpack_i16 (buf : bytes) (off : Z) : option Z :=
  if (0 <=? off) && (off + 2 <=? len buf)
  then Some (to_signed 16 (le_combine (take 2 (drop off buf))))
  else None.

(** [float(n)] for a Python integer below 2^53 in magnitude. *)
Definition float_of_Z (n : Z) : float :=
  let m := PrimFloat.of_uint63 (Uint63.of_Z (Z.abs n)) in
  if n <? 0 then PrimFloat.opp m else m.

(** The binary64 value of a binary32 bit pattern: what unpacking an ['f']
    hands to Python. The conversion is exact. *)
Definition float_of_f32_bits (w : Z) : float :=
  let sign := Z.testbit w 31 in
  let e := Z.land (Z.shiftr w 23) 255 in
  let m := Z.land w 8388607 in
  let mag :=
    if e =? 255 then (if m =? 0 then PrimFloat.infinity else PrimFloat.nan)
    else if e =? 0 then Z.ldexp (float_of_Z m) (-149)
    else Z.ldexp (float_of_Z (m + 8388608)) (e - 150) in
  if sign then PrimFloat.opp mag else mag.

(** [struct.unpack_from('<f', buf, off)[0]] *)
Definition unpack_f32 (buf : bytes) (off : Z) : option float :=
  option_map float_of_f32_bits (unpack_u32 buf off).


(** Bytes of a 32-bit value, little-endian: used to write test frames. *)
Definition byte_of_Z (v : Z) : byte :=
  match Byte.of_N (Z.to_N (v mod 256)) with
  | Some b => b
  | None => x00
  end.

Definition pack_u32 (v : Z) : bytes :=
  [byte_of_Z v; byte_of_Z (v / 256); byte_of_Z (v / 65536);
   byte_of_Z (v / 16777216)].

End Wire.

Import Wire.

(** The error monad of [struct.error]. *)
Definition bind {A B : Type} (m : option A) (k : A -> option B) : option B :=
  match m with
  | Some a => k a
  | None => None
  end.

Notation "x <- m ;; k" := (bind m (fun x => k))
  (at level 61, m at next level, right associativity).

(** ** [NEW FILES/collecter.py] *)

Module New.

(** [MovingObject]: one detected point. [timestamp] is the wall-clock time
    of construction and is not part of the model. *)
Record MovingObject := mkMovingObject {
  x : float;
  y : float;
  z : float;
  velocity : float;
  rng : float;
  snr : float }.

(** The dictionaries [{'x': x, 'y': y, 'z': z, 'v': v}] of [_parse_packet]. *)
Record Point := mkPoint { px : float; py : float; pz : float; pv : float }.

(** The inner loop of TLV type 1: up to [n] packed [<ffff] quadruples. *)
Fixpoint read_points (n : nat) (tlv_data : bytes) (points : list Point)
  : option (list Point) :=
  match n with
  | O => Some points
  | S n' =>
    if len tlv_data <? 16 then Some points
    else
      let chunk := take 16 tlv_data in
      x <- unpack_f32 chunk 0 ;;
      y <- unpack_f32 chunk 4 ;;
      z <- unpack_f32 chunk 8 ;;
      v <- unpack_f32 chunk 12 ;;
      read_points n' (drop 16 tlv_data) (points ++ [mkPoint x y z v])
  end.

(** The inner loop of TLV type 7: up to [n] packed [<hh] pairs, of which
    the first is the raw SNR; [snr * 0.1] is kept. *)
Fixpoint read_side_info (n : nat) (tlv_data : bytes) (side_info : list float)
  : option (list float) :=
  match n with
  | O => Some side_info
  | S n' =>
    if len tlv_data <? 4 then Some side_info
    else
      let chunk := take 4 tlv_data in
      snr <- unpack_i16 chunk 0 ;;
      _noise <- unpack_i16 chunk 2 ;;
      read_side_info n' (drop 4 tlv_data)
                     (side_info
                        ++ [(float_of_Z snr * 0x1.999999999999ap-4)%float])
  end.

(** The state the TLV loop carries from one record to the next. *)
Record tlv_state := mkTlv {
  offset : Z;
  points : list Point;
  side_info : list float }.

(** One pass through the body of [for _ in range(num_tlvs)].
    [Some (inl s)] is a [break] in state [s], [Some (inr s)] goes on to the
    next record in state [s], [None] is a [struct.error]. *)
Definition tlv_step (data : bytes) (num_detected_obj : Z) (s : tlv_state)
  : option (tlv_state + tlv_state) :=
  if offset s + TLV_HEADER_SIZE >? len data then Some (inl s)
  else
    tlv_type <- unpack_u32 data (offset s) ;;
    tlv_length <- unpack_u32 data (offset s + 4) ;;
    let offset' := offset s + TLV_HEADER_SIZE in
    if offset' + tlv_length >? len data
    then Some (inl (mkTlv offset' (points s) (side_info s)))
    else
      let tlv_data := take tlv_length (drop offset' data) in
      if tlv_type =? 1 then
        pts <- read_points (Z.to_nat num_detected_obj) tlv_data (points s) ;;
        Some (inr (mkTlv (offset' + tlv_length) pts (side_info s)))
      else if tlv_type =? 7 then
        si <- read_side_info (Z.to_nat num_detected_obj) tlv_data
                             (side_info s) ;;
        Some (inr (mkTlv (offset' + tlv_length) (points s) si))
      else Some (inr (mkTlv (offset' + tlv_length) (points s) (side_info s))).

(** [for _ in range(n): ...] *)
Fixpoint tlv_loop (n : nat) (data : bytes) (num_detected_obj : Z)
         (s : tlv_state) : option tlv_state :=
  match n with
  | O => Some s
  | S n' =>
    r <- tlv_step data num_detected_obj s ;;
    match r with
    | inl s' => Some s'
    | inr s' => tlv_loop n' data num_detected_obj s'
    end
  end.

(** [k] records decoded one after the other, none of them leaving the
    loop: the state in which the next record is met. *)
Fixpoint tlv_steps (k : nat) (data : bytes) (num_detected_obj : Z)
         (s : tlv_state) : option tlv_state :=
  match k with
  | O => Some s
  | S k' =>
    match tlv_step data num_detected_obj s with
    | Some (inr s') => tlv_steps k' data num_detected_obj s'
    | _ => None
    end
  end.

(** The closing loop [for i, p in enumerate(points)]: positional pairing of
    points and side info, SNR 0 where the side info is missing. [x**2] is
    taken as [x*x]. *)
Definition make_object (side_info : list float) (ip : nat * Point)
  : MovingObject :=
  let (i, p) := ip in
  let snr := if (i <? length side_info)%nat then nth i side_info 0%float
             else 0%float in
  let rng := PrimFloat.sqrt (px p * px p + py p * py p + pz p * pz p)%float in
  mkMovingObject (px p) (py p) (pz p) (pv p) rng snr.

Definition make_objects (points : list Point) (side_info : list float)
  : list MovingObject :=
  map (make_object side_info) (combine (seq 0 (length points)) points).

(** [_parse_packet(data, header_len)] *)
Definition _parse_packet (data : bytes) (header_len : Z)
  : option (list MovingObject) :=
  num_detected_obj <- unpack_u32 data 28 ;;
  num_tlvs <- unpack_u32 data 32 ;;
  s <- tlv_loop (Z.to_nat num_tlvs) data num_detected_obj
                (mkTlv header_len [] []) ;;
  Some (make_objects (points s) (side_info s)).

(** *** The ingest queue, [queue.Queue(maxsize=queue_max)] *)

(** [Queue.full()]: a queue of [maxsize <= 0] is never full. *)
Definition full (maxsize : Z) (q : list MovingObject) : bool :=
  (0 <? maxsize) && (maxsize <=? Z.of_nat (length q)).

(** [if not self._data_q.full(): self._data_q.put_nowait(o)] *)
Definition put (maxsize : Z) (q : list MovingObject) (o : MovingObject)
  : list MovingObject :=
  if full maxsize q then q else q ++ [o].

(** [for o in objs: ...] *)
Definition put_all (maxsize : Z) (q : list MovingObject)
           (objs : list MovingObject) : list MovingObject :=
  fold_left (put maxsize) objs q.

(** *** The collector object *)

Record Serial := mkSerial { is_open : bool }.
Record Thread := mkThread { is_alive : bool }.

Record SerialCollector := mkCollector {
  _ser_data : option Serial;
  _thread : option Thread;
  _stop_event : bool;
  _data_q : list MovingObject;
  queue_max : Z;
  _buffer : bytes }.

Definition set_buffer (c : SerialCollector) (b : bytes) : SerialCollector :=
  mkCollector (_ser_data c) (_thread c) (_stop_event c) (_data_q c)
              (queue_max c) b.

Definition set_queue (c : SerialCollector) (q : list MovingObject)
  : SerialCollector :=
  mkCollector (_ser_data c) (_thread c) (_stop_event c) q
              (queue_max c) (_buffer c).

(** [SerialCollector(data_port)] right after [__init__]. *)
Definition init (queue_max : Z) : SerialCollector :=
  mkCollector None None false [] queue_max [].

(** How a pass over the buffer ends. *)
Inductive outcome :=
| Break          (* the [while True] loop was left by [break] *)
| StructError    (* [_parse_packet] raised, the exception left the method *)
| OutOfFuel.

(** What [_process_buffer] leaves behind: how it ended, the collector, and
    the packets it cut out of the buffer, in order. *)
Record processed := mkProcessed {
  ended : outcome;
  after : SerialCollector;
  packets : list bytes }.

(** One turn of the [while True] loop of [_process_buffer], with the
    packets [out] cut out so far: [inl] when the method is left, [inr] for
    the next turn. *)
Definition process_step (c : SerialCollector) (out : list bytes)
  : processed + SerialCollector * list bytes :=
  match find MAGIC_WORD (_buffer c) with
  | None => inl (mkProcessed Break c out)
  | Some idx =>
    let c := set_buffer c (skipn idx (_buffer c)) in
    match unpack_u32 (_buffer c) 8, unpack_u32 (_buffer c) 12 with
    | Some header_len, Some total_packet_len =>
      if len (_buffer c) <? total_packet_len
      then inl (mkProcessed Break c out)
      else
        let packet := take total_packet_len (_buffer c) in
        let c := set_buffer c (drop total_packet_len (_buffer c)) in
        match _parse_packet packet header_len with
        | None => inl (mkProcessed StructError c (out ++ [packet]))
        | Some objs =>
          inr (set_queue c (put_all (queue_max c) (_data_q c) objs),
               out ++ [packet])
        end
    | _, _ => inl (mkProcessed Break c out)
    end
  end.

(** The [while True] loop. *)
Fixpoint process_loop (fuel : nat) (c : SerialCollector) (out : list bytes)
  : processed :=
  match fuel with
  | O => mkProcessed OutOfFuel c out
  | S fuel' =>
    match process_step c out with
    | inl r => r
    | inr (c', out') => process_loop fuel' c' out'
    end
  end.

(** [_process_buffer()] *)
Definition _process_buffer (c : SerialCollector) : processed :=
  process_loop (S (length (_buffer c))) c [].

(** One turn of [_read_loop] that read [chunk]: the chunk is appended and
    the buffer processed; an exception is logged and the loop goes on. *)
Definition consume (c : SerialCollector) (chunk : bytes) : processed :=
  _process_buffer (set_buffer c (_buffer c ++ chunk)).

(** Chunk after chunk, gathering the packets cut out on the way. *)
Fixpoint consume_all (c : SerialCollector) (chunks : list bytes)
  : SerialCollector * list bytes :=
  match chunks with
  | [] => (c, [])
  | chunk :: rest =>
    let r := consume c chunk in
    let (c', out) := consume_all (after r) rest in
    (c', packets r ++ out)
  end.

(** *** Life cycle *)

(** What a call does to the world outside the object. *)
Inductive effect :=
| OpenSerial     (* [serial.Serial(...)] returned a port *)
| OpenFailed     (* [serial.Serial(...)] raised *)
| SpawnThread    (* [Thread(...).start()] *)
| JoinThread     (* [Thread.join(timeout=1.0)] *)
| CloseSerial.   (* [Serial.close()] *)

Inductive result :=
| Returned
| SerialReadError.

(** [running()] *)
Definition running (c : SerialCollector) : bool :=
  match _thread c with
  | Some t => is_alive t
  | None => false
  end.

(** [start()]; [opens] tells whether the operating system grants the
    port. *)
Definition start (opens : bool) (c : SerialCollector)
  : result * SerialCollector * list effect :=
  if running c then (Returned, c, [])
  else if opens then
    (Returned,
     mkCollector (Some (mkSerial true)) (Some (mkThread true)) false
                 (_data_q c) (queue_max c) (_buffer c),
     [OpenSerial; SpawnThread])
  else (SerialReadError, c, [OpenFailed]).

(** [stop()]; [exits] tells whether the reader thread is gone when
    [join] returns. *)
Definition stop (exits : bool) (c : SerialCollector)
  : result * SerialCollector * list effect :=
  let stop_event := true in
  let (thread, e1) :=
    match _thread c with
    | Some t => (Some (mkThread (is_alive t && negb exits)), [JoinThread])
    | None => (None, [])
    end in
  let (ser, e2) :=
    match _ser_data c with
    | Some s => if is_open s then (Some (mkSerial false), [CloseSerial])
                else (Some s, [])
    | None => (None, [])
    end in
  (Returned,
   mkCollector ser thread stop_event (_data_q c) (queue_max c) (_buffer c),
   e1 ++ e2).

(** *** The reader thread *)

(** What one turn of [_read_loop] meets at the port. *)
Inductive read_event :=
| Waiting (chunk : bytes)   (* [in_waiting > 0], and [read] hands [chunk] *)
| Nothing                   (* [in_waiting] is 0: the loop sleeps *)
| SerialException           (* raised by [in_waiting] or by [read] *)
| OtherException.           (* any other exception raised there *)

(** The thread has left [_read_loop]: [is_alive()] is false from now on. *)
Definition thread_over (c : SerialCollector) : SerialCollector :=
  mkCollector (_ser_data c)
              (match _thread c with
               | Some _ => Some (mkThread false)
               | None => None
               end)
              (_stop_event c) (_data_q c) (queue_max c) (_buffer c).

Definition set_stop_event (c : SerialCollector) : SerialCollector :=
  mkCollector (_ser_data c) (_thread c) true (_data_q c) (queue_max c)
              (_buffer c).

(** [_read_loop()], one turn per event: the collector when the events run
    out, and whether the loop is still running then. Without a port the
    loop only sleeps; an exception of [_process_buffer] is logged like any
    other and the loop goes on. *)
Fixpoint _read_loop (events : list read_event) (c : SerialCollector)
  : SerialCollector * bool :=
  if _stop_event c then (thread_over c, false)
  else
    match events with
    | [] => (c, true)
    | e :: rest =>
      match _ser_data c with
      | None => _read_loop rest c
      | Some _ =>
        match e with
        | Waiting chunk => _read_loop rest (after (consume c chunk))
        | Nothing => _read_loop rest c
        | SerialException => _read_loop rest (set_stop_event c)
        | OtherException => _read_loop rest c
        end
      end
    end.

(** *** Draining the queue *)

(** The loop of [get_latest]: [while len(items) < max_items], one
    [get_nowait()] per turn, left at [queue.Empty]. The items gathered and
    the queue that is left. *)
Fixpoint get_loop (max_items : Z) (q items : list MovingObject)
  : list MovingObject * list MovingObject :=
  if Z.of_nat (length items) <? max_items then
    match q with
    | [] => (items, q)
    | o :: q' => get_loop max_items q' (items ++ [o])
    end
  else (items, q).

(** [get_latest(max_items)] *)
Definition get_latest (max_items : Z) (c : SerialCollector)
  : list MovingObject * SerialCollector :=
  let (items, q) := get_loop max_items (_data_q c) [] in
  (items, set_queue c q).

End New.

(** ** [OLD FILES/collector.py] *)

Module Old.

(** The old [MovingObject] has no [snr]; [timestamp] is left out as
    above. *)
Record MovingObject := mkMovingObject {
  x : float;
  y : float;
  z : float;
  velocity : float;
  rng : float }.

(** [Queue.full()] *)
Definition full (maxsize : Z) (q : list MovingObject) : bool :=
  (0 <? maxsize) && (maxsize <=? Z.of_nat (length q)).

(** The [try: put_nowait(o) / except queue.Full: get_nowait(); put_nowait(o)]
    of [_process_buffer]: a full queue gives up its oldest member for the
    arrival. The queue that is left, and [false] when a [queue.Full]
    escapes, the queue being still full after one member has left it. *)
Definition put (maxsize : Z) (q : list MovingObject) (o : MovingObject)
  : list MovingObject * bool :=
  if full maxsize q then
    match q with
    | [] => (q, true)
    | _ :: q' => if full maxsize q' then (q', false) else (q' ++ [o], true)
    end
  else (q ++ [o], true).

(** [for o in objs: ...]: the queue that is left, and whether the loop
    came to its end. *)
Fixpoint put_all (maxsize : Z) (q : list MovingObject)
         (objs : list MovingObject) : list MovingObject * bool :=
  match objs with
  | [] => (q, true)
  | o :: rest =>
    let (q', done) := put maxsize q o in
    if done then put_all maxsize q' rest else (q', false)
  end.

(** The buffer and the queue of the old collector; its serial handles and
    its thread play no part in the methods embedded here. *)
Record SerialCollector := mkCollector {
  _data_q : list MovingObject;
  queue_max : Z;
  _buffer : bytes }.

Definition set_buffer (c : SerialCollector) (b : bytes) : SerialCollector :=
  mkCollector (_data_q c) (queue_max c) b.

Definition set_queue (c : SerialCollector) (q : list MovingObject)
  : SerialCollector :=
  mkCollector q (queue_max c) (_buffer c).

Definition init (queue_max : Z) : SerialCollector :=
  mkCollector [] queue_max [].

Inductive outcome :=
| Break        (* the [while True] loop was left by [break] *)
| QueueFull    (* a [queue.Full] left the method *)
| OutOfFuel.

Record processed := mkProcessed {
  ended : outcome;
  after : SerialCollector;
  packets : list bytes }.

(** [buf[-n:]] for [0 < n] *)
Definition last_bytes (n : nat) (buf : bytes) : bytes :=
  skipn (length buf - n) buf.

Section Rounding.

(** Python's [round(v, 4)] on floats. *)
Variable round4 : float -> float.

(** [for i in range(0, len(tlv_data), obj_size)]: [n] counts the indices
    the range still holds. *)
Fixpoint read_objects (n : nat) (tlv_data : bytes) (i : Z)
         (moving : list MovingObject) : list MovingObject :=
  match n with
  | O => moving
  | S n' =>
    if i + 16 >? len tlv_data then moving
    else
      match (x <- unpack_f32 tlv_data i ;;
             y <- unpack_f32 tlv_data (i + 4) ;;
             z <- unpack_f32 tlv_data (i + 8) ;;
             v <- unpack_f32 tlv_data (i + 12) ;;
             Some (x, y, z, v)) with
      | Some (x, y, z, v) =>
        let rng := PrimFloat.sqrt (x * x + y * y + z * z)%float in
        read_objects n' tlv_data (i + 16)
          (moving ++ [mkMovingObject (round4 x) (round4 y) (round4 z)
                                     (round4 v) (round4 rng)])
      | None => read_objects n' tlv_data (i + 16) moving
      end
  end.

(** [len(range(0, n, 16))] *)
Definition range16 (n : Z) : nat := Z.to_nat ((n + 15) / 16).

(** One turn of [while offset + 8 <= len(data)] from [offset] with the
    objects [moving] gathered so far: [inl] when the loop is left (its
    condition fails, or [break]), [inr] for the next turn. *)
Definition tlv_step (data : bytes) (s : Z * list MovingObject)
  : list MovingObject + Z * list MovingObject :=
  let (offset, moving) := s in
  if offset + 8 <=? len data then
    match unpack_u32 data offset, unpack_u32 data (offset + 4) with
    | Some tlv_type, Some tlv_length =>
      let offset := offset + 8 in
      if tlv_length =? 0 then inr (offset, moving)
      else if offset + tlv_length >? len data then inl moving
      else
        let tlv_data := take tlv_length (drop offset data) in
        let moving :=
          if tlv_type =? 1
          then read_objects (range16 (len tlv_data)) tlv_data 0 moving
          else moving in
        inr (offset + tlv_length, moving)
    | _, _ => inl moving
    end
  else inl moving.

(** The [while] loop; [None] when the fuel runs out. *)
Fixpoint tlv_while (fuel : nat) (data : bytes) (s : Z * list MovingObject)
  : option (list MovingObject) :=
  match fuel with
  | O => None
  | S fuel' =>
    match tlv_step data s with
    | inl moving => Some moving
    | inr s' => tlv_while fuel' data s'
    end
  end.

(** [k] turns of the loop, none of them leaving it. *)
Fixpoint tlv_steps (k : nat) (data : bytes) (s : Z * list MovingObject)
  : option (Z * list MovingObject) :=
  match k with
  | O => Some s
  | S k' =>
    match tlv_step data s with
    | inr s' => tlv_steps k' data s'
    | inl _ => None
    end
  end.

(** [_parse_packet(data)] *)
Definition _parse_packet (data : bytes) : option (list MovingObject) :=
  let header_len := 40 in
  if len data <? header_len then Some []
  else tlv_while (S (length data)) data (header_len, []).

(** One turn of the [while True] loop of [_process_buffer]: [inl] when
    the method is left, [inr] for the next turn. *)
Definition process_step (c : SerialCollector) (out : list bytes)
  : processed + SerialCollector * list bytes :=
  match find MAGIC_WORD (_buffer c) with
  | None =>
    if len (_buffer c) >? 2 * 1024
    then inl (mkProcessed Break
                (set_buffer c
                   (last_bytes (length MAGIC_WORD * 2) (_buffer c)))
                out)
    else inl (mkProcessed Break c out)
  | Some idx =>
    let c := set_buffer c (skipn idx (_buffer c)) in
    if len (_buffer c) <? 40 then inl (mkProcessed Break c out)
    else
      match unpack_u32 (_buffer c) 12 with
      | None => inr (set_buffer c (drop 8 (_buffer c)), out)
      | Some total_packet_len =>
        if (total_packet_len <=? 0) || (total_packet_len >? 65536)
        then inr (set_buffer c (drop 8 (_buffer c)), out)
        else if len (_buffer c) <? total_packet_len
        then inl (mkProcessed Break c out)
        else
          let packet := take total_packet_len (_buffer c) in
          let c := set_buffer c (drop total_packet_len (_buffer c)) in
          match _parse_packet packet with
          | None => inl (mkProcessed OutOfFuel c (out ++ [packet]))
          | Some objs =>
            let (q, done) := put_all (queue_max c) (_data_q c) objs in
            if done then inr (set_queue c q, out ++ [packet])
            else inl (mkProcessed QueueFull (set_queue c q)
                                  (out ++ [packet]))
          end
      end
  end.

(** The [while True] loop. *)
Fixpoint process_loop (fuel : nat) (c : SerialCollector) (out : list bytes)
  : processed :=
  match fuel with
  | O => mkProcessed OutOfFuel c out
  | S fuel' =>
    match process_step c out with
    | inl r => r
    | inr (c', out') => process_loop fuel' c' out'
    end
  end.

(** [_process_buffer()] *)
Definition _process_buffer (c : SerialCollector) : processed :=
  process_loop (S (length (_buffer c))) c [].

(** One turn of [_read_loop] that read a non-empty [chunk]. *)
Definition consume (c : SerialCollector) (chunk : bytes) : processed :=
  _process_buffer (set_buffer c (_buffer c ++ chunk)).

(** Chunk after chunk, gathering the packets cut out on the way. *)
Fixpoint consume_all (c : SerialCollector) (chunks : list bytes)
  : SerialCollector * list bytes :=
  match chunks with
  | [] => (c, [])
  | chunk :: rest =>
    let r := consume c chunk in
    let (c', out) := consume_all (after r) rest in
    (c', packets r ++ out)
  end.

End Rounding.

(** *** Draining the queue *)

(** The loop of [get_latest]: [while len(items) < max_items], one
    [get_nowait()] per turn, left at [queue.Empty]. The items gathered and
    the queue that is left. *)
Fixpoint get_loop (max_items : Z) (q items : list MovingObject)
  : list MovingObject * list MovingObject :=
  if Z.of_nat (length items) <? max_items then
    match q with
    | [] => (items, q)
    | o :: q' => get_loop max_items q' (items ++ [o])
    end
  else (items, q).

(** [get_latest(max_items)] *)
Definition get_latest (max_items : Z) (c : SerialCollector)
  : list MovingObject * SerialCollector :=
  let (items, q) := get_loop max_items (_data_q c) [] in
  (items, set_queue c q).

End Old.

(** ** [NEW FILES/detection.py] *)

Module Detection.

(** The values of the [label] column. *)
Inductive Label := Clutter | Human | Moving | Static.

(** One row of the point cloud: the columns [process] reads. *)
Record Row := mkRow { x : float; y : float; z : float; velocity : float }.

(** A [DataFrame]: its rows, and the two columns [process] adds, absent
    ([None]) until they are assigned. *)
Record DataFrame := mkFrame {
  rows : list Row;
  cluster_id : option (list Z);
  label : option (list Label) }.

(** [HumanDetector]: the tunable parameters. *)
Record HumanDetector := mkDetector {
  eps : float;
  min_samples : Z;
  min_points_human : Z;
  max_human_width : float;
  min_human_height : float;
  max_human_height : float;
  movement_threshold : float }.

(** [HumanDetector()] with its default arguments. *)
Definition default_detector : HumanDetector :=
  mkDetector 0.5 5 10 0x1.3333333333333p+0 0x1.999999999999ap-1 2
             0x1.999999999999ap-4.

(** [Series.min()] and [Series.max()] over a column without NaN. *)
Definition fmin (a b : float) : float := if PrimFloat.ltb b a then b else a.
Definition fmax (a b : float) : float := if PrimFloat.ltb a b then b else a.

Definition col_min (l : list float) : float :=
  match l with
  | [] => PrimFloat.nan
  | h :: t => fold_left fmin t h
  end.

Definition col_max (l : list float) : float :=
  match l with
  | [] => PrimFloat.nan
  | h :: t => fold_left fmax t h
  end.

(** The extent [max - min] of a column. *)
Definition extent (l : list float) : float :=
  (col_max l - col_min l)%float.

Definition width_x (cluster : list Row) : float := extent (map x cluster).
Definition width_y (cluster : list Row) : float := extent (map y cluster).
Definition height (cluster : list Row) : float := extent (map z cluster).

(** [np.sqrt(width_x**2 + width_y**2)] *)
Definition horizontal_spread (cluster : list Row) : float :=
  PrimFloat.sqrt (width_x cluster * width_x cluster
                  + width_y cluster * width_y cluster)%float.

(** [_is_human_cluster(cluster)] *)
Definition _is_human_cluster (d : HumanDetector) (cluster : list Row)
  : bool :=
  if Z.of_nat (length cluster) <? min_points_human d then false
  else if negb (PrimFloat.ltb (min_human_height d) (height cluster)
                && PrimFloat.ltb (height cluster) (max_human_height d))
  then false
  else if PrimFloat.ltb (max_human_width d) (horizontal_spread cluster)
  then false
  else true.

(** The three conditions of a human-sized cluster: enough points, a
    height strictly between the two bounds, a horizontal spread of at most
    the width bound. *)
Definition human_conditions (d : HumanDetector) (cluster : list Row)
  : Prop :=
  min_points_human d <= Z.of_nat (length cluster) /\
  (PrimFloat.ltb (min_human_height d) (height cluster) = true /\
   PrimFloat.ltb (height cluster) (max_human_height d) = true) /\
  PrimFloat.leb (horizontal_spread cluster) (max_human_width d) = true.

(** [df[df['cluster_id'] == cid]] *)
Fixpoint select (cid : Z) (ids : list Z) (rs : list Row) : list Row :=
  match ids, rs with
  | i :: ids', r :: rs' =>
    if i =? cid then r :: select cid ids' rs' else select cid ids' rs'
  | _, _ => []
  end.

(** [df.loc[df['cluster_id'] == cid, 'label'] = l] *)
Fixpoint assign (cid : Z) (l : Label) (ids : list Z) (labels : list Label)
  : list Label :=
  match ids, labels with
  | i :: ids', l0 :: labels' =>
    (if i =? cid then l else l0) :: assign cid l ids' labels'
  | _, _ => labels
  end.

(** [Series.unique()]: the values in the order they first appear. *)
Fixpoint unique (seen : list Z) (l : list Z) : list Z :=
  match l with
  | [] => []
  | v :: t =>
    if existsb (Z.eqb v) seen then unique seen t
    else v :: unique (v :: seen) t
  end.

(** [df[df['cluster_id'] != -1]['cluster_id'].unique()] *)
Definition unique_clusters (ids : list Z) : list Z :=
  unique [] (filter (fun i => negb (i =? -1)) ids).

(** The entries of [human_info]. *)
Record HumanInfo := mkInfo {
  id : Z;
  centroid : float * float * float;
  n_points : nat }.

(** Object identity: a batch is a reference into a store of frames. *)
Definition ref := nat.
Definition store := ref -> option DataFrame.

Definition update (s : store) (r : ref) (f : DataFrame) : store :=
  fun r' => if Nat.eqb r' r then Some f else s r'.

(** How [process] ends: it returns the batch and [human_info], or the
    [ValueError] of the clustering leaves it. *)
Inductive result :=
| Returned (df : ref) (human_info : list HumanInfo)
| ValueError.

Section Libraries.

(** [DBSCAN(eps, min_samples).fit(coords).labels_] of scikit-learn: one
    cluster number per sample, [-1] for noise. [None] when [fit] raises,
    as it does, with a [ValueError], on a coordinate that is NaN or
    infinite. *)
Variable DBSCAN
  : float -> Z -> list (float * float * float) -> option (list Z).

(** [Series.mean()] of pandas. *)
Variable mean : list float -> float.

(** What the movement test looks at:
    [cluster_df['velocity'].abs().mean()]. *)
Definition avg_velocity (cluster : list Row) : float :=
  mean (map (fun r => PrimFloat.abs (velocity r)) cluster).

(** The label of a cluster that is not noise. *)
Definition cluster_label (d : HumanDetector) (cluster : list Row)
  : Label :=
  if _is_human_cluster d cluster then Human
  else if PrimFloat.ltb (movement_threshold d) (avg_velocity cluster)
       then Moving
       else Static.

(** The label of the rows of cluster [cid]. *)
Definition label_of (d : HumanDetector) (rs : list Row) (ids : list Z)
           (cid : Z) : Label :=
  cluster_label d (select cid ids rs).

(** The body of [for cid in unique_clusters]. *)
Definition label_cluster (d : HumanDetector) (rs : list Row)
           (ids : list Z) (cid : Z)
           (st : list Label * list HumanInfo)
  : list Label * list HumanInfo :=
  let (labels, human_info) := st in
  let cluster_df := select cid ids rs in
  if _is_human_cluster d cluster_df then
    (assign cid Human ids labels,
     human_info ++
       [mkInfo cid (mean (map x cluster_df), mean (map y cluster_df),
                    mean (map z cluster_df))
               (length cluster_df)])
  else if PrimFloat.ltb (movement_threshold d) (avg_velocity cluster_df)
  then (assign cid Moving ids labels, human_info)
  else (assign cid Static ids labels, human_info).

(** The labelling of a non-empty batch: the two new columns and
    [human_info]; [None] when the clustering raises, before any column
    is assigned. *)
Definition classify (d : HumanDetector) (rs : list Row)
  : option (list Z * list Label * list HumanInfo) :=
  let coords := map (fun r => (x r, y r, z r)) rs in
  match DBSCAN (eps d) (min_samples d) coords with
  | None => None
  | Some ids =>
    let labels := map (fun _ => Clutter) rs in
    let (labels', human_info) :=
      fold_left (fun st cid => label_cluster d rs ids cid st)
                (unique_clusters ids) (labels, []) in
    Some (ids, labels', human_info)
  end.

(** [process(df)]: the frame behind [df] is rewritten in the store and
    [df] itself is handed back; when the clustering raises, the store
    is as it was. [None] when [df] refers to nothing. *)
Definition process (d : HumanDetector) (s : store) (df : ref)
  : option (result * store) :=
  match s df with
  | None => None
  | Some frame =>
    match rows frame with
    | [] => Some (Returned df [], s)
    | _ :: _ =>
      match classify d (rows frame) with
      | None => Some (ValueError, s)
      | Some (ids, labels, human_info) =>
        Some (Returned df human_info,
              update s df (mkFrame (rows frame) (Some ids) (Some labels)))
      end
    end
  end.

End Libraries.

End Detection.

(** ** Notions the statements use *)

(** The collector with [more] bytes behind its buffer. *)
Definition New_extend (c : New.SerialCollector) (more : bytes)
  : New.SerialCollector :=
  New.set_buffer c (New._buffer c ++ more).

(** A pass with enough fuel, carrying the packets [out]. *)
Definition New_pass (c : New.SerialCollector) (out : list bytes)
  : New.processed :=
  New.process_loop (S (length (New._buffer c))) c out.

(** The same for the old collector. *)
Definition Old_pass (round4 : float -> float) (c : Old.SerialCollector)
           (out : list bytes) : Old.processed :=
  Old.process_loop round4 (S (length (Old._buffer c))) c out.

(** Noise: bytes that hold no marker. *)
Definition marker_free (b : bytes) : bool :=
  match find MAGIC_WORD b with
  | None => true
  | Some _ => false
  end.

(** A frame the new collector takes whole: the marker at its start, its own
    length in the total length field, and the 36 bytes [_parse_packet]
    reads the counts from. *)
Definition New_valid_frame (f : bytes) : bool :=
  starts_with MAGIC_WORD f
  && match unpack_u32 f 12 with
     | Some total => total =? len f
     | None => false
     end
  && (36 <=? len f).

(** A frame the old collector takes whole: the marker at its start, its own
    length in the total length field, and between 40 and 65536 bytes. *)
Definition Old_valid_frame (f : bytes) : bool :=
  starts_with MAGIC_WORD f
  && match unpack_u32 f 12 with
     | Some total => total =? len f
     | None => false
     end
  && (40 <=? len f) && (len f <=? 65536).

(** A stream: frames, each behind its own stretch of noise, and noise at
    the end. *)
Fixpoint stream (segments : list (bytes * bytes)) (tail : bytes) : bytes :=
  match segments with
  | [] => tail
  | (noise, frame) :: rest => noise ++ frame ++ stream rest tail
  end.

(** How many bytes the old collector drops from the front of a buffer in
    which it finds no marker. *)
Definition Old_trimmed (buf : bytes) : nat :=
  if len buf >? 2048 then (length buf - 16)%nat else 0%nat.

(** ** Concrete collectors, buffers and batches *)

(** A collector that was started and whose reader thread is alive. *)
Definition started_collector : New.SerialCollector :=
  snd (fst (New.start true (New.init 20000))).

Definition zeros (n : nat) : bytes := repeat x00 n.

(** The 40-byte header of the demo firmware: marker, header length, total
    length, three words that are not read, number of detected objects,
    number of TLVs, one more word. *)
Definition header (header_len total num_obj num_tlvs : Z) : bytes :=
  MAGIC_WORD ++ pack_u32 header_len ++ pack_u32 total ++ zeros 12
             ++ pack_u32 num_obj ++ pack_u32 num_tlvs ++ zeros 4.

(** A TLV of type 1 with the one point (1.0, 2.0, 3.0) at velocity 0.5. *)
Definition tlv_one_point : bytes :=
  pack_u32 1 ++ pack_u32 16
    ++ pack_u32 0x3F800000 ++ pack_u32 0x40000000
    ++ pack_u32 0x40400000 ++ pack_u32 0x3F000000.

(** A TLV of type 7 with the raw SNR 123. *)
Definition tlv_one_snr : bytes :=
  pack_u32 7 ++ pack_u32 4 ++ [x7b; x00; x00; x00].

(** A whole frame of 76 bytes: one point and its side info. *)
Definition frame_one_point : bytes :=
  header 40 76 1 2 ++ tlv_one_point ++ tlv_one_snr.


(** A marker with the total length 20, below the header length 40. *)
Definition short_length_buffer : bytes := header 40 20 0 0.

(** A marker with the total length 131072, beyond 64 KiB. *)
Definition long_length_buffer : bytes := header 40 131072 0 0.

(** A marker with the total length 0. *)
Definition zero_length_buffer : bytes := header 40 0 0 0.

(** Noise: 3000 bytes without a marker. *)
Definition noise_3000 : bytes := zeros 3000.

(** A clustering for the examples: the algorithm of scikit-learn's DBSCAN,
    on the Euclidean distance as the difference of the coordinates gives
    it. A sample is a core sample when at least
    [min_samples] samples, itself among them, lie within [eps] of it; the
    samples are gone through in order, a core sample without a cluster
    starts the next cluster, which grows over the neighbours of its core
    samples; what no cluster reaches is noise. [fit] raises on a coordinate
    that is not finite, on no sample at all, and on parameters out of
    range. *)
Definition finite3 (c : float * float * float) : bool :=
  let '(x, y, z) := c in
  PrimFloat.is_finite x && PrimFloat.is_finite y && PrimFloat.is_finite z.

Definition distance (p q : float * float * float) : float :=
  let '(x1, y1, z1) := p in
  let '(x2, y2, z2) := q in
  PrimFloat.sqrt ((x1 - x2) * (x1 - x2) + (y1 - y2) * (y1 - y2)
                  + (z1 - z2) * (z1 - z2))%float.

Definition neighbours (eps : float) (coords : list (float * float * float))
           (i : nat) : list nat :=
  match nth_error coords i with
  | None => []
  | Some p =>
    filter (fun j => match nth_error coords j with
                     | Some q => PrimFloat.leb (distance p q) eps
                     | None => false
                     end)
           (seq 0 (length coords))
  end.

Definition is_core (eps : float) (min_samples : Z)
           (coords : list (float * float * float)) (i : nat) : bool :=
  min_samples <=? Z.of_nat (length (neighbours eps coords i)).

Definition set_label (labels : list Z) (i : nat) (l : Z) : list Z :=
  firstn i labels ++ l :: skipn (S i) labels.

(** One cluster grows from the samples on the stack. *)
Fixpoint grow (fuel : nat) (eps : float) (min_samples : Z)
         (coords : list (float * float * float)) (stack : list nat)
         (labels : list Z) (label_num : Z) : list Z :=
  match fuel with
  | O => labels
  | S fuel' =>
    match stack with
    | [] => labels
    | i :: stack' =>
      if nth i labels 0 =? -1 then
        let labels := set_label labels i label_num in
        let stack :=
          if is_core eps min_samples coords i
          then fold_left (fun st v => if nth v labels 0 =? -1
                                      then v :: st else st)
                         (neighbours eps coords i) stack'
          else stack' in
        grow fuel' eps min_samples coords stack labels label_num
      else grow fuel' eps min_samples coords stack' labels label_num
    end
  end.

(** The samples in order, each core sample without a cluster starting the
    next one. *)
Fixpoint sweep (todo : list nat) (eps : float) (min_samples : Z)
         (coords : list (float * float * float)) (labels : list Z)
         (label_num : Z) : list Z :=
  match todo with
  | [] => labels
  | i :: rest =>
    if (nth i labels 0 =? -1) && is_core eps min_samples coords i
    then sweep rest eps min_samples coords
               (grow (S (length coords * S (length coords))) eps min_samples
                     coords [i] labels label_num)
               (label_num + 1)
    else sweep rest eps min_samples coords labels label_num
  end.

Definition dbscan (eps : float) (min_samples : Z)
           (coords : list (float * float * float)) : option (list Z) :=
  match coords with
  | [] => None
  | _ :: _ =>
    if forallb finite3 coords && PrimFloat.ltb 0 eps && (1 <=? min_samples)
    then Some (sweep (seq 0 (length coords)) eps min_samples coords
                     (repeat (-1) (length coords)) 0)
    else None
  end.

(** A mean for the examples: the sum from left to right, divided by the
    count. *)
Definition plain_mean (l : list float) : float :=
  (fold_left PrimFloat.add l 0 / float_of_Z (Z.of_nat (length l)))%float.

(** A detector that takes four points for a human. *)
Definition four_point_detector : Detection.HumanDetector :=
  Detection.mkDetector 0.5 2 4 0x1.3333333333333p+0 0x1.999999999999ap-1 2
                       0x1.999999999999ap-4.

(** Four points of a standing figure, each within reach of the next, and
    a fifth point a metre below, out of reach of them all. *)
Definition figure_rows : list Detection.Row :=
  [Detection.mkRow 0 0 0 0; Detection.mkRow 0.25 0 0.375 0;
   Detection.mkRow 0 0 0.75 0; Detection.mkRow 0.25 0 1.125 0;
   Detection.mkRow 0 0 (-1) 0].

Definition figure_frame : Detection.DataFrame :=
  Detection.mkFrame figure_rows None None.

(** A store with the figure at reference 0 and nothing else. *)
Definition figure_store : Detection.store :=
  fun r => if Nat.eqb r 0 then Some figure_frame else None.

(** A batch of one row whose [x] is no number. *)
Definition nan_frame : Detection.DataFrame :=
  Detection.mkFrame [Detection.mkRow PrimFloat.nan 0 0 0] None None.

Definition nan_store : Detection.store :=
  fun r => if Nat.eqb r 0 then Some nan_frame else None.

(** A frame cut into three chunks of 5, 30 and 41 bytes. *)
Definition three_chunks : list bytes :=
  [firstn 5 frame_one_point; firstn 30 (skipn 5 frame_one_point);
   skipn 35 frame_one_point].

(** Forty bytes that are no frame and hold a marker: a header that declares
    a total length of 50. *)
Definition marker_noise : bytes := header 40 50 0 0.

(** Two frames between three stretches of noise, the first of which ends
    like the start of a marker; 157 bytes. *)
Definition two_frames : list (bytes * bytes) :=
  [([x00; x02; x01], frame_one_point); ([x09], frame_one_point)].

Definition two_frame_stream : bytes := stream two_frames [x07].

(** The stream in chunks of 7, 50, 60 and 40 bytes. *)
Definition stream_chunks : list bytes :=
  [firstn 7 two_frame_stream; firstn 50 (skipn 7 two_frame_stream);
   firstn 60 (skipn 57 two_frame_stream); skipn 117 two_frame_stream].

(** ** Notions the further statements use *)

(** [l[-n:]] for a positive [n]: the last [n] members of [l], all of [l] when
    it has no more than [n]. *)
Definition lastn {A : Type} (n : nat) (l : list A) : list A :=
  skipn (length l - n) l.

(** Three detections to fill queues with. *)
Definition new_obj (v : float) : New.MovingObject :=
  New.mkMovingObject v 0 0 0 (PrimFloat.abs v) 0.

Definition old_obj (v : float) : Old.MovingObject :=
  Old.mkMovingObject v 0 0 0 (PrimFloat.abs v).

(** The chunks a run of reader events delivers, in order. *)
Fixpoint chunks_of (events : list New.read_event) : list bytes :=
  match events with
  | [] => []
  | New.Waiting chunk :: rest => chunk :: chunks_of rest
  | _ :: rest => chunks_of rest
  end.

(** No [SerialException] among the events. *)
Fixpoint port_holds (events : list New.read_event) : bool :=
  match events with
  | [] => true
  | New.SerialException :: _ => false
  | _ :: rest => port_holds rest
  end.


(** The entry [process] appends to [human_info] for a human-sized cluster:
    its number, the mean of each coordinate, its number of rows. *)
Definition human_entry (mean : list float -> float)
           (rs : list Detection.Row) (ids : list Z) (cid : Z)
  : Detection.HumanInfo :=
  let cluster_df := Detection.select cid ids rs in
  Detection.mkInfo cid
                   (mean (map Detection.x cluster_df),
                    mean (map Detection.y cluster_df),
                    mean (map Detection.z cluster_df))
                   (length cluster_df).

(** What [_process_buffer] queues for a packet it has cut out: the
    detections [_parse_packet] decodes from it, with the header length the
    packet carries at offset 8; nothing when [_parse_packet] raises. *)
Definition New_decode (packet : bytes) : list New.MovingObject :=
  match unpack_u32 packet 8 with
  | Some header_len =>
    match New._parse_packet packet header_len with
    | Some objs => objs
    | None => []
    end
  | None => []
  end.

(** The same for the old collector. *)
Definition Old_decode (round4 : float -> float) (packet : bytes)
  : list Old.MovingObject :=
  match Old._parse_packet round4 packet with
  | Some objs => objs
  | None => []
  end.

(** ** Values of binary64, as the operations are specified on them *)

(** Neither no number nor below zero. *)
Definition not_negative (v : spec_float) : Prop :=
  match v with
  | S754_nan | S754_infinity true | S754_finite true _ _ => False
  | _ => True
  end.

(** Neither no number nor an infinity. *)
Definition bounded_number (v : spec_float) : Prop :=
  match v with
  | S754_nan | S754_infinity _ => False
  | _ => True
  end.

(** ** The words of the specification on the classification *)

Module Spec.

(** The greatest of a list of numbers, the first of them when several
    are. *)
Fixpoint maximum (l : list float) : float :=
  match l with
  | [] => PrimFloat.nan
  | v :: rest =>
    match rest with
    | [] => v
    | _ :: _ => if PrimFloat.ltb v (maximum rest) then maximum rest else v
    end
  end.

(** The least of a list of numbers. *)
Fixpoint minimum (l : list float) : float :=
  match l with
  | [] => PrimFloat.nan
  | v :: rest =>
    match rest with
    | [] => v
    | _ :: _ => if PrimFloat.ltb (minimum rest) v then minimum rest else v
    end
  end.

(** The members of cluster [cid]: the rows that carry its number. *)
Definition members (cid : Z) (ids : list Z) (rows : list Detection.Row)
  : list Detection.Row :=
  map snd (filter (fun p => fst p =? cid) (combine ids rows)).

(** The extent of the members along an axis. *)
Definition x_extent (members : list Detection.Row) : float :=
  (maximum (map Detection.x members)
   - minimum (map Detection.x members))%float.

Definition y_extent (members : list Detection.Row) : float :=
  (maximum (map Detection.y members)
   - minimum (map Detection.y members))%float.

Definition z_extent (members : list Detection.Row) : float :=
  (maximum (map Detection.z members)
   - minimum (map Detection.z members))%float.

(** [sqrt(x-extent^2 + y-extent^2)] *)
Definition horizontal_spread (members : list Detection.Row) : float :=
  PrimFloat.sqrt (x_extent members * x_extent members
                  + y_extent members * y_extent members)%float.

(** The mean of the members' absolute velocities; [mean] is the mean. *)
Definition mean_abs_velocity (mean : list float -> float)
           (members : list Detection.Row) : float :=
  mean (map (fun r => PrimFloat.abs (Detection.velocity r)) members).

(** The three conditions of a Human, all at once. *)
Definition human (d : Detection.HumanDetector)
           (members : list Detection.Row) : Prop :=
  Detection.min_points_human d <= Z.of_nat (length members) /\
  (PrimFloat.ltb (Detection.min_human_height d) (z_extent members) = true /\
   PrimFloat.ltb (z_extent members) (Detection.max_human_height d) = true) /\
  PrimFloat.leb (horizontal_spread members) (Detection.max_human_width d)
  = true.

(** A row that can be clustered: its coordinates are finite. *)
Definition finite_row (r : Detection.Row) : bool :=
  PrimFloat.is_finite (Detection.x r) && PrimFloat.is_finite (Detection.y r)
  && PrimFloat.is_finite (Detection.z r).

End Spec.

(** * The code around the collectors *)

(** ** Python text *)

Module Text.

(** A [str]: its code points. *)
Definition str := list N.

(** A literal of the source. *)
Definition lit (s : String.string) : str :=
  map Ascii.N_of_ascii (String.list_ascii_of_string s).

Arguments lit s%_string.

(** [str(n)], or [{n}] in an f-string, for a count [n]. *)
Definition decimal (n : nat) : str :=
  lit (DecimalString.NilEmpty.string_of_uint (Nat.to_uint n)).

(** [c.isspace()] for one character, as CPython's
    [_PyUnicode_IsWhitespace] lists them. *)
Definition isspace (c : N) : bool :=
  ((9 <=? c) && (c <=? 13) || (28 <=? c) && (c <=? 32)
   || (c =? 133) || (c =? 160) || (c =? 5760)
   || (8192 <=? c) && (c <=? 8202)
   || (c =? 8232) || (c =? 8233) || (c =? 8239) || (c =? 8287)
   || (c =? 12288))%N.

(** [s.lstrip()], [s.rstrip()], [s.strip()] *)
Fixpoint lstrip (s : str) : str :=
  match s with
  | [] => []
  | c :: t => if isspace c then lstrip t else s
  end.

Definition rstrip (s : str) : str := rev (lstrip (rev s)).

Definition strip (s : str) : str := rstrip (lstrip s).

(** [s.startswith(p)] *)
Fixpoint startswith (s p : str) {struct p} : bool :=
  match p, s with
  | [] , _ => true
  | _ :: _, [] => false
  | a :: p', b :: s' => (a =? b)%N && startswith s' p'
  end.

(** [s.encode('ascii')]; [None] is a [UnicodeEncodeError]. *)
Fixpoint encode_ascii (s : str) : option (list byte) :=
  match s with
  | [] => Some []
  | c :: t =>
    if (c <? 128)%N then
      b <- Byte.of_N c ;;
      bs <- encode_ascii t ;;
      Some (b :: bs)
    else None
  end.

(** The lines a text file gives when iterated over, or read by
    [readlines()]: each ends behind its line feed, the last one maybe
    without. [cur] is the line begun. *)
Fixpoint lines_from (cur : str) (content : str) : list str :=
  match content with
  | [] => match cur with [] => [] | _ => [cur] end
  | c :: t =>
    if (c =? 10)%N then (cur ++ [c]) :: lines_from [] t
    else lines_from (cur ++ [c]) t
  end.

Definition lines (content : str) : list str := lines_from [] content.

(** [a == b] *)
Fixpoint eqb (a b : str) : bool :=
  match a, b with
  | [], [] => true
  | x :: a', y :: b' => (x =? y)%N && eqb a' b'
  | _, _ => false
  end.

End Text.

(** ** [NEW FILES/app.py], [OLD FILES/app.py] *)

Module App.

Import Text.

(** [log(msg)] on the list [st.session_state.log_messages]; [now] is what
    [time.strftime('%H:%M:%S')] returns when it is called. *)
Definition log (now msg : str) (log_messages : list str) : list str :=
  lastn 200 (log_messages ++ [now ++ lit " - " ++ msg]).

(** [DataFrame.tail(n)] of pandas, on the rows: nothing for [n = 0], the
    last [n] rows for a positive [n], all rows but the first [-n] for a
    negative one. *)
Definition tail {A : Type} (n : Z) (l : list A) : list A :=
  if n =? 0 then []
  else if 0 <? n then lastn (Z.to_nat n) l
       else skipn (Z.to_nat (- n)) l.

(** *** The new application *)

(** A row of [st.session_state.df]: the fields of the detection and the
    two columns [process] adds. *)
Record PlotRow := mkPlotRow {
  point : New.MovingObject;
  cluster_id : Z;
  label : Detection.Label }.

Record Session := mkSession {
  collector : option New.SerialCollector;
  df : list PlotRow;
  log_messages : list str;
  is_running : bool;
  human_count : nat }.

(** The columns of [pd.DataFrame([vars(p) for p in new_points])] that
    [process] reads. *)
Definition row_of (p : New.MovingObject) : Detection.Row :=
  Detection.mkRow (New.x p) (New.y p) (New.z p) (New.velocity p).

(** The rows of the processed batch, column beside column: [process]
    adds a cluster number and a label to every row. *)
Fixpoint plot_rows (points : list New.MovingObject) (ids : list Z)
         (labels : list Detection.Label) : list PlotRow :=
  match points, ids, labels with
  | p :: points', i :: ids', l :: labels' =>
    mkPlotRow p i l :: plot_rows points' ids' labels'
  | _, _, _ => []
  end.

(** How a pass through the script ends: at its last line, in
    [st.rerun()], or in an exception. *)
Inductive ended := Through | Rerun | Raised.

Section Libraries.

Variable DBSCAN
  : float -> Z -> list (float * float * float) -> option (list Z).
Variable mean : list float -> float.

(** The block under [# --- DATA POLLING & PROCESSING ---], once through:
    the session it leaves and how it ends. [detector] is the detector
    of the session, [max_points] the number in the side bar. When
    [process] raises, the detections that [get_latest] took from the
    queue are in no place any more. *)
Definition poll (now : str) (detector : Detection.HumanDetector)
           (max_points : Z) (s : Session) : Session * ended :=
  if is_running s then
    match collector s with
    | None => (s, Through)
    | Some c =>
      if negb (New.running c) then
        (mkSession (collector s) (df s)
                   (log now (lit "Collector thread stopped unexpectedly.")
                        (log_messages s))
                   false (human_count s),
         Rerun)
      else
        let (new_points, c) := New.get_latest 2000 c in
        match new_points with
        | [] => (mkSession (Some c) (df s) (log_messages s)
                           (is_running s) (human_count s),
                 Through)
        | _ :: _ =>
          match Detection.classify DBSCAN mean detector
                                   (map row_of new_points) with
          | None =>
            (mkSession (Some c) (df s) (log_messages s)
                       (is_running s) (human_count s),
             Raised)
          | Some (ids, labels, human_info) =>
            let processed_df := plot_rows new_points ids labels in
            let human_count := length human_info in
            (mkSession (Some c)
                       (tail max_points (df s ++ processed_df))
                       (log now
                            (lit "Processed "
                                 ++ decimal (length processed_df)
                                 ++ lit " points. Found "
                                 ++ decimal human_count
                                 ++ lit " humans.")
                            (log_messages s))
                       (is_running s) human_count,
             Through)
          end
        end
    end
  else (s, Through).

End Libraries.

(** *** The old application *)

Inductive State := MovingState | StaticState.

(** ['Moving' if v >= movement_thresh else 'Static'], on the absolute
    velocity. *)
Definition state_of (movement_thresh : float) (velocity : float) : State :=
  if PrimFloat.leb movement_thresh (PrimFloat.abs velocity)
  then MovingState else StaticState.

Record OldRow := mkOldRow {
  object : Old.MovingObject;
  state : State }.

Record OldSession := mkOldSession {
  old_collector : option Old.SerialCollector;
  old_df : list OldRow;
  old_log_messages : list str;
  old_is_running : bool }.

(** What becomes of [new_df.to_csv(...)]. *)
Inductive csv_outcome :=
| NotLogged                 (* the box is not ticked *)
| Written                   (* the rows were appended to the file *)
| Failed (e : str).         (* an exception, [e] its text *)

(** The block under [# --- DATA POLLING ---], once through. [alive] is
    what [running()] answers, [now] and [now'] the clock at the two calls
    of [log]. *)
Definition old_poll (alive : bool) (now now' : str) (csv : csv_outcome)
           (movement_thresh : float) (max_points : Z) (s : OldSession)
  : OldSession * bool :=
  if old_is_running s then
    match old_collector s with
    | None => (s, false)
    | Some c =>
      if negb alive then
        (mkOldSession (old_collector s) (old_df s)
                      (log now
                           (lit "Collector thread stopped unexpectedly.")
                           (old_log_messages s))
                      false,
         true)
      else
        let (new_items, c) := Old.get_latest 5000 c in
        match new_items with
        | [] => (mkOldSession (Some c) (old_df s) (old_log_messages s)
                              (old_is_running s),
                 false)
        | _ :: _ =>
          let new_df :=
            map (fun o => mkOldRow o (state_of movement_thresh
                                               (Old.velocity o)))
                new_items in
          let logs :=
            match csv with
            | Failed e => log now (lit "CSV error: " ++ e)
                              (old_log_messages s)
            | _ => old_log_messages s
            end in
          let df := tail max_points (old_df s ++ new_df) in
          (mkOldSession (Some c) df
                        (log now'
                             (lit "Added " ++ decimal (length new_df)
                                  ++ lit " new objects. Total points: "
                                  ++ decimal (length df))
                             logs)
                        (old_is_running s),
           false)
        end
    end
  else (s, false).

End App.

(** ** [NEW FILES/sender.py], [OLD FILES/sender.py] *)

Module Sender.

Import Text.

(** What the port does with a command. *)
Inductive port_answer :=
| Answers        (* [write] and [read_all] return *)
| WriteRaises    (* [write] raises: nothing is written *)
| ReadRaises.    (* the command is written, then [read_all] raises *)

(** The loop over the lines of the file, the port answering command after
    command as [port] lists, and answering ever after: whether the loop
    came to its end, and what was written, one member for each [write]. *)
Fixpoint send_lines (port : list port_answer) (lines : list str)
         (written : list bytes) : bool * list bytes :=
  match lines with
  | [] => (true, written)
  | line :: rest =>
    let line := strip line in
    match line with
    | [] => send_lines port rest written
    | _ :: _ =>
      if startswith line (lit "%") then send_lines port rest written
      else
        match encode_ascii (line ++ [10%N]) with
        | None => (false, written)
        | Some cmd =>
          match port with
          | WriteRaises :: _ => (false, written)
          | ReadRaises :: _ => (false, written ++ [cmd])
          | Answers :: port' => send_lines port' rest (written ++ [cmd])
          | [] => send_lines [] rest (written ++ [cmd])
          end
        end
    end
  end.

(** [send_mmwave_config(cfg_file, config_port)]: the value returned and
    what was written to the port. [file] is the text of the config file,
    [None] when there is no such file or it cannot be read; [opens] tells
    whether the port opens. Any exception ends the function with
    [False]. *)
Definition send_mmwave_config (file : option str) (opens : bool)
           (port : list port_answer) : bool * list bytes :=
  match file with
  | None => (false, [])
  | Some content =>
    if opens then send_lines port (lines content) [] else (false, [])
  end.

End Sender.

(** ** [OLD FILES/collector.py]: ports and life cycle *)

Module OldLife.

Import Text.

(** A [serial.Serial] object. *)
Record Serial := mkSerial { is_open : bool; baudrate : Z }.

(** The [Serial] objects made so far, each known by its position: two
    fields that hold the same object hold the same position. *)
Definition handle := nat.
Definition heap := list Serial.

Record Thread := mkThread { is_alive : bool }.

Record SerialCollector := mkCollector {
  data_port : str;
  data_baud : Z;
  config_port : str;
  config_baud : Z;
  _ser_data : option handle;
  _ser_config : option handle;
  _thread : option Thread;
  _stop_event : bool }.

(** [SerialCollector(data_port, data_baud, config_port, config_baud)]:
    [config_port if config_port else data_port]. *)
Definition init (data_port : str) (data_baud : Z)
           (config_port : option str) (config_baud : Z) : SerialCollector :=
  mkCollector data_port data_baud
              (match config_port with
               | Some (c :: p) => c :: p
               | _ => data_port
               end)
              config_baud None None None false.

Definition is_open_at (w : heap) (h : handle) : bool :=
  match nth_error w h with
  | Some s => is_open s
  | None => false
  end.

Fixpoint update (w : heap) (h : handle) (f : Serial -> Serial) : heap :=
  match w, h with
  | [], _ => []
  | s :: w', O => f s :: w'
  | s :: w', S h' => s :: update w' h' f
  end.

(** [Serial.close()] *)
Definition close (w : heap) (h : handle) : heap :=
  update w h (fun s => mkSerial false (baudrate s)).

(** [Serial.baudrate = b] *)
Definition set_baudrate (w : heap) (h : handle) (b : Z) : heap :=
  update w h (fun s => mkSerial (is_open s) b).

(** [a != b] on two fields that hold a [Serial] object or [None]. *)
Definition differ (a b : option handle) : bool :=
  match a, b with
  | Some x, Some y => negb (Nat.eqb x y)
  | None, None => false
  | _, _ => true
  end.

Inductive effect :=
| OpenSerial (h : handle)   (* [serial.Serial(...)] returned the object [h] *)
| OpenFailed                (* [serial.Serial(...)] raised *)
| BaudFailed                (* setting [baudrate] raised *)
| SpawnThread
| JoinThread
| CloseSerial (h : handle).

Inductive result :=
| Returned
| SerialReadError.

(** [running()] *)
Definition running (c : SerialCollector) : bool :=
  match _thread c with
  | Some t => is_alive t
  | None => false
  end.

(** [stop()]; [exits] tells whether the reader thread is gone when [join]
    returns. *)
Definition stop (exits : bool) (w : heap) (c : SerialCollector)
  : heap * SerialCollector * list effect :=
  let (thread, e0) :=
    match _thread c with
    | Some t => (Some (mkThread (is_alive t && negb exits)), [JoinThread])
    | None => (None, [])
    end in
  let (w1, e1) :=
    match _ser_data c with
    | Some h => if is_open_at w h then (close w h, [CloseSerial h])
                else (w, [])
    | None => (w, [])
    end in
  let (w2, e2) :=
    match _ser_config c with
    | Some h =>
      if is_open_at w1 h && differ (_ser_config c) (_ser_data c)
      then (close w1 h, [CloseSerial h])
      else (w1, [])
    | None => (w1, [])
    end in
  (w2,
   mkCollector (data_port c) (data_baud c) (config_port c) (config_baud c)
               (_ser_data c) (_ser_config c) thread true,
   e0 ++ e1 ++ e2).

(** What the operating system answers during [start()]. *)
Record answers := mkAnswers {
  grants_config : bool;   (* the config port opens *)
  grants_data : bool;     (* the data port opens *)
  sets_baud : bool }.     (* the baud rate of the open port can be set *)

Definition set_ser_config (c : SerialCollector) (h : handle)
  : SerialCollector :=
  mkCollector (data_port c) (data_baud c) (config_port c) (config_baud c)
              (_ser_data c) (Some h) (_thread c) (_stop_event c).

Definition set_ser_data (c : SerialCollector) (h : handle)
  : SerialCollector :=
  mkCollector (data_port c) (data_baud c) (config_port c) (config_baud c)
              (Some h) (_ser_config c) (_thread c) (_stop_event c).

(** The end of [start()] when nothing was raised. *)
Definition spawn (c : SerialCollector) : SerialCollector :=
  mkCollector (data_port c) (data_baud c) (config_port c) (config_baud c)
              (_ser_data c) (_ser_config c) (Some (mkThread true)) false.

(** The [except] clause of [start()]: [self.stop()], then
    [SerialReadError]. The thread, if there is one, is not alive here. *)
Definition abandon (w : heap) (c : SerialCollector) (e : list effect)
  : result * heap * SerialCollector * list effect :=
  let '(w', c', e') := stop true w c in
  (SerialReadError, w', c', e ++ e').

(** [start()] *)
Definition start (os : answers) (w : heap) (c : SerialCollector)
  : result * heap * SerialCollector * list effect :=
  if running c then (Returned, w, c, [])
  else if grants_config os then
    let hc := length w in
    let w := w ++ [mkSerial true (config_baud c)] in
    let c := set_ser_config c hc in
    if eqb (data_port c) (config_port c) then
      let c := set_ser_data c hc in
      if sets_baud os then
        (Returned, set_baudrate w hc (data_baud c), spawn c,
         [OpenSerial hc; SpawnThread])
      else abandon w c [OpenSerial hc; BaudFailed]
    else if grants_data os then
      let hd := length w in
      let w := w ++ [mkSerial true (data_baud c)] in
      (Returned, w, spawn (set_ser_data c hd),
       [OpenSerial hc; OpenSerial hd; SpawnThread])
    else abandon w c [OpenSerial hc; OpenFailed]
  else abandon w c [OpenFailed].

(** How [send_config] ends. *)
Inductive sent :=
| Done
| NotOpen              (* [SerialReadError]: the config port is not open *)
| UnicodeEncodeError   (* out of [encode('ascii')] *)
| SerialException.     (* out of [write] or [read_all] *)

(** The loop of [send_config]. *)
Fixpoint send_commands (port : list Sender.port_answer) (config : list str)
         (written : list bytes) : sent * list bytes :=
  match config with
  | [] => (Done, written)
  | command :: rest =>
    if negb (startswith command (lit "%"))
       && match strip command with [] => false | _ :: _ => true end
    then
      match encode_ascii (command ++ [10%N]) with
      | None => (UnicodeEncodeError, written)
      | Some cmd =>
        match port with
        | Sender.WriteRaises :: _ => (SerialException, written)
        | Sender.ReadRaises :: _ => (SerialException, written ++ [cmd])
        | Sender.Answers :: port' =>
          send_commands port' rest (written ++ [cmd])
        | [] => send_commands [] rest (written ++ [cmd])
        end
      end
    else send_commands port rest written
  end.

(** [send_config(config)]: how it ends, the [Serial] objects, and what was
    written to the config port. [baud_ok] tells whether the baud rate of
    the data port can be set. *)
Definition send_config (port : list Sender.port_answer) (baud_ok : bool)
           (config : list str) (w : heap) (c : SerialCollector)
  : sent * heap * list bytes :=
  match _ser_config c with
  | None => (NotOpen, w, [])
  | Some hc =>
    if negb (is_open_at w hc) then (NotOpen, w, [])
    else
      match send_commands port config [] with
      | (Done, written) =>
        match _ser_data c with
        | Some hd =>
          match nth_error w hd with
          | Some s =>
            if is_open s && negb (baudrate s =? data_baud c) then
              if baud_ok
              then (Done, set_baudrate w hd (data_baud c), written)
              else (SerialException, w, written)
            else (Done, w, written)
          | None => (Done, w, written)
          end
        | None => (Done, w, written)
        end
      | (raised, written) => (raised, w, written)
      end
  end.

End OldLife.

(** ** Notions the statements on the applications use *)

(** The rows a batch shows as Human. *)
Definition is_human_row (r : App.PlotRow) : bool :=
  match App.label r with
  | Detection.Human => true
  | _ => false
  end.

(** The number of clusters of a batch with rows shown as Human. *)
Definition humans_in (batch : list App.PlotRow) : nat :=
  length (Detection.unique []
            (map App.cluster_id (filter is_human_row batch))).

(** The detection behind a row of the point cloud. *)
Definition figure_point (r : Detection.Row) : New.MovingObject :=
  New.mkMovingObject (Detection.x r) (Detection.y r) (Detection.z r)
                     (Detection.velocity r) 0 0.

(** A running session with the standing figure waiting in the queue. *)
Definition figure_session : App.Session :=
  App.mkSession
    (Some (New.set_queue started_collector (map figure_point figure_rows)))
    [] [] true 0.

(** A running session with one detection waiting whose [x] is no number. *)
Definition nan_session : App.Session :=
  App.mkSession
    (Some (New.set_queue started_collector [new_obj PrimFloat.nan]))
    [] [] true 0.

(** The reader thread takes in [chunks] between two passes of the polling
    block: the session, and the packets cut out of the buffer. *)
Definition feed (chunks : list bytes) (s : App.Session)
  : App.Session * list bytes :=
  match App.collector s with
  | Some c =>
    let (c', cut) := New.consume_all c chunks in
    (App.mkSession (Some c') (App.df s) (App.log_messages s)
                   (App.is_running s) (App.human_count s),
     cut)
  | None => (s, [])
  end.

(** The clustering returns on the detections of a cut, a cluster number
    for each. *)
Definition clusters
           (DBSCAN : float -> Z -> list (float * float * float)
                     -> option (list Z))
           (d : Detection.HumanDetector) (cut : list bytes) : Prop :=
  let points := flat_map New_decode cut in
  exists ids : list Z,
    DBSCAN (Detection.eps d) (Detection.min_samples d)
           (map (fun r => (Detection.x r, Detection.y r, Detection.z r))
                (map App.row_of points))
    = Some ids /\
    length ids = length points.

(** A run of the new application: round after round, the reader takes in
    the chunks of the round and the polling block runs once, at the time
    given; a pass that ends in an exception or in a rerun ends the run. The
    session at the end, and the packets cut in each round. *)
Fixpoint run
         (DBSCAN : float -> Z -> list (float * float * float)
                   -> option (list Z))
         (mean : list float -> float) (d : Detection.HumanDetector)
         (max_points : Z) (rounds : list (list bytes * Text.str))
         (s : App.Session) : App.Session * list (list bytes) :=
  match rounds with
  | [] => (s, [])
  | (chunks, now) :: rest =>
    let (s1, cut) := feed chunks s in
    match App.poll DBSCAN mean now d max_points s1 with
    | (s2, App.Through) =>
      let (s3, cuts) := run DBSCAN mean d max_points rest s2 in
      (s3, cut :: cuts)
    | (s2, _) => (s2, [cut])
    end
  end.

(** A session that runs, nothing in the queue, nothing on display. *)
Definition fresh_session : App.Session :=
  App.mkSession (Some started_collector) [] [] true 0.

(** Two rounds: the head of a frame; then its tail and a second frame. *)
Definition two_rounds : list (list bytes * Text.str) :=
  [([firstn 30 frame_one_point], Text.lit "12:00:00");
   ([skipn 30 frame_one_point; frame_one_point], Text.lit "12:00:01")].

(** A command line of a config file, once stripped: not empty, and not
    begun by a percent sign. *)
Definition is_command (line : Text.str) : bool :=
  match line with
  | [] => false
  | _ :: _ => negb (Text.startswith line (Text.lit "%"))
  end.

(** The commands of a config file, in its order. *)
Definition commands (content : Text.str) : list Text.str :=
  filter is_command (map Text.strip (Text.lines content)).

(** What is written for a command: its characters and a line feed, in
    ASCII. *)
Definition command_bytes (line : Text.str) : option bytes :=
  Text.encode_ascii (line ++ [10%N]).

(** A line feed nowhere but at the end. *)
Definition one_line (l : Text.str) : Prop :=
  forall a b, l = a ++ 10%N :: b -> b = [].

(** A config file of three lines: a comment, a command between blanks, and
    a command without its line feed. *)
Definition config_text : Text.str :=
  Text.lit "% profile" ++ [10%N]
           ++ Text.lit "  sensorStop " ++ [10%N]
           ++ Text.lit "sensorStart".

(** The [Serial] objects a run of effects has closed, in order. *)
Definition closes (e : list OldLife.effect) : list OldLife.handle :=
  flat_map (fun x => match x with
                     | OldLife.CloseSerial h => [h]
                     | _ => []
                     end) e.

(** The [Serial] objects a run of effects has opened, in order. *)
Definition opens (e : list OldLife.effect) : list OldLife.handle :=
  flat_map (fun x => match x with
                     | OldLife.OpenSerial h => [h]
                     | _ => []
                     end) e.

(** A collector of the old application, which names no config port. *)
Definition old_app_collector : OldLife.SerialCollector :=
  OldLife.init (Text.lit "COM4") 921600 None 115200.

(** A collector with a config port of its own. *)
Definition two_port_collector : OldLife.SerialCollector :=
  OldLife.init (Text.lit "COM4") 921600 (Some (Text.lit "COM5")) 115200.

(** The old collector of the application, started: one [Serial] object,
    open, for both ports. *)
Definition started_old_collector : OldLife.SerialCollector :=
  snd (fst (OldLife.start (OldLife.mkAnswers true true true) []
                          old_app_collector)).

Definition started_old_ports : OldLife.heap :=
  snd (fst (fst (OldLife.start (OldLife.mkAnswers true true true) []
                               old_app_collector))).

(** A configuration of two commands and a comment, stripped. *)
Definition config_lines : list Text.str :=
  [Text.lit "sensorStop"; Text.lit "% profile"; Text.lit "sensorStart"].

(** A session of the old application that is running, two detections
    waiting: one coming closer, one going away. *)
Definition old_polling_session : App.OldSession :=
  App.mkOldSession
    (Some (Old.set_queue (Old.init 20000)
                         [Old.mkMovingObject 1 2 0 0.5 3;
                          Old.mkMovingObject 1 2 0 (-0.5) 3]))
    [] [] true.
(** * Properties *)

(** ** The embedding at work *)

(** One frame with the point (1.0, 2.0, 3.0) at velocity 0.5 and the raw
    SNR 123: both decoders give the one detection, at range sqrt 14. *)
Example new_decodes_one_point :
  New._parse_packet frame_one_point 40 =
  Some [New.mkMovingObject 1 2 3 0.5 0x1.deeea11683f49p+1
                           (123 * 0x1.999999999999ap-4)].
Proof. vm_compute. reflexivity. Qed.

Example old_decodes_one_point :
  Old._parse_packet (fun v => v) frame_one_point =
  Some [Old.mkMovingObject 1 2 3 0.5 0x1.deeea11683f49p+1].
Proof. vm_compute. reflexivity. Qed.

(** The frame behind three bytes of noise, followed by one byte: the new
    collector queues the detection and keeps the last byte. *)
Example new_processes_one_frame :
  let r := New.consume (New.init 20000)
                       ([x00; x02; x01] ++ frame_one_point ++ [x07]) in
  New.ended r = New.Break /\
  New.packets r = [frame_one_point] /\
  New._buffer (New.after r) = [x07] /\
  length (New._data_q (New.after r)) = 1%nat.
Proof. vm_compute. repeat split; reflexivity. Qed.

(** The figure is a human, the point below it is clutter. *)
Example figure_is_human :
  Detection.classify dbscan plain_mean four_point_detector figure_rows
  = Some ([0; 0; 0; 0; -1],
          [Detection.Human; Detection.Human; Detection.Human;
           Detection.Human; Detection.Clutter],
          [Detection.mkInfo 0 (0.125, 0, 0.5625)%float 4]).
Proof. vm_compute. reflexivity. Qed.

(** [start()], [start()] again, [stop()]: one port opened, one thread
    spawned, then joined, and the port closed. *)
Example life_cycle :
  let '(_, c1, e1) := New.start true (New.init 20000) in
  let '(_, c2, e2) := New.start true c1 in
  let '(_, c3, e3) := New.stop true c2 in
  e1 ++ e2 ++ e3
  = [New.OpenSerial; New.SpawnThread; New.JoinThread; New.CloseSerial] /\
  New.running c2 = true /\ New.running c3 = false.
Proof. vm_compute. repeat split; reflexivity. Qed.

(** ** Searching a buffer *)

Section Find.

Local Open Scope nat_scope.

Lemma starts_with_prefix (p l : bytes) :
  starts_with p l = true <-> exists r, l = p ++ r.
Proof.
  revert l. induction p as [|a p IH]; intros l; simpl.
  - split; [intros _; exists l; reflexivity|reflexivity].
  - destruct l as [|b l].
    + split; [discriminate|]. intros [r Hr]. discriminate Hr.
    + rewrite andb_true_iff, IH. split.
      * intros [Hab [r ->]]. apply Byte.byte_dec_bl in Hab. subst b.
        exists r. reflexivity.
      * intros [r Hr]. injection Hr as -> ->.
        split; [apply Byte.byte_dec_lb; reflexivity|exists r; reflexivity].
Qed.

Lemma starts_with_app (p l r : bytes) :
  starts_with p l = true -> starts_with p (l ++ r) = true.
Proof.
  rewrite !starts_with_prefix. intros [q ->]. exists (q ++ r).
  rewrite app_assoc. reflexivity.
Qed.

Lemma starts_with_length (p l : bytes) :
  starts_with p l = true -> length p <= length l.
Proof.
  rewrite starts_with_prefix. intros [r ->]. rewrite length_app. lia.
Qed.

(** Whether [p] starts a buffer is settled by the first [length p]
    bytes. *)
Lemma starts_with_long (p l r : bytes) :
  length p <= length l -> starts_with p (l ++ r) = starts_with p l.
Proof.
  revert l. induction p as [|a p IH]; intros l Hl; simpl; [reflexivity|].
  destruct l as [|b l]; simpl in *; [lia|].
  rewrite IH by lia. reflexivity.
Qed.

Lemma find_bound (p l : bytes) (i : nat) :
  find p l = Some i ->
  starts_with p (skipn i l) = true /\ i + length p <= length l.
Proof.
  revert i. induction l as [|b l IH]; intros i; simpl.
  - destruct (starts_with p []) eqn:E; [|discriminate].
    intros [= <-]. split; [exact E|]. apply starts_with_length in E. exact E.
  - destruct (starts_with p (b :: l)) eqn:E.
    + intros [= <-]. split; [exact E|].
      apply starts_with_length in E. exact E.
    + destruct (find p l) as [j|]; [|discriminate].
      intros [= <-]. destruct (IH j eq_refl) as [H1 H2].
      split; [exact H1|simpl; lia].
Qed.

Lemma find_at_start (p l : bytes) :
  starts_with p l = true -> find p l = Some 0.
Proof.
  intros H. destruct l; simpl; rewrite H; reflexivity.
Qed.

Lemma find_short (p l : bytes) :
  length l < length p -> find p l = None.
Proof.
  induction l as [|b l IH]; intros Hl; simpl.
  - destruct (starts_with p []) eqn:E; [|reflexivity].
    apply starts_with_length in E. simpl in *. lia.
  - destruct (starts_with p (b :: l)) eqn:E.
    + apply starts_with_length in E. lia.
    + rewrite IH by (simpl in Hl; lia). reflexivity.
Qed.

(** An occurrence found in a buffer is still the first one when more
    bytes arrive. *)
Lemma find_app (p l r : bytes) (i : nat) :
  find p l = Some i -> find p (l ++ r) = Some i.
Proof.
  revert i. induction l as [|b l IH]; intros i; simpl.
  - destruct (starts_with p []) eqn:E; [|discriminate].
    intros [= <-]. apply find_at_start.
    apply (starts_with_app p [] r E).
  - destruct (starts_with p (b :: l)) eqn:E.
    + intros [= <-]. pose proof (starts_with_app p (b :: l) r E) as Happ.
      simpl app in Happ. rewrite Happ. reflexivity.
    + destruct (find p l) as [j|] eqn:F; [|discriminate].
      intros [= <-]. destruct (find_bound p l j F) as [_ Hj].
      pose proof (starts_with_long p (b :: l) r) as Hlong.
      simpl app in Hlong. rewrite Hlong by (simpl; lia).
      rewrite E, (IH j eq_refl). reflexivity.
Qed.

(** After bytes that hold no occurrence of [p], a buffer that starts with
    [p] is found where those bytes end: no occurrence can straddle the
    two, because the bytes of [p] are pairwise different. *)
Lemma find_after_noise (p noise l : bytes) :
  NoDup p -> p <> [] ->
  find p noise = None -> starts_with p l = true ->
  find p (noise ++ l) = Some (length noise).
Proof.
  intros Hnd Hne Hfind Hl.
  induction noise as [|b noise IH]; simpl in *.
  - apply find_at_start, Hl.
  - destruct (starts_with p (b :: noise)) eqn:E; [discriminate|].
    destruct (find p noise) as [j|] eqn:F; [discriminate|].
    rewrite IH by reflexivity. simpl.
    assert (Hno : starts_with p (b :: noise ++ l) = false).
    { destruct (le_lt_dec (length p) (length (b :: noise))) as [Hlen|Hlen].
      - pose proof (starts_with_long p (b :: noise) l Hlen) as Hlong.
        simpl app in Hlong. rewrite Hlong. exact E.
      - destruct (starts_with p (b :: noise ++ l)) eqn:E'; [|reflexivity].
        exfalso. apply starts_with_prefix in E'. destruct E' as [r Hr].
        apply starts_with_prefix in Hl. destruct Hl as [r' ->].
        destruct p as [|a p]; [congruence|].
        assert (Hnth : nth (length (b :: noise)) (a :: p) a = a).
        { transitivity (nth (length (b :: noise))
                            ((b :: noise) ++ (a :: p) ++ r') a).
          - change (b :: noise ++ (a :: p) ++ r')
              with ((b :: noise) ++ (a :: p) ++ r') in Hr.
            rewrite Hr. rewrite app_nth1 by exact Hlen. reflexivity.
          - rewrite app_nth2 by lia. rewrite Nat.sub_diag. reflexivity. }
        pose proof (proj1 (NoDup_nth (a :: p) a) Hnd
                          (length (b :: noise)) 0 Hlen
                          ltac:(simpl; lia) Hnth) as Habs.
        simpl in Habs. discriminate Habs. }
    rewrite Hno. reflexivity.
Qed.

Lemma MAGIC_WORD_NoDup : NoDup MAGIC_WORD.
Proof.
  unfold MAGIC_WORD.
  repeat (constructor; [simpl; intuition discriminate|]). constructor.
Qed.

Lemma find_magic_after_noise (noise l : bytes) :
  find MAGIC_WORD noise = None -> starts_with MAGIC_WORD l = true ->
  find MAGIC_WORD (noise ++ l) = Some (length noise).
Proof.
  apply find_after_noise; [apply MAGIC_WORD_NoDup|discriminate].
Qed.

End Find.

(** ** Reading the length fields *)

Lemma len_nonneg (b : bytes) : 0 <= len b.
Proof. unfold len. lia. Qed.

Lemma len_app (a b : bytes) : len (a ++ b) = len a + len b.
Proof. unfold len. rewrite length_app. lia. Qed.

Lemma len_take (n : Z) (b : bytes) :
  0 <= n <= len b -> len (take n b) = n.
Proof.
  unfold len, take. intros H. rewrite length_firstn. lia.
Qed.

Lemma len_drop (n : Z) (b : bytes) :
  0 <= n <= len b -> len (drop n b) = len b - n.
Proof.
  unfold len, drop. intros H. rewrite length_skipn. lia.
Qed.

Lemma take_app (n : Z) (a b : bytes) :
  n <= len a -> take n (a ++ b) = take n a.
Proof.
  unfold len, take. intros H. rewrite firstn_app.
  replace (Z.to_nat n - length a)%nat with 0%nat by lia.
  simpl. apply app_nil_r.
Qed.

Lemma drop_app (n : Z) (a b : bytes) :
  n <= len a -> drop n (a ++ b) = drop n a ++ b.
Proof.
  unfold len, drop. intros H. rewrite skipn_app.
  replace (Z.to_nat n - length a)%nat with 0%nat by lia.
  reflexivity.
Qed.

Lemma le_combine_nonneg (l : bytes) : 0 <= le_combine l.
Proof.
  induction l as [|h t IH]; cbn [le_combine]; [lia|].
  pose proof (N2Z.is_nonneg (Byte.to_N h)). lia.
Qed.

Lemma unpack_u32_some (buf : bytes) (off : Z) :
  0 <= off -> off + 4 <= len buf -> exists v, unpack_u32 buf off = Some v.
Proof.
  intros H0 H4. unfold unpack_u32.
  replace (0 <=? off) with true by (symmetry; apply Z.leb_le; lia).
  replace (off + 4 <=? len buf) with true by (symmetry; apply Z.leb_le; lia).
  eexists. reflexivity.
Qed.

Lemma unpack_u32_bound (buf : bytes) (off v : Z) :
  unpack_u32 buf off = Some v -> 0 <= off /\ off + 4 <= len buf /\ 0 <= v.
Proof.
  unfold unpack_u32.
  destruct (0 <=? off) eqn:E0; simpl; [|discriminate].
  destruct (off + 4 <=? len buf) eqn:E4; [|discriminate].
  intros [= <-]. apply Z.leb_le in E0, E4.
  repeat split; try assumption. apply le_combine_nonneg.
Qed.

(** A field that can be read is not changed by bytes that arrive later. *)
Lemma unpack_u32_app (a b : bytes) (off v : Z) :
  unpack_u32 a off = Some v -> unpack_u32 (a ++ b) off = Some v.
Proof.
  intros H. destruct (unpack_u32_bound _ _ _ H) as [H0 [H4 _]].
  revert H. unfold unpack_u32.
  replace (0 <=? off) with true by (symmetry; apply Z.leb_le; lia).
  replace (off + 4 <=? len a) with true by (symmetry; apply Z.leb_le; lia).
  replace (off + 4 <=? len (a ++ b)) with true
    by (symmetry; apply Z.leb_le; rewrite len_app; pose proof (len_nonneg b);
        lia).
  simpl. intros [= <-]. f_equal. f_equal.
  rewrite drop_app by lia. apply take_app.
  rewrite len_drop by lia. lia.
Qed.

(** ** The ingest queue *)

Section QueueBound.

Variable N : Z.
Hypothesis N_pos : 0 < N.

Lemma New_put_at_capacity (q : list New.MovingObject) (o : New.MovingObject) :
  Z.of_nat (length q) = N -> New.put N q o = q.
Proof.
  intros Hq. unfold New.put, New.full.
  replace (0 <? N) with true by (symmetry; apply Z.ltb_lt; lia).
  replace (N <=? Z.of_nat (length q)) with true
    by (symmetry; apply Z.leb_le; lia).
  reflexivity.
Qed.

Lemma New_put_bound (q : list New.MovingObject) (o : New.MovingObject) :
  Z.of_nat (length q) <= N -> Z.of_nat (length (New.put N q o)) <= N.
Proof.
  intros Hq. unfold New.put, New.full.
  replace (0 <? N) with true by (symmetry; apply Z.ltb_lt; lia).
  simpl. destruct (N <=? Z.of_nat (length q)) eqn:E; [exact Hq|].
  apply Z.leb_gt in E. rewrite length_app. simpl. lia.
Qed.

Lemma New_put_all_bound (objs q : list New.MovingObject) :
  Z.of_nat (length q) <= N ->
  Z.of_nat (length (New.put_all N q objs)) <= N.
Proof.
  revert q. induction objs as [|o objs IH]; intros q Hq; simpl.
  - exact Hq.
  - apply IH, New_put_bound, Hq.
Qed.

Lemma Old_put_at_capacity (q : list Old.MovingObject) (o : Old.MovingObject) :
  Z.of_nat (length q) = N ->
  Old.put N q o = (tl q ++ [o], true) /\
  Z.of_nat (length (tl q ++ [o])) = N.
Proof.
  intros Hq. unfold Old.put, Old.full.
  replace (0 <? N) with true by (symmetry; apply Z.ltb_lt; lia).
  replace (N <=? Z.of_nat (length q)) with true
    by (symmetry; apply Z.leb_le; lia).
  destruct q as [|a q]; simpl in *; [lia|].
  replace (N <=? Z.of_nat (length q)) with false
    by (symmetry; apply Z.leb_gt; lia).
  simpl. split; [reflexivity|]. rewrite length_app. simpl. lia.
Qed.

Lemma Old_put_bound (q : list Old.MovingObject) (o : Old.MovingObject) :
  Z.of_nat (length q) <= N ->
  exists q', Old.put N q o = (q', true) /\ Z.of_nat (length q') <= N.
Proof.
  intros Hq. unfold Old.put, Old.full.
  replace (0 <? N) with true by (symmetry; apply Z.ltb_lt; lia).
  simpl. destruct (N <=? Z.of_nat (length q)) eqn:E.
  - apply Z.leb_le in E. destruct q as [|a q]; simpl in *; [lia|].
    replace (N <=? Z.of_nat (length q)) with false
      by (symmetry; apply Z.leb_gt; lia).
    eexists; split; [reflexivity|]. rewrite length_app. simpl. lia.
  - apply Z.leb_gt in E.
    eexists; split; [reflexivity|]. rewrite length_app. simpl. lia.
Qed.

Lemma Old_put_all_bound (objs q : list Old.MovingObject) :
  Z.of_nat (length q) <= N ->
  exists q', Old.put_all N q objs = (q', true) /\
             Z.of_nat (length q') <= N.
Proof.
  revert q. induction objs as [|o objs IH]; intros q Hq; simpl.
  - exists q. split; [reflexivity|exact Hq].
  - destruct (Old_put_bound q o Hq) as [q' [-> Hq']]. apply IH, Hq'.
Qed.

End QueueBound.

(** A turn of the loop keeps the new collector's queue within its
    capacity, and so does a pass over the buffer. *)
Lemma New_process_step_queue_bound (c : New.SerialCollector)
      (out : list bytes) :
  0 < New.queue_max c ->
  Z.of_nat (length (New._data_q c)) <= New.queue_max c ->
  match New.process_step c out with
  | inl r =>
    New.queue_max (New.after r) = New.queue_max c /\
    New._data_q (New.after r) = New._data_q c
  | inr (c', _) =>
    New.queue_max c' = New.queue_max c /\
    Z.of_nat (length (New._data_q c')) <= New.queue_max c
  end.
Proof.
  intros Hpos Hq. unfold New.process_step.
  destruct (find MAGIC_WORD (New._buffer c)) as [idx|]; simpl; [|auto].
  destruct (unpack_u32 _ 8) as [hl|]; simpl; [|auto].
  destruct (unpack_u32 _ 12) as [total|]; simpl; [|auto].
  destruct (_ <? total); simpl; [auto|].
  destruct (New._parse_packet _ hl) as [objs|]; simpl; [|auto].
  split; [reflexivity|]. apply New_put_all_bound; assumption.
Qed.

Lemma New_process_loop_queue_bound (fuel : nat) :
  forall (c : New.SerialCollector) (out : list bytes),
    0 < New.queue_max c ->
    Z.of_nat (length (New._data_q c)) <= New.queue_max c ->
    New.queue_max (New.after (New.process_loop fuel c out)) = New.queue_max c /\
    Z.of_nat (length (New._data_q (New.after (New.process_loop fuel c out))))
    <= New.queue_max c.
Proof.
  induction fuel as [|fuel IH]; intros c out Hpos Hq; simpl.
  - split; [reflexivity|exact Hq].
  - pose proof (New_process_step_queue_bound c out Hpos Hq) as Hs.
    destruct (New.process_step c out) as [r|[c' out']].
    + destruct Hs as [-> ->]. split; [reflexivity|exact Hq].
    + destruct Hs as [H1 H2].
      destruct (IH c' out') as [H3 H4]; rewrite ?H1; auto.
      rewrite H3, H1 in *. auto.
Qed.

(** The same for the old collector, where moreover no [queue.Full]
    escapes. *)
Lemma Old_process_step_queue_bound (round4 : float -> float)
      (c : Old.SerialCollector) (out : list bytes) :
  0 < Old.queue_max c ->
  Z.of_nat (length (Old._data_q c)) <= Old.queue_max c ->
  match Old.process_step round4 c out with
  | inl r =>
    Old.queue_max (Old.after r) = Old.queue_max c /\
    Old._data_q (Old.after r) = Old._data_q c /\
    Old.ended r <> Old.QueueFull
  | inr (c', _) =>
    Old.queue_max c' = Old.queue_max c /\
    Z.of_nat (length (Old._data_q c')) <= Old.queue_max c
  end.
Proof.
  intros Hpos Hq. unfold Old.process_step.
  destruct (find MAGIC_WORD (Old._buffer c)) as [idx|]; simpl.
  2:{ destruct (_ >? _); simpl; repeat split; discriminate. }
  destruct (_ <? 40); simpl; [repeat split; discriminate|].
  destruct (unpack_u32 _ 12) as [total|]; simpl; [|auto].
  destruct (_ || _); simpl; [auto|].
  destruct (_ <? total); simpl; [repeat split; discriminate|].
  destruct (Old._parse_packet _ _) as [objs|]; simpl;
    [|repeat split; discriminate].
  destruct (Old_put_all_bound _ Hpos objs _ Hq) as [q1 [-> Hq1]].
  simpl. auto.
Qed.

Lemma Old_process_loop_queue_bound (round4 : float -> float) (fuel : nat) :
  forall (c : Old.SerialCollector) (out : list bytes),
    0 < Old.queue_max c ->
    Z.of_nat (length (Old._data_q c)) <= Old.queue_max c ->
    Old.queue_max (Old.after (Old.process_loop round4 fuel c out))
    = Old.queue_max c /\
    Z.of_nat
      (length (Old._data_q (Old.after (Old.process_loop round4 fuel c out))))
    <= Old.queue_max c /\
    Old.ended (Old.process_loop round4 fuel c out) <> Old.QueueFull.
Proof.
  induction fuel as [|fuel IH]; intros c out Hpos Hq; simpl.
  - repeat split; [exact Hq|discriminate].
  - pose proof (Old_process_step_queue_bound round4 c out Hpos Hq) as Hs.
    destruct (Old.process_step round4 c out) as [r|[c' out']].
    + destruct Hs as [-> [-> Hs]]. repeat split; assumption.
    + destruct Hs as [H1 H2].
      destruct (IH c' out') as [H3 [H4 H5]]; rewrite ?H1; auto.
      rewrite H3, H1 in *. auto.
Qed.

(** C5. The ingest queue never holds more than its capacity [N]: a pass over
    the buffer leaves at most [N] members in a queue that held at most [N],
    and pushing onto a queue of exactly [N] members leaves exactly [N]: the
    new collector drops the arrival, the old one gives up its oldest member
    for it. *)
Theorem C5_queue_never_exceeds_capacity (N : Z) (HN : 0 < N) :
  (forall (q : list New.MovingObject) (o : New.MovingObject),
      Z.of_nat (length q) = N ->
      New.put N q o = q /\ Z.of_nat (length (New.put N q o)) = N) /\
  (forall (q : list Old.MovingObject) (o : Old.MovingObject),
      Z.of_nat (length q) = N ->
      Old.put N q o = (tl q ++ [o], true) /\
      Z.of_nat (length (tl q ++ [o])) = N) /\
  (forall (c : New.SerialCollector),
      New.queue_max c = N ->
      Z.of_nat (length (New._data_q c)) <= N ->
      Z.of_nat (length (New._data_q (New.after (New._process_buffer c))))
      <= N) /\
  (forall (round4 : float -> float) (c : Old.SerialCollector),
      Old.queue_max c = N ->
      Z.of_nat (length (Old._data_q c)) <= N ->
      Z.of_nat
        (length (Old._data_q (Old.after (Old._process_buffer round4 c)))) <= N).
Proof.
  split; [|split; [|split]].
  - intros q o Hq. rewrite (New_put_at_capacity N HN q o Hq). auto.
  - intros q o Hq. apply Old_put_at_capacity; assumption.
  - intros c Hc Hq. subst N.
    apply (New_process_loop_queue_bound _ c []); assumption.
  - intros round4 c Hc Hq. subst N.
    apply (Old_process_loop_queue_bound round4 _ c []); assumption.
Qed.

Lemma C5_queue_never_exceeds_capacity_witness :
  0 < 20000 /\
  (forall (c : New.SerialCollector),
      New.queue_max c = 20000 ->
      Z.of_nat (length (New._data_q c)) <= 20000 ->
      Z.of_nat (length (New._data_q (New.after (New._process_buffer c))))
      <= 20000).
Proof.
  split; [reflexivity|].
  apply (C5_queue_never_exceeds_capacity 20000). reflexivity.
Defined.

(** ** Life cycle of the collector *)

(** C8. A [start()] on a collector that is running returns at once: the
    collector is as it was, no port is opened and no thread is spawned. *)
Theorem C8_start_while_running_is_noop
        (opens : bool) (c : New.SerialCollector) :
  New.running c = true ->
  New.start opens c = (New.Returned, c, []).
Proof.
  intros Hrun. unfold New.start. rewrite Hrun. reflexivity.
Qed.

Lemma C8_start_while_running_is_noop_witness :
  New.running started_collector = true /\
  New.start true started_collector = (New.Returned, started_collector, []).
Proof.
  split; [reflexivity|].
  apply (C8_start_while_running_is_noop true started_collector). reflexivity.
Defined.

(** C10 does not hold as it stands. [stop()] on a fresh collector sets its
    stop event, which [__init__] had left clear: the collector is not as it
    was. *)
Lemma C10_stop_changes_the_stop_event :
  New._thread (New.init 20000) = None /\
  New._ser_data (New.init 20000) = None /\
  forall exits : bool,
    snd (fst (New.stop exits (New.init 20000))) <> New.init 20000.
Proof.
  split; [reflexivity|]. split; [reflexivity|].
  intros exits H. discriminate H.
Qed.

(** C10, amended. [stop()] on a collector that has no thread and no port
    returns normally, joins and closes nothing, and leaves the collector as
    it was but for the stop event, which is set. *)
Theorem C10_stop_before_start (exits : bool) (c : New.SerialCollector) :
  New._thread c = None ->
  New._ser_data c = None ->
  New.stop exits c =
  (New.Returned,
   New.mkCollector None None true
                   (New._data_q c) (New.queue_max c) (New._buffer c),
   []).
Proof.
  intros Ht Hs. unfold New.stop. rewrite Ht, Hs. reflexivity.
Qed.

Lemma C10_stop_before_start_witness :
  New._thread (New.init 20000) = None /\
  New._ser_data (New.init 20000) = None /\
  New.stop true (New.init 20000) =
  (New.Returned, New.mkCollector None None true [] 20000 [], []).
Proof.
  split; [reflexivity|]. split; [reflexivity|].
  apply (C10_stop_before_start true (New.init 20000)); reflexivity.
Defined.

(** ** Decoding a packet *)

Lemma unpack_f32_some (buf : bytes) (off : Z) :
  0 <= off -> off + 4 <= len buf -> exists v, unpack_f32 buf off = Some v.
Proof.
  intros H0 H4. unfold unpack_f32.
  destruct (unpack_u32_some buf off H0 H4) as [v ->]. eexists. reflexivity.
Qed.

Lemma unpack_i16_some (buf : bytes) (off : Z) :
  0 <= off -> off + 2 <= len buf -> exists v, unpack_i16 buf off = Some v.
Proof.
  intros H0 H2. unfold unpack_i16.
  replace (0 <=? off) with true by (symmetry; apply Z.leb_le; lia).
  replace (off + 2 <=? len buf) with true by (symmetry; apply Z.leb_le; lia).
  eexists. reflexivity.
Qed.

(** The inner loops of the new decoder never raise. *)
Lemma New_read_points_total (n : nat) :
  forall (tlv_data : bytes) (points : list New.Point),
  exists points', New.read_points n tlv_data points = Some points'.
Proof.
  induction n as [|n IH]; intros tlv_data points; cbn [New.read_points].
  - eexists. reflexivity.
  - destruct (len tlv_data <? 16) eqn:E; [eexists; reflexivity|].
    apply Z.ltb_ge in E.
    assert (Hc : len (take 16 tlv_data) = 16) by (apply len_take; lia).
    destruct (unpack_f32_some (take 16 tlv_data) 0) as [x ->]; [lia|lia|].
    destruct (unpack_f32_some (take 16 tlv_data) 4) as [y ->]; [lia|lia|].
    destruct (unpack_f32_some (take 16 tlv_data) 8) as [z ->]; [lia|lia|].
    destruct (unpack_f32_some (take 16 tlv_data) 12) as [v ->]; [lia|lia|].
    cbn [bind]. apply IH.
Qed.

Lemma New_read_side_info_total (n : nat) :
  forall (tlv_data : bytes) (side_info : list float),
  exists side_info', New.read_side_info n tlv_data side_info = Some side_info'.
Proof.
  induction n as [|n IH]; intros tlv_data side_info;
    cbn [New.read_side_info].
  - eexists. reflexivity.
  - destruct (len tlv_data <? 4) eqn:E; [eexists; reflexivity|].
    apply Z.ltb_ge in E.
    assert (Hc : len (take 4 tlv_data) = 4) by (apply len_take; lia).
    destruct (unpack_i16_some (take 4 tlv_data) 0) as [a ->]; [lia|lia|].
    destruct (unpack_i16_some (take 4 tlv_data) 2) as [b ->]; [lia|lia|].
    cbn [bind]. apply IH.
Qed.

(** A turn of the TLV loop never raises, and moves the offset forward. *)
Lemma New_tlv_step_total (data : bytes) (ndet : Z) (s : New.tlv_state) :
  0 <= New.offset s ->
  exists r, New.tlv_step data ndet s = Some r /\
            match r with
            | inl s' => New.points s' = New.points s /\
                        New.side_info s' = New.side_info s
            | inr s' => New.offset s + 8 <= New.offset s' <= len data
            end.
Proof.
  intros H0. unfold New.tlv_step, TLV_HEADER_SIZE.
  destruct (New.offset s + 8 >? len data) eqn:E.
  { eexists. split; [reflexivity|]. split; reflexivity. }
  assert (E' : New.offset s + 8 <= len data) by lia.
  destruct (unpack_u32_some data (New.offset s)) as [ty Hty]; [lia|lia|].
  destruct (unpack_u32_some data (New.offset s + 4)) as [tl Htl]; [lia|lia|].
  rewrite Hty, Htl. cbn [bind].
  destruct (unpack_u32_bound _ _ _ Htl) as [_ [_ Htl0]].
  destruct (New.offset s + 8 + tl >? len data) eqn:E2.
  { eexists. split; [reflexivity|]. split; reflexivity. }
  assert (E2' : New.offset s + 8 + tl <= len data) by lia.
  destruct (ty =? 1).
  { destruct (New_read_points_total (Z.to_nat ndet)
                (take tl (drop (New.offset s + 8) data)) (New.points s))
      as [pts ->].
    cbn [bind]. eexists. split; [reflexivity|]. simpl. lia. }
  destruct (ty =? 7).
  { destruct (New_read_side_info_total (Z.to_nat ndet)
                (take tl (drop (New.offset s + 8) data)) (New.side_info s))
      as [si ->].
    cbn [bind]. eexists. split; [reflexivity|]. simpl. lia. }
  eexists. split; [reflexivity|]. simpl. lia.
Qed.

Lemma New_tlv_loop_total (data : bytes) (ndet : Z) (n : nat) :
  forall s : New.tlv_state,
    0 <= New.offset s -> exists s', New.tlv_loop n data ndet s = Some s'.
Proof.
  induction n as [|n IH]; intros s H0; cbn [New.tlv_loop].
  - eexists. reflexivity.
  - destruct (New_tlv_step_total data ndet s H0) as [[s'|s'] [-> Hr]];
      cbn [bind].
    + eexists. reflexivity.
    + apply IH. lia.
Qed.

(** [_parse_packet] raises only when the frame is too short to hold the two
    counts of its header. *)
Lemma New_parse_packet_total (data : bytes) (header_len : Z) :
  0 <= header_len -> 36 <= len data ->
  exists objs, New._parse_packet data header_len = Some objs.
Proof.
  intros H0 Hlen. unfold New._parse_packet.
  destruct (unpack_u32_some data 28) as [ndet ->]; [lia|lia|].
  destruct (unpack_u32_some data 32) as [ntlv ->]; [lia|lia|].
  cbn [bind].
  destruct (New_tlv_loop_total data ndet (Z.to_nat ntlv)
              (New.mkTlv header_len [] [])) as [s ->]; [exact H0|].
  cbn [bind]. eexists. reflexivity.
Qed.

Lemma New_parse_packet_some_len (data : bytes) (header_len : Z)
      (objs : list New.MovingObject) :
  New._parse_packet data header_len = Some objs -> 36 <= len data.
Proof.
  unfold New._parse_packet.
  destruct (unpack_u32 data 28) as [ndet|]; [|discriminate].
  destruct (unpack_u32 data 32) as [ntlv|] eqn:E; [|discriminate].
  intros _. apply unpack_u32_bound in E. lia.
Qed.





(** The old decoder. A turn of its [while] loop moves the offset forward by
    at least the eight bytes of a TLV header. *)
Lemma Old_tlv_step_progress (round4 : float -> float) (data : bytes)
      (off : Z) (moving : list Old.MovingObject) :
  0 <= off ->
  match Old.tlv_step round4 data (off, moving) with
  | inl _ => True
  | inr (off', _) => off + 8 <= off' <= len data
  end.
Proof.
  intros H0. unfold Old.tlv_step.
  destruct (off + 8 <=? len data) eqn:E; [|exact I].
  apply Z.leb_le in E.
  destruct (unpack_u32 data off) as [ty|]; [|exact I].
  destruct (unpack_u32 data (off + 4)) as [tl|] eqn:Etl; [|exact I].
  destruct (unpack_u32_bound _ _ _ Etl) as [_ [_ Htl]].
  destruct (tl =? 0); [lia|].
  destruct (off + 8 + tl >? len data) eqn:E2; [exact I|]. lia.
Qed.

(** The fuel of the old [while] loop is enough whenever it outnumbers the
    headers that fit behind the offset. *)
Lemma Old_tlv_while_total (round4 : float -> float) (data : bytes)
      (fuel : nat) :
  forall (off : Z) (moving : list Old.MovingObject),
    0 <= off -> len data - off < 8 * Z.of_nat fuel + 8 ->
    exists res, Old.tlv_while round4 (S fuel) data (off, moving) = Some res.
Proof.
  induction fuel as [|fuel IH]; intros off moving H0 Hlen.
  - cbn [Old.tlv_while].
    pose proof (Old_tlv_step_progress round4 data off moving H0) as Hp.
    destruct (Old.tlv_step round4 data (off, moving)) as [m|[off' m]].
    + eexists. reflexivity.
    + lia.
  - change (Old.tlv_while round4 (S (S fuel)) data (off, moving))
      with (match Old.tlv_step round4 data (off, moving) with
            | inl m => Some m
            | inr s' => Old.tlv_while round4 (S fuel) data s'
            end).
    pose proof (Old_tlv_step_progress round4 data off moving H0) as Hp.
    destruct (Old.tlv_step round4 data (off, moving)) as [m|[off' m]].
    + eexists. reflexivity.
    + apply IH; lia.
Qed.

(** [_parse_packet] of the old collector always returns. *)
Lemma Old_parse_packet_total (round4 : float -> float) (data : bytes) :
  exists objs, Old._parse_packet round4 data = Some objs.
Proof.
  unfold Old._parse_packet.
  destruct (len data <? 40) eqn:E; [eexists; reflexivity|].
  apply Z.ltb_ge in E. apply Old_tlv_while_total; unfold len in *; lia.
Qed.







(** ** Passes over the buffer: the fuel is enough *)

(** A turn of the new loop that goes on has cut a packet out of the buffer,
    which is shorter for it. *)
Lemma New_process_step_shrinks (c : New.SerialCollector) (out : list bytes) :
  match New.process_step c out with
  | inl r => New.ended r <> New.OutOfFuel
  | inr (c', _) => (length (New._buffer c') < length (New._buffer c))%nat
  end.
Proof.
  unfold New.process_step.
  destruct (find MAGIC_WORD (New._buffer c)) as [idx|]; [|discriminate].
  cbn [New._buffer New.set_buffer].
  destruct (unpack_u32 _ 8) as [hl|]; [|discriminate].
  destruct (unpack_u32 _ 12) as [total|] eqn:Et; [|discriminate].
  destruct (_ <? total) eqn:E; [discriminate|].
  destruct (New._parse_packet _ hl) as [objs|] eqn:Ep; [|discriminate].
  cbn [New._buffer New.set_buffer New.set_queue].
  apply Z.ltb_ge in E. apply unpack_u32_bound in Et.
  apply New_parse_packet_some_len in Ep.
  rewrite len_take in Ep by lia.
  pose proof (len_drop total (skipn idx (New._buffer c)) ltac:(lia)) as Hd.
  unfold len in *. rewrite length_skipn in *. lia.
Qed.

Lemma New_process_loop_fuel (f1 : nat) :
  forall (f2 : nat) (c : New.SerialCollector) (out : list bytes),
    (length (New._buffer c) < f1)%nat ->
    (length (New._buffer c) < f2)%nat ->
    New.process_loop f1 c out = New.process_loop f2 c out.
Proof.
  induction f1 as [|f1 IH]; intros f2 c out H1 H2; [lia|].
  destruct f2 as [|f2]; [lia|]. cbn [New.process_loop].
  pose proof (New_process_step_shrinks c out) as Hs.
  destruct (New.process_step c out) as [r|[c' out']]; [reflexivity|].
  apply IH; lia.
Qed.

(** The pass of the new collector never runs out of fuel. *)
Lemma New_process_loop_ends (fuel : nat) :
  forall (c : New.SerialCollector) (out : list bytes),
    (length (New._buffer c) < fuel)%nat ->
    New.ended (New.process_loop fuel c out) <> New.OutOfFuel.
Proof.
  induction fuel as [|fuel IH]; intros c out Hf; [lia|].
  cbn [New.process_loop].
  pose proof (New_process_step_shrinks c out) as Hs.
  destruct (New.process_step c out) as [r|[c' out']]; [exact Hs|].
  apply IH. lia.
Qed.

(** A pass is its first turn followed by a pass. *)
Lemma New_process_loop_unfold (fuel : nat) (c : New.SerialCollector)
      (out : list bytes) :
  (length (New._buffer c) < fuel)%nat ->
  New.process_loop fuel c out =
  match New.process_step c out with
  | inl r => r
  | inr (c', out') => New.process_loop (S (length (New._buffer c'))) c' out'
  end.
Proof.
  intros Hf. destruct fuel as [|fuel]; [lia|].
  transitivity (match New.process_step c out with
                | inl r => r
                | inr (c', out') => New.process_loop fuel c' out'
                end); [reflexivity|].
  pose proof (New_process_step_shrinks c out) as Hs.
  destruct (New.process_step c out) as [r|[c' out']]; [reflexivity|].
  apply New_process_loop_fuel; lia.
Qed.

(** A turn of the old loop that goes on has dropped a marker or cut out a
    packet. *)
Lemma Old_process_step_shrinks (round4 : float -> float)
      (c : Old.SerialCollector) (out : list bytes) :
  match Old.process_step round4 c out with
  | inl r => Old.ended r = Old.OutOfFuel -> False
  | inr (c', _) => (length (Old._buffer c') < length (Old._buffer c))%nat
  end.
Proof.
  unfold Old.process_step.
  destruct (find MAGIC_WORD (Old._buffer c)) as [idx|].
  2:{ destruct (_ >? _); discriminate. }
  cbn [Old._buffer Old.set_buffer].
  destruct (_ <? 40) eqn:E40; [discriminate|]. apply Z.ltb_ge in E40.
  assert (Hdrop8 : (length (drop 8 (skipn idx (Old._buffer c)))
                    < length (Old._buffer c))%nat).
  { pose proof (len_drop 8 (skipn idx (Old._buffer c)) ltac:(lia)) as Hd.
    unfold len in *. rewrite length_skipn in *. lia. }
  destruct (unpack_u32 _ 12) as [total|] eqn:Et; [|exact Hdrop8].
  destruct (_ || _) eqn:Eor; [exact Hdrop8|].
  apply orb_false_iff in Eor. destruct Eor as [E0 E64].
  apply Z.leb_gt in E0.
  destruct (_ <? total) eqn:E; [discriminate|]. apply Z.ltb_ge in E.
  destruct (Old_parse_packet_total round4
              (take total (skipn idx (Old._buffer c)))) as [objs ->].
  cbn [Old._buffer Old.set_buffer Old._data_q Old.queue_max].
  assert (Hdrop : (length (drop total (skipn idx (Old._buffer c)))
                   < length (Old._buffer c))%nat).
  { pose proof (len_drop total (skipn idx (Old._buffer c)) ltac:(lia)) as Hd.
    unfold len in *. rewrite length_skipn in *. lia. }
  destruct (Old.put_all _ _ objs) as [q [|]]; [exact Hdrop|discriminate].
Qed.

Lemma Old_process_loop_fuel (round4 : float -> float) (f1 : nat) :
  forall (f2 : nat) (c : Old.SerialCollector) (out : list bytes),
    (length (Old._buffer c) < f1)%nat ->
    (length (Old._buffer c) < f2)%nat ->
    Old.process_loop round4 f1 c out = Old.process_loop round4 f2 c out.
Proof.
  induction f1 as [|f1 IH]; intros f2 c out H1 H2; [lia|].
  destruct f2 as [|f2]; [lia|]. cbn [Old.process_loop].
  pose proof (Old_process_step_shrinks round4 c out) as Hs.
  destruct (Old.process_step round4 c out) as [r|[c' out']]; [reflexivity|].
  apply IH; lia.
Qed.

(** The pass of the old collector never runs out of fuel. *)
Lemma Old_process_loop_ends (round4 : float -> float) (fuel : nat) :
  forall (c : Old.SerialCollector) (out : list bytes),
    (length (Old._buffer c) < fuel)%nat ->
    Old.ended (Old.process_loop round4 fuel c out) <> Old.OutOfFuel.
Proof.
  induction fuel as [|fuel IH]; intros c out Hf; [lia|].
  cbn [Old.process_loop].
  pose proof (Old_process_step_shrinks round4 c out) as Hs.
  destruct (Old.process_step round4 c out) as [r|[c' out']]; [exact Hs|].
  apply IH. lia.
Qed.

Lemma Old_process_loop_unfold (round4 : float -> float) (fuel : nat)
      (c : Old.SerialCollector) (out : list bytes) :
  (length (Old._buffer c) < fuel)%nat ->
  Old.process_loop round4 fuel c out =
  match Old.process_step round4 c out with
  | inl r => r
  | inr (c', out') =>
    Old.process_loop round4 (S (length (Old._buffer c'))) c' out'
  end.
Proof.
  intros Hf. destruct fuel as [|fuel]; [lia|].
  transitivity (match Old.process_step round4 c out with
                | inl r => r
                | inr (c', out') => Old.process_loop round4 fuel c' out'
                end); [reflexivity|].
  pose proof (Old_process_step_shrinks round4 c out) as Hs.
  destruct (Old.process_step round4 c out) as [r|[c' out']]; [reflexivity|].
  apply Old_process_loop_fuel; lia.
Qed.

(** ** Implausible length fields *)

(** C1 does not hold as it stands. On a marker followed by the total length
    20, at most the header length, the old collector cuts out
    a packet of 20 bytes instead of dropping the 8 bytes of the marker; on a
    marker followed by the total length 131072, the new collector leaves
    the loop with the marker still at the head of its buffer and waits. *)
Lemma C1_implausible_length_not_rejected :
  let c := Old.set_buffer (Old.init 20000) short_length_buffer in
  let c' := New.set_buffer (New.init 20000) long_length_buffer in
  (find MAGIC_WORD short_length_buffer = Some 0%nat /\
   unpack_u32 short_length_buffer 8 = Some 40 /\
   unpack_u32 short_length_buffer 12 = Some 20 /\
   Old.process_step (fun v => v) c [] =
   inr (Old.set_buffer c (drop 20 short_length_buffer),
        [take 20 short_length_buffer]) /\
   Old.process_step (fun v => v) c [] <>
   inr (Old.set_buffer c (drop 8 short_length_buffer), [])) /\
  (find MAGIC_WORD long_length_buffer = Some 0%nat /\
   unpack_u32 long_length_buffer 8 = Some 40 /\
   unpack_u32 long_length_buffer 12 = Some 131072 /\
   New._process_buffer c' = New.mkProcessed New.Break c' []).
Proof.
  cbv zeta. split.
  - split; [vm_compute; reflexivity|].
    split; [vm_compute; reflexivity|].
    split; [vm_compute; reflexivity|].
    split; [vm_compute; reflexivity|].
    vm_compute. discriminate.
  - split; [vm_compute; reflexivity|].
    split; [vm_compute; reflexivity|].
    split; vm_compute; reflexivity.
Qed.

(** C1, amended. In the old collector, when a marker is found and 40 bytes
    or more are buffered from it on: if the total length they declare is 0
    or exceeds 65536, the turn of the loop drops the bytes before the
    marker and the 8 bytes of the marker, nothing else, and goes on
    scanning: the pass is the pass over what is left. If the total length
    is between 1 and the header length 40, the marker is not rejected: that
    many bytes are cut out as a packet, which decodes to no detection, and
    the queue is as it was. *)
Theorem C1_old_drops_marker_on_implausible_length
        (round4 : float -> float) (c : Old.SerialCollector)
        (idx : nat) (total : Z) :
  find MAGIC_WORD (Old._buffer c) = Some idx ->
  40 <= len (skipn idx (Old._buffer c)) ->
  unpack_u32 (skipn idx (Old._buffer c)) 12 = Some total ->
  (total = 0 \/ 65536 < total ->
   (forall out : list bytes,
       Old.process_step round4 c out =
       inr (Old.set_buffer c (drop 8 (skipn idx (Old._buffer c))), out)) /\
   Old._process_buffer round4 c =
   Old._process_buffer round4
     (Old.set_buffer c (drop 8 (skipn idx (Old._buffer c))))) /\
  (1 <= total <= 40 ->
   len (take total (skipn idx (Old._buffer c))) = total /\
   Old._parse_packet round4 (take total (skipn idx (Old._buffer c)))
   = Some [] /\
   forall out : list bytes,
     Old.process_step round4 c out =
     inr (Old.set_buffer c (drop total (skipn idx (Old._buffer c))),
          out ++ [take total (skipn idx (Old._buffer c))])).
Proof.
  intros Hfind Hlen Htotal. split.
  - intros Hbad.
    assert (Hstep : forall out : list bytes,
               Old.process_step round4 c out =
               inr (Old.set_buffer c (drop 8 (skipn idx (Old._buffer c))),
                    out)).
    { intros out. unfold Old.process_step. rewrite Hfind.
      cbn [Old._buffer Old.set_buffer].
      replace (len (skipn idx (Old._buffer c)) <? 40) with false
        by (symmetry; apply Z.ltb_ge; lia).
      rewrite Htotal.
      replace ((total <=? 0) || (total >? 65536)) with true; [reflexivity|].
      symmetry. apply orb_true_iff. destruct Hbad as [-> | Hbig].
      - left. reflexivity.
      - right. lia. }
    split; [exact Hstep|].
    unfold Old._process_buffer at 1.
    rewrite Old_process_loop_unfold by lia. rewrite Hstep. reflexivity.
  - intros Hsmall.
    set (buf := skipn idx (Old._buffer c)) in *.
    assert (Hpl : len (take total buf) = total) by (apply len_take; lia).
    assert (Hparse : Old._parse_packet round4 (take total buf) = Some []).
    { unfold Old._parse_packet. rewrite Hpl.
      destruct (total <? 40) eqn:E; [reflexivity|].
      apply Z.ltb_ge in E. assert (total = 40) by lia. subst total.
      assert (Hl : length (take 40 buf) = 40%nat)
        by (unfold len in Hpl; lia).
      rewrite Hl.
      change (Old.tlv_while round4 41 (take 40 buf) (40, []))
        with (match Old.tlv_step round4 (take 40 buf) (40, []) with
              | inl moving => Some moving
              | inr s' => Old.tlv_while round4 40 (take 40 buf) s'
              end).
      unfold Old.tlv_step. rewrite Hpl. reflexivity. }
    split; [exact Hpl|]. split; [exact Hparse|].
    intros out. unfold Old.process_step. rewrite Hfind.
    cbn [Old._buffer Old.set_buffer]. fold buf.
    replace (len buf <? 40) with false by (symmetry; apply Z.ltb_ge; lia).
    rewrite Htotal.
    replace ((total <=? 0) || (total >? 65536)) with false
      by (symmetry; apply orb_false_iff; split; [apply Z.leb_gt|]; lia).
    replace (len buf <? total) with false by (symmetry; apply Z.ltb_ge; lia).
    rewrite Hparse. reflexivity.
Qed.

Lemma C1_old_drops_marker_on_implausible_length_witness :
  let c := Old.set_buffer (Old.init 20000) long_length_buffer in
  let c' := Old.set_buffer (Old.init 20000) short_length_buffer in
  Old._process_buffer (fun v => v) c =
  Old._process_buffer (fun v => v)
    (Old.set_buffer c (drop 8 long_length_buffer)) /\
  Old._parse_packet (fun v => v) (take 20 short_length_buffer) = Some [] /\
  Old.process_step (fun v => v) c' [] =
  inr (Old.set_buffer c' (drop 20 short_length_buffer),
       [take 20 short_length_buffer]).
Proof.
  cbv zeta. split.
  - apply (C1_old_drops_marker_on_implausible_length
             (fun v => v)
             (Old.set_buffer (Old.init 20000) long_length_buffer)
             0%nat 131072);
      [vm_compute; reflexivity | vm_compute; discriminate
       | vm_compute; reflexivity | right; reflexivity].
  - destruct (C1_old_drops_marker_on_implausible_length
                (fun v => v)
                (Old.set_buffer (Old.init 20000) short_length_buffer)
                0%nat 20) as [_ H];
      [vm_compute; reflexivity | vm_compute; discriminate
       | vm_compute; reflexivity |].
    destruct H as [_ [Hp Hs]]; [lia|].
    split; [exact Hp|]. apply (Hs []).
Defined.

(** The new collector has no such check. A marker followed by the total
    length 0 makes every pass end in a [struct.error], with the marker
    still at the head of the buffer, whatever arrives behind it. *)
Lemma New_zero_length_stalls (c : New.SerialCollector) (rest : bytes) :
  New._buffer c = zero_length_buffer ++ rest ->
  New._process_buffer c = New.mkProcessed New.StructError c [[]].
Proof.
  intros Hbuf. unfold New._process_buffer.
  rewrite New_process_loop_unfold by lia.
  unfold New.process_step. rewrite Hbuf.
  rewrite (find_app MAGIC_WORD zero_length_buffer rest 0)
    by (vm_compute; reflexivity).
  cbn [skipn New.set_buffer New._buffer].
  rewrite (unpack_u32_app zero_length_buffer rest 8 40)
    by (vm_compute; reflexivity).
  rewrite (unpack_u32_app zero_length_buffer rest 12 0)
    by (vm_compute; reflexivity).
  replace (len (zero_length_buffer ++ rest) <? 0) with false
    by (symmetry; apply Z.ltb_ge; apply len_nonneg).
  change (take 0 (zero_length_buffer ++ rest)) with (@nil byte).
  change (drop 0 (zero_length_buffer ++ rest))
    with (zero_length_buffer ++ rest).
  change (New._parse_packet [] 40) with (@None (list New.MovingObject)).
  cbv iota. rewrite <- Hbuf. destruct c; reflexivity.
Qed.

(** ** The buffer under noise *)

Section FindPositions.

Local Open Scope nat_scope.

Lemma find_none_nowhere (p l : bytes) :
  find p l = None -> forall i, starts_with p (skipn i l) = false.
Proof.
  induction l as [|b l IH]; simpl.
  - destruct (starts_with p []) eqn:E; [discriminate|].
    intros _ i. rewrite skipn_nil. exact E.
  - destruct (starts_with p (b :: l)) eqn:E; [discriminate|].
    destruct (find p l) as [j|]; [discriminate|].
    intros _ [|i]; [exact E|]. simpl. apply IH. reflexivity.
Qed.

Lemma find_some_first (p l : bytes) (i : nat) :
  find p l = Some i -> forall j, j < i -> starts_with p (skipn j l) = false.
Proof.
  revert i. induction l as [|b l IH]; intros i; simpl.
  - destruct (starts_with p []); [|discriminate]. intros [= <-] j Hj. lia.
  - destruct (starts_with p (b :: l)) eqn:E.
    + intros [= <-] j Hj. lia.
    + destruct (find p l) as [k|] eqn:F; [|discriminate].
      intros [= <-] [|j] Hj; [exact E|]. simpl. apply (IH k eq_refl). lia.
Qed.

Lemma find_first (p l : bytes) (i : nat) :
  starts_with p (skipn i l) = true ->
  (forall j, j < i -> starts_with p (skipn j l) = false) ->
  find p l = Some i.
Proof.
  revert l. induction i as [|i IH]; intros l Hi Hbefore.
  - apply find_at_start. exact Hi.
  - destruct l as [|b l].
    + simpl in Hi. specialize (Hbefore 0 ltac:(lia)). simpl in Hbefore.
      congruence.
    + simpl. pose proof (Hbefore 0 ltac:(lia)) as H0. simpl in H0.
      rewrite H0. rewrite (IH l); [reflexivity|exact Hi|].
      intros j Hj. apply (Hbefore (S j)). lia.
Qed.

(** Cutting [n] bytes off the front of a buffer whose first occurrence of
    [p] lies at [n] or later moves that occurrence [n] to the left. *)
Lemma find_skipn (p l : bytes) (i n : nat) :
  find p l = Some i -> n <= i -> find p (skipn n l) = Some (i - n).
Proof.
  intros Hfind Hn.
  destruct (find_bound p l i Hfind) as [Hi _].
  apply find_first.
  - rewrite skipn_skipn. replace (i - n + n) with i by lia. exact Hi.
  - intros j Hj. rewrite skipn_skipn.
    apply (find_some_first p l i Hfind). lia.
Qed.

(** An occurrence that shows only when a chunk is appended begins in the
    last [length p - 1] bytes of the buffer, or in the chunk. *)
Lemma find_straddles (p a b : bytes) (i : nat) :
  find p a = None -> find p (a ++ b) = Some i -> length a < i + length p.
Proof.
  intros Hnone Hsome.
  destruct (le_lt_dec (i + length p) (length a)) as [Hin|]; [|assumption].
  exfalso.
  destruct (find_bound p (a ++ b) i Hsome) as [Hi _].
  rewrite skipn_app in Hi.
  replace (i - length a) with 0 in Hi by lia. simpl in Hi.
  rewrite starts_with_long in Hi by (rewrite length_skipn; lia).
  rewrite (find_none_nowhere p a Hnone i) in Hi. discriminate.
Qed.

End FindPositions.

(** The new collector keeps every byte of a buffer without a marker. *)
Lemma New_noise_is_kept (c : New.SerialCollector) (chunk : bytes) :
  find MAGIC_WORD (New._buffer c ++ chunk) = None ->
  New.consume c chunk =
  New.mkProcessed New.Break (New.set_buffer c (New._buffer c ++ chunk)) [].
Proof.
  intros Hnone. unfold New.consume, New._process_buffer.
  cbn [New.process_loop]. unfold New.process_step.
  cbn [New._buffer New.set_buffer]. rewrite Hnone. reflexivity.
Qed.

(** The old collector cuts a buffer without a marker down to its last 16
    bytes once it holds more than 2048. *)
Lemma Old_noise_is_trimmed (round4 : float -> float)
      (c : Old.SerialCollector) (chunk : bytes) :
  find MAGIC_WORD (Old._buffer c ++ chunk) = None ->
  let buf := Old._buffer c ++ chunk in
  let r := Old.consume round4 c chunk in
  Old.ended r = Old.Break /\
  Old._buffer (Old.after r)
  = (if len buf >? 2048 then Old.last_bytes 16 buf else buf) /\
  len (Old._buffer (Old.after r)) <= 2048.
Proof.
  intros Hnone. cbv zeta. unfold Old.consume, Old._process_buffer.
  cbn [Old.process_loop]. unfold Old.process_step.
  cbn [Old._buffer Old.set_buffer]. rewrite Hnone.
  change (2 * 1024) with 2048.
  change (length MAGIC_WORD * 2)%nat with 16%nat.
  destruct (len (Old._buffer c ++ chunk) >? 2048) eqn:E;
    cbn [Old.ended Old.after Old._buffer Old.set_buffer].
  - split; [reflexivity|]. split; [reflexivity|].
    unfold Old.last_bytes, len in *. rewrite length_skipn. lia.
  - split; [reflexivity|]. split; [reflexivity|]. lia.
Qed.

(** The 16 bytes the old collector keeps are enough: a marker that the next
    chunk completes is found in the tail followed by that chunk. *)
Lemma Old_tail_catches_split_marker (buf chunk : bytes) (i : nat) :
  find MAGIC_WORD buf = None ->
  (16 <= length buf)%nat ->
  find MAGIC_WORD (buf ++ chunk) = Some i ->
  find MAGIC_WORD (Old.last_bytes 16 buf ++ chunk)
  = Some (i - (length buf - 16))%nat.
Proof.
  intros Hnone Hlen Hsome.
  pose proof (find_straddles MAGIC_WORD buf chunk i Hnone Hsome) as Hi.
  change (length MAGIC_WORD) with 8%nat in Hi.
  unfold Old.last_bytes.
  replace (skipn (length buf - 16) buf ++ chunk)
    with (skipn (length buf - 16) (buf ++ chunk)).
  - apply find_skipn; [exact Hsome|lia].
  - rewrite skipn_app.
    replace (length buf - 16 - length buf)%nat with 0%nat by lia.
    reflexivity.
Qed.

(** C2. On one chunk of 3000 bytes of noise the new collector keeps all
    3000 bytes in its buffer, beyond the cap of 2048 at which the old
    collector cuts the same buffer down to its last 16 bytes. *)
Theorem C2_new_buffer_is_not_trimmed :
  find MAGIC_WORD noise_3000 = None /\
  New._buffer (New.after (New.consume (New.init 20000) noise_3000))
  = noise_3000 /\
  len noise_3000 = 3000 /\
  Old._buffer
    (Old.after (Old.consume (fun v => v) (Old.init 20000) noise_3000))
  = zeros 16.
Proof.
  assert (Hnone : find MAGIC_WORD noise_3000 = None)
    by (vm_compute; reflexivity).
  split; [exact Hnone|].
  split; [rewrite New_noise_is_kept by exact Hnone; reflexivity|].
  split; vm_compute; reflexivity.
Qed.

(** ** Classification *)

(** Comparisons of binary64 values that are numbers. *)
Lemma Prim2SF_not_nan (f : float) :
  PrimFloat.is_nan f = false -> Prim2SF f <> S754_nan.
Proof.
  intros Hn. unfold Prim2SF. rewrite Hn.
  destruct (PrimFloat.is_zero f); [discriminate|].
  destruct (PrimFloat.is_infinity f); [discriminate|].
  destruct (Z.frexp f) as [r e].
  destruct (shr_fexp _ _ _ _ _) as [shr e'].
  destruct (shr_m shr); discriminate.
Qed.

Lemma SFcompare_antisym (a b : spec_float) :
  SFcompare b a = option_map CompOpp (SFcompare a b).
Proof.
  destruct a as [sa|sa| |sa ma ea], b as [sb|sb| |sb mb eb];
    cbn [SFcompare option_map];
    try reflexivity;
    try (destruct sa; reflexivity); try (destruct sb; reflexivity);
    try (destruct sa, sb; reflexivity).
  destruct sa, sb; cbn [CompOpp]; try reflexivity.
  - rewrite (Z.compare_antisym ea eb).
    destruct (ea ?= eb); cbn [CompOpp]; try reflexivity.
    f_equal. f_equal. symmetry. apply (Pos.compare_cont_antisym ma mb Eq).
  - rewrite (Z.compare_antisym ea eb).
    destruct (ea ?= eb); cbn [CompOpp]; try reflexivity.
    f_equal. symmetry. apply (Pos.compare_cont_antisym ma mb Eq).
Qed.

(** Between two numbers, "at most" is "not greater". *)
Lemma leb_not_gt (a b : float) :
  PrimFloat.is_nan a = false -> PrimFloat.is_nan b = false ->
  PrimFloat.leb a b = negb (PrimFloat.ltb b a).
Proof.
  intros Ha Hb. rewrite leb_spec, ltb_spec. unfold SFleb, SFltb.
  rewrite (SFcompare_antisym (Prim2SF a) (Prim2SF b)).
  apply Prim2SF_not_nan in Ha, Hb.
  destruct (SFcompare (Prim2SF a) (Prim2SF b)) as [[| |]|] eqn:E;
    try reflexivity.
  exfalso. destruct (Prim2SF a), (Prim2SF b); try discriminate E;
    congruence.
Qed.

(** [_is_human_cluster] returns [True] exactly when the three conditions
    hold together. *)
Lemma is_human_cluster_iff (d : Detection.HumanDetector)
      (cluster : list Detection.Row) :
  PrimFloat.is_nan (Detection.horizontal_spread cluster) = false ->
  PrimFloat.is_nan (Detection.max_human_width d) = false ->
  Detection._is_human_cluster d cluster = true <->
  Detection.human_conditions d cluster.
Proof.
  intros Hs Hw. unfold Detection._is_human_cluster, Detection.human_conditions.
  rewrite (leb_not_gt _ _ Hs Hw).
  destruct (Z.of_nat (length cluster) <? Detection.min_points_human d) eqn:En.
  { apply Z.ltb_lt in En. split; [discriminate|]. intros [H _]. lia. }
  apply Z.ltb_ge in En.
  destruct (PrimFloat.ltb (Detection.min_human_height d)
                          (Detection.height cluster));
    destruct (PrimFloat.ltb (Detection.height cluster)
                            (Detection.max_human_height d));
    destruct (PrimFloat.ltb (Detection.max_human_width d)
                            (Detection.horizontal_spread cluster));
    simpl; intuition (try discriminate; try lia).
Qed.

Section Labelling.

Variable mean : list float -> float.
Variable d : Detection.HumanDetector.
Variable rs : list Detection.Row.
Variable ids : list Z.

Lemma assign_length (cid : Z) (l : Detection.Label) :
  forall (ids0 : list Z) (labels : list Detection.Label),
    length (Detection.assign cid l ids0 labels) = length labels.
Proof.
  induction ids0 as [|i ids0 IH]; intros [|l0 labels]; simpl;
    try reflexivity.
  rewrite IH. reflexivity.
Qed.

Lemma assign_nth_error (cid : Z) (l : Detection.Label) :
  forall (ids0 : list Z) (labels : list Detection.Label) (i : nat) (c : Z),
    length ids0 = length labels ->
    nth_error ids0 i = Some c ->
    nth_error (Detection.assign cid l ids0 labels) i =
    if c =? cid then Some l else nth_error labels i.
Proof.
  induction ids0 as [|i0 ids0 IH]; intros [|l0 labels] i c Hlen Hi;
    simpl in *; try discriminate; try (destruct i; discriminate).
  destruct i as [|i]; simpl in *.
  - injection Hi as ->. destruct (c =? cid); reflexivity.
  - apply IH; [lia|exact Hi].
Qed.

(** A turn of the loop assigns the cluster its label, whatever the
    branch. *)
Lemma label_cluster_labels (cid : Z) (labels : list Detection.Label)
      (info : list Detection.HumanInfo) :
  fst (Detection.label_cluster mean d rs ids cid (labels, info)) =
  Detection.assign cid (Detection.label_of mean d rs ids cid) ids labels.
Proof.
  unfold Detection.label_cluster, Detection.label_of,
    Detection.cluster_label.
  destruct (Detection._is_human_cluster d _); [reflexivity|].
  destruct (PrimFloat.ltb _ _); reflexivity.
Qed.

(** After the loop over [cids], a row of a cluster in [cids] carries the
    label of its cluster, and every other row the label it had. *)
Lemma label_loop_labels (cids : list Z) :
  forall (labels : list Detection.Label) (info : list Detection.HumanInfo),
    length ids = length labels ->
    let labels' :=
        fst (fold_left
               (fun st cid => Detection.label_cluster mean d rs ids cid st)
               cids (labels, info)) in
    length labels' = length labels /\
    forall (i : nat) (c : Z),
      nth_error ids i = Some c ->
      nth_error labels' i =
      if existsb (Z.eqb c) cids then Some (Detection.label_of mean d rs ids c)
      else nth_error labels i.
Proof.
  induction cids as [|cid cids IH]; intros labels info Hlen; cbv zeta.
  - split; reflexivity.
  - cbn [fold_left].
    pose proof (label_cluster_labels cid labels info) as Hfst.
    destruct (Detection.label_cluster mean d rs ids cid (labels, info))
      as [labels1 info1].
    cbn [fst] in Hfst. subst labels1.
    destruct (IH (Detection.assign
                    cid (Detection.label_of mean d rs ids cid) ids labels)
                 info1) as [Hl Hn].
    { rewrite assign_length. exact Hlen. }
    split; [rewrite Hl; apply assign_length|].
    intros i c Hi. rewrite (Hn i c Hi). cbn [existsb].
    destruct (existsb (Z.eqb c) cids).
    + rewrite orb_true_r. reflexivity.
    + rewrite orb_false_r.
      rewrite (assign_nth_error
                 cid (Detection.label_of mean d rs ids cid) ids labels
                 i c Hlen Hi).
      destruct (c =? cid) eqn:E; [|reflexivity].
      apply Z.eqb_eq in E. subst c. reflexivity.
Qed.

Lemma label_loop_length (cids : list Z) :
  forall (labels : list Detection.Label) (info : list Detection.HumanInfo),
    length (fst (fold_left
                   (fun st cid =>
                      Detection.label_cluster mean d rs ids cid st)
                   cids (labels, info)))
    = length labels.
Proof.
  induction cids as [|cid cids IH]; intros labels info; [reflexivity|].
  cbn [fold_left].
  pose proof (label_cluster_labels cid labels info) as Hfst.
  destruct (Detection.label_cluster mean d rs ids cid (labels, info))
    as [labels1 info1].
  cbn [fst] in Hfst. subst labels1. rewrite IH. apply assign_length.
Qed.

Lemma unique_existsb (c : Z) :
  forall (l seen : list Z),
    existsb (Z.eqb c) (Detection.unique seen l) =
    existsb (Z.eqb c) l && negb (existsb (Z.eqb c) seen).
Proof.
  induction l as [|v l IH]; intros seen; cbn [Detection.unique existsb].
  - reflexivity.
  - destruct (existsb (Z.eqb v) seen) eqn:Ev.
    + rewrite IH. destruct (c =? v) eqn:E; [|reflexivity].
      apply Z.eqb_eq in E. subst v. rewrite Ev. simpl.
      apply andb_false_r.
    + cbn [existsb]. rewrite IH. cbn [existsb].
      destruct (c =? v) eqn:E.
      * apply Z.eqb_eq in E. subst v. rewrite Ev. reflexivity.
      * simpl. reflexivity.
Qed.

(** The loop visits every cluster number of the batch but [-1]. *)
Lemma unique_clusters_existsb (i : nat) (c : Z) :
  nth_error ids i = Some c ->
  existsb (Z.eqb c) (Detection.unique_clusters ids) = negb (c =? -1).
Proof.
  intros Hi. unfold Detection.unique_clusters.
  rewrite unique_existsb. cbn [existsb negb]. rewrite andb_true_r.
  apply nth_error_In in Hi.
  destruct (c =? -1) eqn:E; cbn [negb].
  - apply Z.eqb_eq in E. subst c.
    destruct (existsb _ _) eqn:Ex; [|reflexivity].
    apply existsb_exists in Ex. destruct Ex as [v [Hv Hvc]].
    apply filter_In in Hv. destruct Hv as [_ Hv].
    apply Z.eqb_eq in Hvc. subst v. discriminate Hv.
  - apply existsb_exists. exists c. split; [|apply Z.eqb_refl].
    apply filter_In. split; [exact Hi|]. rewrite E. reflexivity.
Qed.

End Labelling.

(** *** The order of binary64 *)

Ltac cmp_cases :=
  repeat match goal with
         | H : context [(?a ?= ?b)%Z] |- _ =>
           destruct (Z.compare_spec a b); try discriminate H
         | |- context [(?a ?= ?b)%Z] =>
           destruct (Z.compare_spec a b)
         end.

Ltac pos_cases :=
  repeat match goal with
         | H : context [PosDef.Pos.compare_cont Eq ?a ?b] |- _ =>
           change (PosDef.Pos.compare_cont Eq a b) with (Pos.compare a b) in H;
           destruct (Pos.compare_spec a b); try discriminate H
         | |- context [PosDef.Pos.compare_cont Eq ?a ?b] =>
           change (PosDef.Pos.compare_cont Eq a b) with (Pos.compare a b);
           destruct (Pos.compare_spec a b)
         end.

Lemma SFcompare_lt_trans (a b c : spec_float) :
  SFcompare a b = Some Lt -> SFcompare b c = Some Lt ->
  SFcompare a c = Some Lt.
Proof.
  destruct a as [sa|sa| |sa ma ea], b as [sb|sb| |sb mb eb],
           c as [sc|sc| |sc mc ec];
    cbn [SFcompare]; try discriminate;
      try destruct sa; try destruct sb; try destruct sc;
      try discriminate; try reflexivity;
      intros H1 H2; injection H1 as H1; injection H2 as H2; f_equal;
      cmp_cases; cbn [CompOpp] in *; pos_cases;
      try reflexivity; try discriminate; try lia.
Qed.

Lemma SFcompare_lt_cotrans (a b c : spec_float) :
  b <> S754_nan ->
  SFcompare a c = Some Lt ->
  SFcompare a b = Some Lt \/ SFcompare b c = Some Lt.
Proof.
  destruct a as [sa|sa| |sa ma ea], b as [sb|sb| |sb mb eb],
           c as [sc|sc| |sc mc ec];
    cbn [SFcompare]; try discriminate; try congruence;
      try destruct sa; try destruct sb; try destruct sc;
      try discriminate; intros _ H; try injection H as H;
      try (left; reflexivity); try (right; reflexivity);
      cmp_cases; cbn [CompOpp] in *; pos_cases;
      try (left; reflexivity); try (right; reflexivity);
      try discriminate; try lia.
Qed.

Lemma ltb_Lt (a b : float) :
  PrimFloat.ltb a b = true <-> SFcompare (Prim2SF a) (Prim2SF b) = Some Lt.
Proof.
  rewrite ltb_spec. unfold SFltb.
  destruct (SFcompare _ _) as [[| |]|]; split; congruence.
Qed.

(** "Less than" is transitive, and a number is above the lesser or below
    the greater of two values the first of which is less. *)
Lemma ltb_trans (a b c : float) :
  PrimFloat.ltb a b = true -> PrimFloat.ltb b c = true ->
  PrimFloat.ltb a c = true.
Proof.
  rewrite !ltb_Lt. apply SFcompare_lt_trans.
Qed.

Lemma ltb_cotrans (a b c : float) :
  PrimFloat.is_nan b = false ->
  PrimFloat.ltb a c = true ->
  PrimFloat.ltb a b = true \/ PrimFloat.ltb b c = true.
Proof.
  rewrite !ltb_Lt. intros Hb. apply SFcompare_lt_cotrans.
  apply Prim2SF_not_nan. exact Hb.
Qed.

Lemma is_finite_not_nan (v : float) :
  PrimFloat.is_finite v = true -> PrimFloat.is_nan v = false.
Proof.
  unfold PrimFloat.is_finite. destruct (PrimFloat.is_nan v);
    [discriminate|reflexivity].
Qed.

(** *** The code's helpers against the notions of the specification *)

Lemma maximum_cons (v w : float) (rest : list float) :
  Spec.maximum (v :: w :: rest) =
  if PrimFloat.ltb v (Spec.maximum (w :: rest))
  then Spec.maximum (w :: rest) else v.
Proof. reflexivity. Qed.

Lemma minimum_cons (v w : float) (rest : list float) :
  Spec.minimum (v :: w :: rest) =
  if PrimFloat.ltb (Spec.minimum (w :: rest)) v
  then Spec.minimum (w :: rest) else v.
Proof. reflexivity. Qed.

(** The running maximum of [Series.max()] ends on the greatest value. *)
Lemma fold_fmax_maximum :
  forall (t : list float) (h : float),
    Forall (fun v => PrimFloat.is_nan v = false) t ->
    fold_left Detection.fmax t h = Spec.maximum (h :: t).
Proof.
  induction t as [|b t IH]; intros h Hn; [reflexivity|].
  inversion Hn as [|b' t' Hb Ht]; subst.
  cbn [fold_left]. rewrite (IH _ Ht).
  destruct t as [|c t]; [reflexivity|].
  rewrite (maximum_cons h b), (maximum_cons b c), (maximum_cons _ c).
  set (m := Spec.maximum (c :: t)). unfold Detection.fmax.
  destruct (PrimFloat.ltb h b) eqn:Ehb, (PrimFloat.ltb b m) eqn:Ebm;
    try rewrite Ehb; try reflexivity.
  - rewrite (ltb_trans h b m Ehb Ebm). reflexivity.
  - destruct (PrimFloat.ltb h m) eqn:Ehm; [|reflexivity].
    destruct (ltb_cotrans h b m Hb Ehm); congruence.
Qed.

Lemma fold_fmin_minimum :
  forall (t : list float) (h : float),
    Forall (fun v => PrimFloat.is_nan v = false) t ->
    fold_left Detection.fmin t h = Spec.minimum (h :: t).
Proof.
  induction t as [|b t IH]; intros h Hn; [reflexivity|].
  inversion Hn as [|b' t' Hb Ht]; subst.
  cbn [fold_left]. rewrite (IH _ Ht).
  destruct t as [|c t]; [reflexivity|].
  rewrite (minimum_cons h b), (minimum_cons b c), (minimum_cons _ c).
  set (m := Spec.minimum (c :: t)). unfold Detection.fmin.
  destruct (PrimFloat.ltb b h) eqn:Ebh, (PrimFloat.ltb m b) eqn:Emb;
    try rewrite Ebh; try reflexivity.
  - rewrite (ltb_trans m b h Emb Ebh). reflexivity.
  - destruct (PrimFloat.ltb m h) eqn:Emh; [|reflexivity].
    destruct (ltb_cotrans m b h Hb Emh); congruence.
Qed.

Lemma extent_spec (l : list float) :
  Forall (fun v => PrimFloat.is_nan v = false) l ->
  Detection.extent l = (Spec.maximum l - Spec.minimum l)%float.
Proof.
  intros Hn. unfold Detection.extent.
  destruct l as [|h t]; [reflexivity|].
  inversion Hn as [|h' t' _ Ht]; subst.
  unfold Detection.col_max, Detection.col_min.
  rewrite (fold_fmax_maximum t h Ht), (fold_fmin_minimum t h Ht).
  reflexivity.
Qed.

(** The rows that [df[df['cluster_id'] == cid]] selects are the members of
    the cluster. *)
Lemma select_members (cid : Z) :
  forall (ids : list Z) (rs : list Detection.Row),
    Detection.select cid ids rs = Spec.members cid ids rs.
Proof.
  induction ids as [|i ids IH]; intros [|r rs]; try reflexivity.
  unfold Spec.members. cbn [Detection.select combine filter fst].
  destruct (i =? cid); cbn [map snd]; rewrite IH; reflexivity.
Qed.

Lemma members_In (cid : Z) (ids : list Z) (rs : list Detection.Row)
      (r : Detection.Row) :
  In r (Spec.members cid ids rs) -> In r rs.
Proof.
  unfold Spec.members. intros Hin. apply in_map_iff in Hin.
  destruct Hin as [[i r'] [Hr Hin]]. cbn [snd] in Hr. subst r'.
  apply filter_In in Hin. destruct Hin as [Hin _].
  apply in_combine_r in Hin. exact Hin.
Qed.

Lemma finite_column (f : Detection.Row -> float)
      (cluster : list Detection.Row) :
  (forall r, Spec.finite_row r = true -> PrimFloat.is_finite (f r) = true) ->
  forallb Spec.finite_row cluster = true ->
  Forall (fun v => PrimFloat.is_nan v = false) (map f cluster).
Proof.
  intros Hf Hc. apply Forall_forall. intros v Hv.
  apply in_map_iff in Hv. destruct Hv as [r [<- Hr]].
  apply is_finite_not_nan, Hf.
  rewrite forallb_forall in Hc. apply Hc. exact Hr.
Qed.

Lemma finite_row_x (r : Detection.Row) :
  Spec.finite_row r = true -> PrimFloat.is_finite (Detection.x r) = true.
Proof.
  unfold Spec.finite_row. intros H.
  apply andb_true_iff in H. destruct H as [H _].
  apply andb_true_iff in H. destruct H as [H _]. exact H.
Qed.

Lemma finite_row_y (r : Detection.Row) :
  Spec.finite_row r = true -> PrimFloat.is_finite (Detection.y r) = true.
Proof.
  unfold Spec.finite_row. intros H.
  apply andb_true_iff in H. destruct H as [H _].
  apply andb_true_iff in H. destruct H as [_ H]. exact H.
Qed.

Lemma finite_row_z (r : Detection.Row) :
  Spec.finite_row r = true -> PrimFloat.is_finite (Detection.z r) = true.
Proof.
  unfold Spec.finite_row. intros H.
  apply andb_true_iff in H. destruct H as [_ H]. exact H.
Qed.

(** On rows of finite coordinates, what [_is_human_cluster] measures is
    the height and the horizontal spread of the members. *)
Lemma height_spec (cluster : list Detection.Row) :
  forallb Spec.finite_row cluster = true ->
  Detection.height cluster = Spec.z_extent cluster.
Proof.
  intros Hc. unfold Detection.height, Spec.z_extent.
  apply extent_spec, (finite_column _ _ finite_row_z Hc).
Qed.

Lemma horizontal_spread_spec (cluster : list Detection.Row) :
  forallb Spec.finite_row cluster = true ->
  Detection.horizontal_spread cluster = Spec.horizontal_spread cluster.
Proof.
  intros Hc.
  unfold Detection.horizontal_spread, Spec.horizontal_spread,
    Detection.width_x, Detection.width_y, Spec.x_extent, Spec.y_extent.
  rewrite (extent_spec _ (finite_column _ _ finite_row_x Hc)).
  rewrite (extent_spec _ (finite_column _ _ finite_row_y Hc)).
  reflexivity.
Qed.

Lemma human_conditions_spec (d : Detection.HumanDetector)
      (cluster : list Detection.Row) :
  forallb Spec.finite_row cluster = true ->
  Detection.human_conditions d cluster <-> Spec.human d cluster.
Proof.
  intros Hc. unfold Detection.human_conditions, Spec.human.
  rewrite (height_spec _ Hc), (horizontal_spread_spec _ Hc). tauto.
Qed.

Lemma members_finite (cid : Z) (ids : list Z) (rs : list Detection.Row) :
  forallb Spec.finite_row rs = true ->
  forallb Spec.finite_row (Spec.members cid ids rs) = true.
Proof.
  intros Hrs. apply forallb_forall. intros r Hr.
  rewrite forallb_forall in Hrs. apply Hrs.
  apply (members_In cid ids rs r Hr).
Qed.

(** *** Results that are numbers *)

Section Rounded.

Variables prec emax : Z.

Lemma shr_1_nonneg (mrs : shr_record) :
  0 <= shr_m mrs -> 0 <= shr_m (shr_1 mrs).
Proof.
  destruct mrs as [m r s]. cbn [shr_m]. intros Hm.
  destruct m as [|[p|p|]|p]; cbn; lia.
Qed.

Lemma iter_shr_1_nonneg (p : positive) :
  forall mrs : shr_record,
    0 <= shr_m mrs -> 0 <= shr_m (iter_pos shr_1 p mrs).
Proof.
  induction p as [p IH|p IH|]; intros mrs Hm; cbn [iter_pos].
  - apply IH, IH, shr_1_nonneg, Hm.
  - apply IH, IH, Hm.
  - apply shr_1_nonneg, Hm.
Qed.

Lemma shr_fexp_nonneg (m e : Z) (l : location) :
  0 <= m -> 0 <= shr_m (fst (shr_fexp prec emax m e l)).
Proof.
  intros Hm. unfold shr_fexp, shr.
  assert (H0 : 0 <= shr_m (shr_record_of_loc m l))
    by (destruct l as [|[| |]]; exact Hm).
  destruct (fexp prec emax (Zdigits2 m + e) - e) as [|p|p]; cbn [fst];
    try exact H0.
  apply iter_shr_1_nonneg, H0.
Qed.

Lemma round_nearest_even_nonneg (m : Z) (l : location) :
  0 <= m -> 0 <= round_nearest_even m l.
Proof.
  intros Hm. unfold round_nearest_even.
  destruct l as [|[| |]]; try destruct (Z.even m); lia.
Qed.

(** What rounding yields for a mantissa that is not negative: a zero, a
    finite number or an infinity, of the sign handed to it. *)
Lemma binary_round_aux_sign (sx : bool) (mx ex : Z) (lx : location) :
  0 <= mx ->
  match binary_round_aux prec emax sx mx ex lx with
  | S754_nan => False
  | S754_zero s | S754_infinity s | S754_finite s _ _ => s = sx
  end.
Proof.
  intros Hm. unfold binary_round_aux.
  pose proof (shr_fexp_nonneg mx ex lx Hm) as H1.
  destruct (shr_fexp prec emax mx ex lx) as [mrs' e']. cbn [fst] in H1.
  pose proof (shr_fexp_nonneg
                (round_nearest_even (shr_m mrs') (loc_of_shr_record mrs'))
                e' loc_Exact
                (round_nearest_even_nonneg _ _ H1)) as H2.
  destruct (shr_fexp prec emax _ e' loc_Exact) as [mrs'' e''].
  cbn [fst] in H2.
  destruct (shr_m mrs'') as [|m|m]; [reflexivity| |lia].
  destruct (e'' <=? emax - prec); reflexivity.
Qed.

Lemma binary_normalize_number (m e : Z) (szero : bool) :
  binary_normalize prec emax m e szero <> S754_nan.
Proof.
  unfold binary_normalize, binary_round.
  destruct m as [|m|m]; [discriminate| |];
    destruct (shl_align m e _) as [mz ez];
    match goal with
    | |- binary_round_aux _ _ ?s ?mz ?ez ?l <> _ =>
      pose proof (binary_round_aux_sign s mz ez l ltac:(lia)) as H;
        destruct (binary_round_aux prec emax s mz ez l);
        [discriminate|discriminate|contradiction|discriminate]
    end.
Qed.

Lemma SFsub_number (a b : spec_float) :
  bounded_number a -> bounded_number b -> SFsub prec emax a b <> S754_nan.
Proof.
  destruct a as [sa|sa| |sa ma ea], b as [sb|sb| |sb mb eb];
    cbn [bounded_number SFsub]; try contradiction; intros _ _;
      try discriminate.
  - destruct sa, sb; discriminate.
  - apply binary_normalize_number.
Qed.

Lemma SFmul_square (a : spec_float) :
  a <> S754_nan -> not_negative (SFmul prec emax a a).
Proof.
  destruct a as [sa|sa| |sa ma ea]; cbn [SFmul not_negative];
    try congruence; intros _.
  - exact I.
  - destruct sa; exact I.
  - pose proof (binary_round_aux_sign
                  (xorb sa sa) (Zpos (ma * ma)) (ea + ea) loc_Exact
                  ltac:(lia)) as H.
    destruct (binary_round_aux _ _ _ _ _ _) as [s|s| |s m e];
      try contradiction; try exact I;
        subst s; destruct sa; exact I.
Qed.

Lemma SFadd_not_negative (a b : spec_float) :
  not_negative a -> not_negative b -> not_negative (SFadd prec emax a b).
Proof.
  destruct a as [sa|[|]| |[|] ma ea], b as [sb|[|]| |[|] mb eb];
    cbn [not_negative SFadd]; try contradiction; intros _ _;
      try exact I.
  - destruct sa, sb; exact I.
  - unfold binary_normalize, binary_round, cond_Zopp.
    destruct (shl_align ma ea (Z.min ea eb)) as [m1 e1].
    destruct (shl_align mb eb (Z.min ea eb)) as [m2 e2].
    cbn [fst Z.add].
    destruct (shl_align (m1 + m2) _ _) as [mz ez].
    pose proof (binary_round_aux_sign false (Zpos mz) ez loc_Exact
                                      ltac:(lia)) as H.
    destruct (binary_round_aux _ _ _ _ _ _) as [s|s| |s m e];
      try contradiction; try exact I; subst s; exact I.
Qed.

Lemma SFsqrt_number (a : spec_float) :
  not_negative a -> SFsqrt prec emax a <> S754_nan.
Proof.
  destruct a as [sa|[|]| |[|] ma ea]; cbn [not_negative SFsqrt];
    try contradiction; intros _; try discriminate.
  unfold SFsqrt_core_binary.
  set (m' := match (ea - 2 * _)%Z with
             | Z0 => Zpos ma
             | Zpos _ => Z.shiftl (Zpos ma) _
             | Zneg _ => 0
             end).
  assert (Hm : 0 <= m').
  { unfold m'. destruct (ea - 2 * _)%Z; [lia| |lia].
    apply Z.shiftl_nonneg. lia. }
  pose proof (Z.sqrtrem_spec m' Hm) as Hs.
  destruct (Z.sqrtrem m') as [q r].
  pose proof (binary_round_aux_sign
                false q
                (Z.min (fexp prec emax
                             (Z.div2 (Zdigits2 (Zpos ma) + ea + 1)))
                       (Z.div2 ea))
                (if r =? 0 then loc_Exact
                 else loc_Inexact (if r <=? q then Lt else Gt))
                ltac:(lia)) as H.
  destruct (binary_round_aux _ _ _ _ _ _); try contradiction; discriminate.
Qed.

End Rounded.

Lemma not_nan_Prim2SF (v : float) :
  Prim2SF v <> S754_nan -> PrimFloat.is_nan v = false.
Proof.
  unfold Prim2SF. destruct (PrimFloat.is_nan v); congruence.
Qed.

Lemma is_finite_bounded (v : float) :
  PrimFloat.is_finite v = true -> bounded_number (Prim2SF v).
Proof.
  unfold PrimFloat.is_finite, Prim2SF.
  destruct (PrimFloat.is_nan v); [discriminate|].
  destruct (PrimFloat.is_infinity v); [discriminate|]. intros _.
  destruct (PrimFloat.is_zero v); [exact I|].
  destruct (Z.frexp v) as [r e].
  destruct (shr_fexp _ _ _ _ _) as [shr e'].
  destruct (shr_m shr); exact I.
Qed.

(** The square root of a sum of two squares of differences of finite
    numbers is a number. *)
Lemma spread_number (a b c d : float) :
  PrimFloat.is_finite a = true -> PrimFloat.is_finite b = true ->
  PrimFloat.is_finite c = true -> PrimFloat.is_finite d = true ->
  PrimFloat.is_nan
    (PrimFloat.sqrt ((a - b) * (a - b) + (c - d) * (c - d)))%float = false.
Proof.
  intros Ha Hb Hc Hd. apply not_nan_Prim2SF.
  rewrite sqrt_spec, add_spec, !mul_spec, !sub_spec.
  apply SFsqrt_number, SFadd_not_negative; apply SFmul_square, SFsub_number;
    apply is_finite_bounded; assumption.
Qed.

Lemma maximum_In (l : list float) : l <> [] -> In (Spec.maximum l) l.
Proof.
  induction l as [|v l IH]; [congruence|]. intros _.
  destruct l as [|w l]; [left; reflexivity|].
  rewrite maximum_cons.
  destruct (PrimFloat.ltb v _); [right; apply IH; discriminate|].
  left. reflexivity.
Qed.

Lemma minimum_In (l : list float) : l <> [] -> In (Spec.minimum l) l.
Proof.
  induction l as [|v l IH]; [congruence|]. intros _.
  destruct l as [|w l]; [left; reflexivity|].
  rewrite minimum_cons.
  destruct (PrimFloat.ltb _ v); [right; apply IH; discriminate|].
  left. reflexivity.
Qed.

(** The horizontal spread of a cluster that has a member is a number. *)
Lemma horizontal_spread_number (cluster : list Detection.Row) :
  cluster <> [] ->
  forallb Spec.finite_row cluster = true ->
  PrimFloat.is_nan (Spec.horizontal_spread cluster) = false.
Proof.
  intros Hne Hfin. unfold Spec.horizontal_spread, Spec.x_extent, Spec.y_extent.
  assert (Hcol : forall f : Detection.Row -> float,
             (forall r, Spec.finite_row r = true ->
                        PrimFloat.is_finite (f r) = true) ->
             forall v, In v (map f cluster) -> PrimFloat.is_finite v = true).
  { intros f Hf v Hv. apply in_map_iff in Hv. destruct Hv as [r [<- Hr]].
    apply Hf. rewrite forallb_forall in Hfin. apply Hfin, Hr. }
  assert (Hmap : forall f : Detection.Row -> float, map f cluster <> [])
    by (intros f; destruct cluster; [congruence|discriminate]).
  apply spread_number.
  - apply (Hcol _ finite_row_x), maximum_In, Hmap.
  - apply (Hcol _ finite_row_x), minimum_In, Hmap.
  - apply (Hcol _ finite_row_y), maximum_In, Hmap.
  - apply (Hcol _ finite_row_y), minimum_In, Hmap.
Qed.

(** A cluster whose number a row carries has a member. *)
Lemma select_nonempty (cid : Z) :
  forall (ids : list Z) (rs : list Detection.Row),
    length ids = length rs -> In cid ids ->
    (0 < length (Detection.select cid ids rs))%nat.
Proof.
  induction ids as [|i ids IH]; intros [|r rs] Hlen Hin;
    simpl in *; try contradiction; try discriminate.
  destruct (i =? cid) eqn:E.
  - simpl. lia.
  - destruct Hin as [Hin|Hin].
    + subst i. rewrite Z.eqb_refl in E. discriminate.
    + apply IH; [lia|exact Hin].
Qed.

(** C4. In [process], when the clustering returns a cluster number for
    every row (the coordinates are finite then), a row of a cluster that is
    not noise is labelled [Human] if and only if its cluster has at least
    [min_points_human] members, a z-extent strictly between
    [min_human_height] and [max_human_height], and a horizontal spread,
    the square root of the sum of the squares of the x-extent and the
    y-extent, of at most [max_human_width]; otherwise it is labelled
    [Moving] when the mean of the absolute velocities of the members
    exceeds the movement threshold, and [Static] when it does not. Rows of
    noise are labelled [Clutter]. Members, extents, spread and mean
    velocity are those of [Spec], not the helpers of the code; the spread
    of such a cluster is a number, and [max_human_width] is taken to be
    one. *)
Theorem C4_cluster_labels
        (DBSCAN : float -> Z -> list (float * float * float)
                  -> option (list Z))
        (mean : list float -> float)
        (d : Detection.HumanDetector)
        (s : Detection.store) (df : Detection.ref)
        (frame : Detection.DataFrame) (ids : list Z) :
  s df = Some frame ->
  Detection.rows frame <> [] ->
  forallb Spec.finite_row (Detection.rows frame) = true ->
  DBSCAN (Detection.eps d) (Detection.min_samples d)
         (map (fun r => (Detection.x r, Detection.y r, Detection.z r))
              (Detection.rows frame)) = Some ids ->
  length ids = length (Detection.rows frame) ->
  exists labels info s',
    Detection.process DBSCAN mean d s df
    = Some (Detection.Returned df info, s') /\
    s' df = Some (Detection.mkFrame (Detection.rows frame)
                                    (Some ids) (Some labels)) /\
    forall (i : nat) (cid : Z),
      nth_error ids i = Some cid ->
      (cid = -1 -> nth_error labels i = Some Detection.Clutter) /\
      (cid <> -1 ->
       let cluster := Spec.members cid ids (Detection.rows frame) in
       PrimFloat.is_nan (Detection.max_human_width d) = false ->
       (nth_error labels i = Some Detection.Human <->
        Spec.human d cluster) /\
       (~ Spec.human d cluster ->
        nth_error labels i =
        Some (if PrimFloat.ltb (Detection.movement_threshold d)
                               (Spec.mean_abs_velocity mean cluster)
              then Detection.Moving else Detection.Static))).
Proof.
  intros Hs Hrows Hfin Hdb Hids. unfold Detection.process. rewrite Hs.
  destruct (Detection.rows frame) as [|r0 rs0] eqn:Er; [congruence|].
  rewrite <- Er in *. clear Hrows. unfold Detection.classify. rewrite Hdb.
  assert (Hlen : length ids
                 = length (map (fun _ : Detection.Row => Detection.Clutter)
                               (Detection.rows frame))).
  { rewrite length_map. exact Hids. }
  pose proof (label_loop_labels mean d (Detection.rows frame) ids
                (Detection.unique_clusters ids) _ [] Hlen) as Hloop.
  cbv zeta in Hloop.
  destruct (fold_left _ (Detection.unique_clusters ids) _)
    as [labels info] eqn:Efold.
  cbn [fst] in Hloop. destruct Hloop as [_ Hn].
  exists labels, info. eexists. split; [reflexivity|].
  split; [unfold Detection.update; rewrite Nat.eqb_refl; reflexivity|].
  intros i cid Hi. rewrite (Hn i cid Hi).
  rewrite (unique_clusters_existsb ids i cid Hi).
  split.
  - intros ->. cbn [Z.eqb negb].
    assert (Hlt : (i < length ids)%nat)
      by (apply nth_error_Some; congruence).
    rewrite Hlen, length_map in Hlt.
    rewrite nth_error_map.
    destruct (nth_error (Detection.rows frame) i) eqn:En; [reflexivity|].
    apply nth_error_None in En. lia.
  - intros Hne. replace (cid =? -1) with false
      by (symmetry; apply Z.eqb_neq; exact Hne).
    cbn [negb]. cbv zeta.
    set (cluster := Spec.members cid ids (Detection.rows frame)).
    intros Hnan_w.
    assert (Hc : forallb Spec.finite_row cluster = true)
      by (apply members_finite; exact Hfin).
    assert (Hmember : cluster <> []).
    { pose proof (select_nonempty cid ids (Detection.rows frame) Hids
                                  (nth_error_In _ _ Hi)) as Hpos.
      unfold cluster. rewrite <- select_members.
      destruct (Detection.select cid ids (Detection.rows frame));
        [cbn in Hpos; lia|discriminate]. }
    pose proof (horizontal_spread_number cluster Hmember Hc) as Hnan_s.
    rewrite <- (horizontal_spread_spec cluster Hc) in Hnan_s.
    pose proof (is_human_cluster_iff d cluster Hnan_s Hnan_w) as Hiff.
    rewrite (human_conditions_spec d cluster Hc) in Hiff.
    unfold Detection.label_of, Detection.cluster_label.
    rewrite select_members. fold cluster.
    change (Detection.avg_velocity mean cluster)
      with (Spec.mean_abs_velocity mean cluster).
    destruct (Detection._is_human_cluster d cluster) eqn:Eh.
    + split; [tauto|]. intros Hnot. exfalso. apply Hnot, Hiff. reflexivity.
    + split.
      * split; [|intros Hh; apply Hiff in Hh; discriminate].
        destruct (PrimFloat.ltb _ _); discriminate.
      * intros _. reflexivity.
Qed.

(** C9, as the specification has it, fails on a batch with a coordinate
    that is no number: the clustering raises, [process] returns no batch,
    and the batch it was given has no [cluster_id] and no [label]. *)
Lemma C9_no_column_when_clustering_raises :
  nan_store 0%nat = Some nan_frame /\
  Detection.rows nan_frame <> [] /\
  Detection.process dbscan plain_mean Detection.default_detector
                    nan_store 0%nat
  = Some (Detection.ValueError, nan_store) /\
  Detection.cluster_id nan_frame = None /\
  Detection.label nan_frame = None.
Proof.
  split; [reflexivity|]. split; [discriminate|].
  split; [|split; reflexivity].
  unfold Detection.process. cbn [nan_store Nat.eqb nan_frame Detection.rows].
  replace (Detection.classify dbscan plain_mean Detection.default_detector
                              [Detection.mkRow PrimFloat.nan 0 0 0])
    with (@None (list Z * list Detection.Label * list Detection.HumanInfo))
    by (vm_compute; reflexivity).
  reflexivity.
Qed.

(** C9, amended. On a batch that is not empty, when the clustering returns,
    [process] returns the reference it was given, and the frame behind
    that reference has changed: it has its rows as before and now the
    columns [cluster_id], as the clustering gave it, and [label], one
    entry per row. No other frame of the store is touched. When the
    clustering raises, [process] raises and the store is as it was: no
    column is added. *)
Theorem C9_process_mutates_batch_in_place
        (DBSCAN : float -> Z -> list (float * float * float)
                  -> option (list Z))
        (mean : list float -> float)
        (d : Detection.HumanDetector)
        (s : Detection.store) (df : Detection.ref)
        (frame : Detection.DataFrame) :
  s df = Some frame ->
  Detection.rows frame <> [] ->
  let coords := map (fun r => (Detection.x r, Detection.y r, Detection.z r))
                    (Detection.rows frame) in
  (forall ids : list Z,
      DBSCAN (Detection.eps d) (Detection.min_samples d) coords = Some ids ->
      exists labels info s',
        Detection.process DBSCAN mean d s df
        = Some (Detection.Returned df info, s') /\
        s' df = Some (Detection.mkFrame (Detection.rows frame)
                                        (Some ids) (Some labels)) /\
        length labels = length (Detection.rows frame) /\
        forall r : Detection.ref, r <> df -> s' r = s r) /\
  (DBSCAN (Detection.eps d) (Detection.min_samples d) coords = None ->
   Detection.process DBSCAN mean d s df = Some (Detection.ValueError, s)).
Proof.
  intros Hs Hrows. cbv zeta. unfold Detection.process. rewrite Hs.
  destruct (Detection.rows frame) as [|r0 rs0] eqn:Er; [congruence|].
  rewrite <- Er. clear Hrows. unfold Detection.classify.
  split.
  - intros ids Hdb. rewrite Hdb.
    pose proof (label_loop_length mean d (Detection.rows frame) ids
                  (Detection.unique_clusters ids)
                  (map (fun _ => Detection.Clutter) (Detection.rows frame))
                  [])
      as Hlen.
    destruct (fold_left _ (Detection.unique_clusters ids) _)
      as [labels info] eqn:Efold.
    cbn [fst] in Hlen. rewrite length_map in Hlen.
    exists labels, info. eexists. split; [reflexivity|].
    split; [unfold Detection.update; rewrite Nat.eqb_refl; reflexivity|].
    split; [exact Hlen|].
    intros r Hr. unfold Detection.update.
    replace (Nat.eqb r df) with false
      by (symmetry; apply Nat.eqb_neq; exact Hr).
    reflexivity.
  - intros Hdb. rewrite Hdb. reflexivity.
Qed.

Lemma C4_cluster_labels_witness :
  exists labels info s',
    Detection.process dbscan plain_mean four_point_detector
                      figure_store 0%nat
    = Some (Detection.Returned 0%nat info, s') /\
    s' 0%nat = Some (Detection.mkFrame figure_rows (Some [0; 0; 0; 0; -1])
                                       (Some labels)) /\
    Spec.human four_point_detector
               (Spec.members 0 [0; 0; 0; 0; -1] figure_rows) /\
    nth_error labels 0 = Some Detection.Human /\
    nth_error labels 4 = Some Detection.Clutter.
Proof.
  destruct (C4_cluster_labels dbscan plain_mean four_point_detector
              figure_store 0%nat figure_frame [0; 0; 0; 0; -1])
    as [labels [info [s' [Hp [Hs Hl]]]]].
  - reflexivity.
  - discriminate.
  - vm_compute. reflexivity.
  - vm_compute. reflexivity.
  - reflexivity.
  - assert (Hh : Spec.human four_point_detector
                   (Spec.members 0 [0; 0; 0; 0; -1] figure_rows)).
    { unfold Spec.human. split; [vm_compute; discriminate|].
      split; [split|]; vm_compute; reflexivity. }
    exists labels, info, s'.
    split; [exact Hp|]. split; [exact Hs|]. split; [exact Hh|]. split.
    + destruct (Hl 0%nat 0 eq_refl) as [_ H].
      destruct H as [H _]; [discriminate | vm_compute; reflexivity |].
      apply H. exact Hh.
    + destruct (Hl 4%nat (-1) eq_refl) as [H _]. apply H. reflexivity.
Defined.

Lemma C9_process_mutates_batch_in_place_witness :
  (exists labels info s',
      Detection.process dbscan plain_mean four_point_detector
                        figure_store 0%nat
      = Some (Detection.Returned 0%nat info, s') /\
      s' 0%nat = Some (Detection.mkFrame figure_rows
                                         (Some [0; 0; 0; 0; -1])
                                         (Some labels)) /\
      length labels = 5%nat /\
      forall r : Detection.ref, r <> 0%nat -> s' r = figure_store r) /\
  Detection.process dbscan plain_mean four_point_detector nan_store 0%nat
  = Some (Detection.ValueError, nan_store).
Proof.
  split.
  - destruct (C9_process_mutates_batch_in_place
                dbscan plain_mean four_point_detector
                figure_store 0%nat figure_frame)
      as [H _]; [reflexivity|discriminate|].
    apply (H [0; 0; 0; 0; -1]). vm_compute. reflexivity.
  - destruct (C9_process_mutates_batch_in_place
                dbscan plain_mean four_point_detector
                nan_store 0%nat nan_frame)
      as [_ H]; [reflexivity|discriminate|].
    apply H. vm_compute. reflexivity.
Defined.

(** ** Chunks *)

(** The packets cut out so far ride along through a pass. *)
Lemma New_process_step_out (c : New.SerialCollector) (out : list bytes) :
  New.process_step c out =
  match New.process_step c [] with
  | inl r => inl (New.mkProcessed (New.ended r) (New.after r)
                                  (out ++ New.packets r))
  | inr (c', out') => inr (c', out ++ out')
  end.
Proof.
  unfold New.process_step.
  destruct (find MAGIC_WORD (New._buffer c)) as [idx|];
    [|rewrite app_nil_r; reflexivity].
  destruct (unpack_u32 _ 8) as [hl|]; [|rewrite app_nil_r; reflexivity].
  destruct (unpack_u32 _ 12) as [total|]; [|rewrite app_nil_r; reflexivity].
  destruct (_ <? total); [rewrite app_nil_r; reflexivity|].
  destruct (New._parse_packet _ hl); reflexivity.
Qed.

Lemma New_process_loop_out (fuel : nat) :
  forall (c : New.SerialCollector) (out : list bytes),
    New.process_loop fuel c out =
    New.mkProcessed (New.ended (New.process_loop fuel c []))
                    (New.after (New.process_loop fuel c []))
                    (out ++ New.packets (New.process_loop fuel c [])).
Proof.
  induction fuel as [|fuel IH]; intros c out; cbn [New.process_loop].
  - rewrite app_nil_r. reflexivity.
  - rewrite (New_process_step_out c out).
    destruct (New.process_step c []) as [r|[c' out']]; [reflexivity|].
    rewrite (IH c' (out ++ out')), (IH c' out'). cbn [New.ended New.after
      New.packets]. rewrite app_assoc. reflexivity.
Qed.

(** Once the marker is found, the bytes before it are of no account. *)
Lemma New_process_step_aligned (c : New.SerialCollector) (out : list bytes)
      (idx : nat) :
  find MAGIC_WORD (New._buffer c) = Some idx ->
  New.process_step c out =
  New.process_step (New.set_buffer c (skipn idx (New._buffer c))) out.
Proof.
  intros Hfind. unfold New.process_step. rewrite Hfind.
  cbn [New._buffer New.set_buffer].
  rewrite (find_at_start MAGIC_WORD (skipn idx (New._buffer c)))
    by (apply (find_bound _ _ _ Hfind)).
  reflexivity.
Qed.

(** A turn of the loop on a buffer, and the same turn when more bytes stand
    behind the buffer: a packet cut out of the one is cut out of the other,
    an error in the one is an error in the other, and where the one waits,
    the other starts from what the one has left. *)
Lemma New_process_step_app (c : New.SerialCollector) (out : list bytes)
      (more : bytes) :
  match New.process_step c out with
  | inr (c', out') =>
    New.process_step (New_extend c more) out = inr (New_extend c' more, out')
  | inl r =>
    match New.ended r with
    | New.Break =>
      New.packets r = out /\
      New.process_step (New_extend c more) out =
      New.process_step (New_extend (New.after r) more) out
    | New.StructError =>
      exists r', New.process_step (New_extend c more) out = inl r' /\
                 New.ended r' = New.StructError
    | New.OutOfFuel => True
    end
  end.
Proof.
  destruct (find MAGIC_WORD (New._buffer c)) as [idx|] eqn:Hfind.
  2:{ unfold New.process_step at 1. rewrite Hfind.
      cbn [New.ended New.packets New.after]. split; reflexivity. }
  destruct (find_bound _ _ _ Hfind) as [Hstart Hidx].
  assert (Hfind' : find MAGIC_WORD (New._buffer (New_extend c more))
                   = Some idx).
  { unfold New_extend. cbn [New._buffer New.set_buffer].
    apply find_app, Hfind. }
  assert (Hskip : skipn idx (New._buffer c ++ more)
                  = skipn idx (New._buffer c) ++ more).
  { rewrite skipn_app. replace (idx - length (New._buffer c))%nat with 0%nat
      by lia. reflexivity. }
  assert (Hwait : New.process_step (New_extend c more) out =
                  New.process_step
                    (New_extend (New.set_buffer c (skipn idx (New._buffer c)))
                                more) out).
  { rewrite (New_process_step_aligned _ out idx Hfind').
    unfold New_extend. cbn [New._buffer New.set_buffer].
    rewrite Hskip. reflexivity. }
  unfold New.process_step at 1. rewrite Hfind.
  cbn [New._buffer New.set_buffer].
  set (A := skipn idx (New._buffer c)) in *.
  destruct (unpack_u32 A 8) as [hl|] eqn:Ehl.
  2:{ cbn [New.ended New.packets New.after]. split; [reflexivity|exact Hwait]. }
  destruct (unpack_u32 A 12) as [total|] eqn:Etotal.
  2:{ cbn [New.ended New.packets New.after]. split; [reflexivity|exact Hwait]. }
  destruct (len A <? total) eqn:Elen.
  { cbn [New.ended New.packets New.after]. split; [reflexivity|exact Hwait]. }
  apply Z.ltb_ge in Elen.
  assert (Hstep : New.process_step (New_extend c more) out =
                  match New._parse_packet (take total A) hl with
                  | Some objs =>
                    inr (New.set_queue
                           (New.set_buffer c (drop total A ++ more))
                           (New.put_all (New.queue_max c) (New._data_q c) objs),
                         out ++ [take total A])
                  | None =>
                    inl (New.mkProcessed
                           New.StructError
                           (New.set_buffer c (drop total A ++ more))
                           (out ++ [take total A]))
                  end).
  { unfold New.process_step. rewrite Hfind'. unfold New_extend.
    cbn [New._buffer New.set_buffer]. rewrite Hskip. fold A.
    rewrite (unpack_u32_app A more 8 hl Ehl).
    rewrite (unpack_u32_app A more 12 total Etotal).
    replace (len (A ++ more) <? total) with false
      by (symmetry; apply Z.ltb_ge; rewrite len_app;
          pose proof (len_nonneg more); lia).
    rewrite take_app by lia. rewrite drop_app by lia.
    destruct (New._parse_packet (take total A) hl); reflexivity. }
  rewrite Hstep.
  destruct (New._parse_packet (take total A) hl) as [objs|].
  - reflexivity.
  - cbn [New.ended]. eexists. split; reflexivity.
Qed.

Lemma New_pass_unfold (c : New.SerialCollector) (out : list bytes) :
  New_pass c out =
  match New.process_step c out with
  | inl r => r
  | inr (c', out') => New_pass c' out'
  end.
Proof.
  unfold New_pass. apply New_process_loop_unfold. lia.
Qed.

(** A pass over a buffer with more bytes behind it is a pass over the
    buffer alone, followed by a pass over what that one left and the bytes
    behind. *)
Lemma New_pass_app (more : bytes) (n : nat) :
  forall (c : New.SerialCollector) (out : list bytes),
    (length (New._buffer c) < n)%nat ->
    match New.ended (New_pass c out) with
    | New.Break =>
      New_pass (New_extend c more) out =
      New_pass (New_extend (New.after (New_pass c out)) more)
               (New.packets (New_pass c out))
    | New.StructError =>
      New.ended (New_pass (New_extend c more) out) = New.StructError
    | New.OutOfFuel => False
    end.
Proof.
  induction n as [|n IH]; intros c out Hn; [lia|].
  pose proof (New_process_step_app c out more) as Happ.
  pose proof (New_process_step_shrinks c out) as Hshr.
  rewrite (New_pass_unfold c out).
  rewrite (New_pass_unfold (New_extend c more) out).
  destruct (New.process_step c out) as [r|[c' out']].
  - destruct (New.ended r) eqn:Er.
    + destruct Happ as [Hout Hstep]. rewrite Hstep, Hout.
      symmetry. apply New_pass_unfold.
    + destruct Happ as [r' [-> Hr']]. exact Hr'.
    + congruence.
  - rewrite Happ. apply IH. lia.
Qed.

Lemma New_pass_out (c : New.SerialCollector) (out : list bytes) :
  New_pass c out =
  New.mkProcessed (New.ended (New_pass c [])) (New.after (New_pass c []))
                  (out ++ New.packets (New_pass c [])).
Proof. unfold New_pass. apply New_process_loop_out. Qed.

(** Feeding the chunks one at a time is feeding them all at once, as long
    as no packet makes [_parse_packet] raise. *)
Lemma New_consume_all_concat (chunks : list bytes) :
  forall c : New.SerialCollector,
    chunks <> [] ->
    New.ended (New.consume c (concat chunks)) = New.Break ->
    New.consume_all c chunks =
    (New.after (New.consume c (concat chunks)),
     New.packets (New.consume c (concat chunks))).
Proof.
  induction chunks as [|chunk rest IH]; intros c Hne Hend; [congruence|].
  destruct rest as [|chunk2 rest].
  - cbn [New.consume_all concat] in *. rewrite app_nil_r in *.
    rewrite app_nil_r. reflexivity.
  - change (concat (chunk :: chunk2 :: rest))
      with (chunk ++ concat (chunk2 :: rest)) in *.
    change (New.consume_all c (chunk :: chunk2 :: rest))
      with (let (c', out) :=
                New.consume_all (New.after (New.consume c chunk))
                                (chunk2 :: rest) in
            (c', New.packets (New.consume c chunk) ++ out)).
    set (more := concat (chunk2 :: rest)) in *.
    set (r1 := New.consume c chunk) in *.
    set (R := New.consume c (chunk ++ more)) in *.
    set (R' := New.consume (New.after r1) more) in *.
    assert (HR : R = New.mkProcessed (New.ended R') (New.after R')
                                     (New.packets r1 ++ New.packets R')).
    { assert (Hone : R = New_pass (New_extend (New_extend c chunk) more) []).
      { unfold R, New.consume, New._process_buffer, New_pass, New_extend.
        cbn [New._buffer New.set_buffer]. rewrite app_assoc. reflexivity. }
      pose proof (New_pass_app more _ (New_extend c chunk) []
                    (Nat.lt_succ_diag_r _)) as Happ.
      change (New_pass (New_extend c chunk) []) with r1 in Happ.
      destruct (New.ended r1) eqn:E1.
      - rewrite Hone, Happ. apply New_pass_out.
      - rewrite Hone in Hend. congruence.
      - contradiction. }
    rewrite HR in Hend. cbn [New.ended] in Hend.
    rewrite (IH (New.after r1) ltac:(discriminate) Hend).
    fold R'. rewrite HR. reflexivity.
Qed.

(** ** Streams of frames and noise *)

Lemma marker_free_find (b : bytes) :
  marker_free b = true -> find MAGIC_WORD b = None.
Proof.
  unfold marker_free. destruct (find MAGIC_WORD b); [discriminate|reflexivity].
Qed.

Lemma New_valid_frame_spec (f : bytes) :
  New_valid_frame f = true ->
  starts_with MAGIC_WORD f = true /\
  unpack_u32 f 12 = Some (len f) /\ 36 <= len f.
Proof.
  unfold New_valid_frame. rewrite !andb_true_iff.
  intros [[Hs Ht] Hl]. split; [exact Hs|]. apply Z.leb_le in Hl.
  split; [|exact Hl].
  destruct (unpack_u32 f 12) as [total|]; [|discriminate].
  apply Z.eqb_eq in Ht. subst total. reflexivity.
Qed.

(** The turn of the new loop that meets a valid frame behind noise cuts out
    that frame, neither more nor less, and queues its detections. *)
Lemma New_process_step_frame (c : New.SerialCollector) (out : list bytes)
      (noise frame rest : bytes) :
  New._buffer c = noise ++ frame ++ rest ->
  marker_free noise = true ->
  New_valid_frame frame = true ->
  exists hl objs,
    unpack_u32 frame 8 = Some hl /\
    New._parse_packet frame hl = Some objs /\
    New.process_step c out =
    inr (New.set_queue (New.set_buffer c rest)
                       (New.put_all (New.queue_max c) (New._data_q c) objs),
         out ++ [frame]).
Proof.
  intros Hbuf Hnoise Hvalid.
  apply marker_free_find in Hnoise.
  apply New_valid_frame_spec in Hvalid. destruct Hvalid as [Hs [Ht Hl]].
  destruct (unpack_u32_some frame 8) as [hl Hhl]; [lia|lia|].
  destruct (unpack_u32_bound _ _ _ Hhl) as [_ [_ Hhl0]].
  destruct (New_parse_packet_total frame hl Hhl0 Hl) as [objs Hobjs].
  exists hl, objs. split; [exact Hhl|]. split; [exact Hobjs|].
  unfold New.process_step. rewrite Hbuf.
  rewrite (find_magic_after_noise noise (frame ++ rest) Hnoise)
    by (apply starts_with_app, Hs).
  cbn [New._buffer New.set_buffer].
  rewrite skipn_app, skipn_all, Nat.sub_diag. cbn [skipn app].
  rewrite (unpack_u32_app frame rest 8 hl Hhl).
  rewrite (unpack_u32_app frame rest 12 (len frame) Ht).
  replace (len (frame ++ rest) <? len frame) with false
    by (symmetry; apply Z.ltb_ge; rewrite len_app;
        pose proof (len_nonneg rest); lia).
  rewrite take_app by lia. rewrite drop_app by lia.
  assert (Htake : take (len frame) frame = frame).
  { unfold take, len. rewrite Nat2Z.id. apply firstn_all. }
  assert (Hdrop : drop (len frame) frame = []).
  { unfold drop, len. rewrite Nat2Z.id. apply skipn_all. }
  rewrite Htake, Hdrop, Hobjs. reflexivity.
Qed.

(** A pass of the new collector over a stream cuts out its frames. *)
Lemma New_pass_stream (segments : list (bytes * bytes)) :
  forall (tail : bytes) (c : New.SerialCollector) (out : list bytes),
    Forall (fun seg => marker_free (fst seg) = true /\
                       New_valid_frame (snd seg) = true) segments ->
    marker_free tail = true ->
    New._buffer c = stream segments tail ->
    New.ended (New_pass c out) = New.Break /\
    New.packets (New_pass c out) = out ++ map snd segments /\
    New._buffer (New.after (New_pass c out)) = tail.
Proof.
  induction segments as [|[noise frame] segments IH];
    intros tail c out Hsegs Htail Hbuf; cbn [stream] in Hbuf.
  - rewrite New_pass_unfold. unfold New.process_step.
    rewrite Hbuf, (marker_free_find tail Htail).
    cbn [New.ended New.packets New.after map]. rewrite app_nil_r. auto.
  - inversion Hsegs as [|seg segs' [Hn Hv] Hrest]; subst.
    cbn [fst snd] in Hn, Hv.
    destruct (New_process_step_frame c out noise frame
                (stream segments tail) Hbuf Hn Hv)
      as [hl [objs [_ [_ Hstep]]]].
    rewrite New_pass_unfold, Hstep.
    destruct (IH tail
                 (New.set_queue
                    (New.set_buffer c (stream segments tail))
                    (New.put_all (New.queue_max c) (New._data_q c) objs))
                 (out ++ [frame]) Hrest Htail eq_refl) as [He [Hp Hb]].
    split; [exact He|]. split; [|exact Hb].
    rewrite Hp. cbn [map snd]. rewrite <- app_assoc. reflexivity.
Qed.

(** C7. The bytes of a valid frame, fed to a collector with an empty buffer
    in any number of chunks, leave the same collector, the same queue of
    detections with it, as the frame fed in one chunk: the detections
    [_parse_packet] decodes from the frame, put on the queue. *)
Theorem C7_chunks_of_a_frame_decode_like_the_frame
        (frame : bytes) (chunks : list bytes) (c : New.SerialCollector) :
  New_valid_frame frame = true ->
  New._buffer c = [] ->
  concat chunks = frame ->
  New.consume_all c chunks = New.consume_all c [frame] /\
  exists hl objs,
    unpack_u32 frame 8 = Some hl /\
    New._parse_packet frame hl = Some objs /\
    New.consume_all c chunks =
    (New.set_queue c (New.put_all (New.queue_max c) (New._data_q c) objs),
     [frame]).
Proof.
  intros Hvalid Hbuf Hconcat.
  assert (Hone : exists hl objs,
             unpack_u32 frame 8 = Some hl /\
             New._parse_packet frame hl = Some objs /\
             New.consume c frame =
             New.mkProcessed
               New.Break
               (New.set_queue c (New.put_all (New.queue_max c)
                                             (New._data_q c) objs))
               [frame]).
  { destruct (New_process_step_frame
                (New.set_buffer c (New._buffer c ++ frame)) [] [] frame []
                ltac:(cbn [New._buffer New.set_buffer]; rewrite Hbuf, app_nil_r;
                      reflexivity)
                eq_refl Hvalid) as [hl [objs [Hhl [Hobjs Hstep]]]].
    exists hl, objs. split; [exact Hhl|]. split; [exact Hobjs|].
    unfold New.consume, New._process_buffer.
    rewrite New_process_loop_unfold by lia. rewrite Hstep.
    cbn [New.process_loop New._buffer New.set_buffer New.set_queue length].
    unfold New.process_step. cbn [New._buffer find starts_with MAGIC_WORD].
    cbn [app]. f_equal. destruct c; cbn in *. subst. reflexivity. }
  destruct Hone as [hl [objs [Hhl [Hobjs Hone]]]].
  assert (Hne : chunks <> []).
  { intros ->. cbn [concat] in Hconcat. subst frame. discriminate Hvalid. }
  assert (Hall : New.consume_all c chunks =
                 (New.set_queue c (New.put_all (New.queue_max c)
                                               (New._data_q c) objs),
                  [frame])).
  { rewrite (New_consume_all_concat chunks c Hne);
      rewrite Hconcat, Hone; reflexivity. }
  split.
  - rewrite Hall. cbn [New.consume_all]. rewrite Hone.
    cbn [New.after New.packets app]. reflexivity.
  - exists hl, objs. auto.
Qed.

Lemma C7_chunks_of_a_frame_decode_like_the_frame_witness :
  New_valid_frame frame_one_point = true /\
  concat three_chunks = frame_one_point /\
  New.consume_all (New.init 20000) three_chunks =
  New.consume_all (New.init 20000) [frame_one_point].
Proof.
  split; [vm_compute; reflexivity|].
  split; [vm_compute; reflexivity|].
  apply (C7_chunks_of_a_frame_decode_like_the_frame
           frame_one_point three_chunks (New.init 20000));
    [vm_compute; reflexivity | reflexivity | vm_compute; reflexivity].
Defined.

Lemma Old_valid_frame_spec (f : bytes) :
  Old_valid_frame f = true ->
  starts_with MAGIC_WORD f = true /\
  unpack_u32 f 12 = Some (len f) /\ 40 <= len f <= 65536.
Proof.
  unfold Old_valid_frame. rewrite !andb_true_iff.
  intros [[[Hs Ht] Hl] Hu]. split; [exact Hs|].
  apply Z.leb_le in Hl, Hu. split; [|lia].
  destruct (unpack_u32 f 12) as [total|]; [|discriminate].
  apply Z.eqb_eq in Ht. subst total. reflexivity.
Qed.

Lemma Old_pass_unfold (round4 : float -> float) (c : Old.SerialCollector)
      (out : list bytes) :
  Old_pass round4 c out =
  match Old.process_step round4 c out with
  | inl r => r
  | inr (c', out') => Old_pass round4 c' out'
  end.
Proof.
  unfold Old_pass. apply Old_process_loop_unfold. lia.
Qed.

(** The turn of the old loop that meets a valid frame behind noise cuts out
    that frame, neither more nor less, and queues its detections. *)
Lemma Old_process_step_frame (round4 : float -> float)
      (c : Old.SerialCollector) (out : list bytes)
      (noise frame rest : bytes) :
  Old._buffer c = noise ++ frame ++ rest ->
  marker_free noise = true ->
  Old_valid_frame frame = true ->
  0 < Old.queue_max c ->
  Z.of_nat (length (Old._data_q c)) <= Old.queue_max c ->
  exists objs q,
    Old._parse_packet round4 frame = Some objs /\
    Old.put_all (Old.queue_max c) (Old._data_q c) objs = (q, true) /\
    Z.of_nat (length q) <= Old.queue_max c /\
    Old.process_step round4 c out =
    inr (Old.set_queue (Old.set_buffer c rest) q, out ++ [frame]).
Proof.
  intros Hbuf Hnoise Hvalid Hpos Hq.
  apply marker_free_find in Hnoise.
  apply Old_valid_frame_spec in Hvalid. destruct Hvalid as [Hs [Ht Hl]].
  destruct (Old_parse_packet_total round4 frame) as [objs Hobjs].
  destruct (Old_put_all_bound _ Hpos objs _ Hq) as [q [Hput Hq']].
  exists objs, q. split; [exact Hobjs|]. split; [exact Hput|].
  split; [exact Hq'|].
  unfold Old.process_step. rewrite Hbuf.
  rewrite (find_magic_after_noise noise (frame ++ rest) Hnoise)
    by (apply starts_with_app, Hs).
  cbn [Old._buffer Old.set_buffer].
  rewrite skipn_app, skipn_all, Nat.sub_diag. cbn [skipn app].
  replace (len (frame ++ rest) <? 40) with false
    by (symmetry; apply Z.ltb_ge; rewrite len_app;
        pose proof (len_nonneg rest); lia).
  rewrite (unpack_u32_app frame rest 12 (len frame) Ht).
  replace ((len frame <=? 0) || (len frame >? 65536)) with false
    by (symmetry; apply orb_false_iff; split; [apply Z.leb_gt|]; lia).
  replace (len (frame ++ rest) <? len frame) with false
    by (symmetry; apply Z.ltb_ge; rewrite len_app;
        pose proof (len_nonneg rest); lia).
  rewrite take_app by lia. rewrite drop_app by lia.
  assert (Htake : take (len frame) frame = frame).
  { unfold take, len. rewrite Nat2Z.id. apply firstn_all. }
  assert (Hdrop : drop (len frame) frame = []).
  { unfold drop, len. rewrite Nat2Z.id. apply skipn_all. }
  rewrite Htake, Hdrop, Hobjs.
  cbn [Old._buffer Old.set_buffer Old._data_q Old.queue_max].
  rewrite Hput. reflexivity.
Qed.

(** A pass of the old collector over a stream cuts out its frames. *)
Lemma Old_pass_stream (round4 : float -> float)
      (segments : list (bytes * bytes)) :
  forall (tail : bytes) (c : Old.SerialCollector) (out : list bytes),
    Forall (fun seg => marker_free (fst seg) = true /\
                       Old_valid_frame (snd seg) = true) segments ->
    marker_free tail = true ->
    Old._buffer c = stream segments tail ->
    0 < Old.queue_max c ->
    Z.of_nat (length (Old._data_q c)) <= Old.queue_max c ->
    Old.ended (Old_pass round4 c out) = Old.Break /\
    Old.packets (Old_pass round4 c out) = out ++ map snd segments /\
    Old._buffer (Old.after (Old_pass round4 c out)) =
    (if len tail >? 2048 then Old.last_bytes 16 tail else tail).
Proof.
  induction segments as [|[noise frame] segments IH];
    intros tail c out Hsegs Htail Hbuf Hpos Hq; cbn [stream] in Hbuf.
  - rewrite Old_pass_unfold. unfold Old.process_step.
    rewrite Hbuf, (marker_free_find tail Htail).
    change (2 * 1024) with 2048.
    change (length MAGIC_WORD * 2)%nat with 16%nat.
    destruct (len tail >? 2048);
      cbn [Old.ended Old.packets Old.after Old._buffer Old.set_buffer map];
      rewrite app_nil_r; auto.
  - inversion Hsegs as [|seg segs' [Hn Hv] Hrest]; subst.
    cbn [fst snd] in Hn, Hv.
    destruct (Old_process_step_frame round4 c out noise frame
                (stream segments tail) Hbuf Hn Hv Hpos Hq)
      as [objs [q [_ [_ [Hq' Hstep]]]]].
    rewrite Old_pass_unfold, Hstep.
    destruct (IH tail
                 (Old.set_queue (Old.set_buffer c (stream segments tail)) q)
                 (out ++ [frame]) Hrest Htail eq_refl Hpos Hq')
      as [He [Hp Hb]].
    split; [exact He|]. split; [|exact Hb].
    rewrite Hp. cbn [map snd]. rewrite <- app_assoc. reflexivity.
Qed.

(** *** The old collector, chunk by chunk *)

Lemma find_prefix_none (p a b : bytes) :
  find p (a ++ b) = None -> find p a = None.
Proof.
  intros H. destruct (find p a) as [i|] eqn:E; [|reflexivity].
  rewrite (find_app p a b i E) in H. discriminate.
Qed.

Lemma find_suffix_none (p l : bytes) (m : nat) :
  find p l = None -> find p (skipn m l) = None.
Proof.
  intros H. destruct (find p (skipn m l)) as [i|] eqn:E; [|reflexivity].
  destruct (find_bound p _ i E) as [Hi _].
  rewrite skipn_skipn in Hi.
  rewrite (find_none_nowhere p l H) in Hi. discriminate.
Qed.

Lemma marker_free_prefix (a b : bytes) :
  marker_free (a ++ b) = true -> marker_free a = true.
Proof.
  unfold marker_free. intros H.
  rewrite (find_prefix_none MAGIC_WORD a b); [reflexivity|].
  destruct (find MAGIC_WORD (a ++ b)); [discriminate|reflexivity].
Qed.

Lemma marker_free_suffix (l : bytes) (m : nat) :
  marker_free l = true -> marker_free (skipn m l) = true.
Proof.
  unfold marker_free. intros H.
  rewrite (find_suffix_none MAGIC_WORD l m); [reflexivity|].
  destruct (find MAGIC_WORD l); [discriminate|reflexivity].
Qed.

Lemma unpack_u32_prefix (a b : bytes) (off : Z) :
  off + 4 <= len a -> unpack_u32 (a ++ b) off = unpack_u32 a off.
Proof.
  intros H. destruct (unpack_u32 a off) as [v|] eqn:E.
  - apply unpack_u32_app, E.
  - unfold unpack_u32 in *.
    destruct (0 <=? off); [|reflexivity]. simpl in *.
    replace (off + 4 <=? len a) with true in E
      by (symmetry; apply Z.leb_le; lia).
    discriminate.
Qed.

(** A pass of the old collector over a buffer without a marker. *)
Lemma Old_pass_no_marker (round4 : float -> float) (c : Old.SerialCollector)
      (out : list bytes) :
  find MAGIC_WORD (Old._buffer c) = None ->
  Old.ended (Old_pass round4 c out) = Old.Break /\
  Old.packets (Old_pass round4 c out) = out /\
  Old._buffer (Old.after (Old_pass round4 c out))
  = skipn (Old_trimmed (Old._buffer c)) (Old._buffer c) /\
  Old._data_q (Old.after (Old_pass round4 c out)) = Old._data_q c /\
  Old.queue_max (Old.after (Old_pass round4 c out)) = Old.queue_max c.
Proof.
  intros Hnone. rewrite Old_pass_unfold. unfold Old.process_step, Old_trimmed.
  rewrite Hnone. change (2 * 1024) with 2048.
  change (length MAGIC_WORD * 2)%nat with 16%nat.
  destruct (len (Old._buffer c) >? 2048);
    cbn [Old.ended Old.packets Old.after Old._buffer Old.set_buffer
         Old._data_q Old.queue_max skipn]; auto.
Qed.

(** A pass of the old collector over a buffer that ends inside a valid
    frame: the bytes before the frame go, the frame's bytes stay and wait
    for the rest. *)
Lemma Old_pass_waiting (round4 : float -> float) (c : Old.SerialCollector)
      (out : list bytes) (noise part rest : bytes) :
  Old._buffer c = noise ++ part ->
  marker_free noise = true ->
  Old_valid_frame (part ++ rest) = true ->
  rest <> [] ->
  (8 <= length part)%nat ->
  Old.ended (Old_pass round4 c out) = Old.Break /\
  Old.packets (Old_pass round4 c out) = out /\
  Old._buffer (Old.after (Old_pass round4 c out)) = part /\
  Old._data_q (Old.after (Old_pass round4 c out)) = Old._data_q c /\
  Old.queue_max (Old.after (Old_pass round4 c out)) = Old.queue_max c.
Proof.
  intros Hbuf Hnoise Hvalid Hrest Hpart.
  apply marker_free_find in Hnoise.
  apply Old_valid_frame_spec in Hvalid. destruct Hvalid as [Hs [Ht Hl]].
  assert (Hs' : starts_with MAGIC_WORD part = true).
  { rewrite <- (starts_with_long MAGIC_WORD part rest); [exact Hs|].
    exact Hpart. }
  assert (Hshort : len part < len (part ++ rest)).
  { rewrite len_app. unfold len. destruct rest; [congruence|].
    cbn [length]. lia. }
  rewrite Old_pass_unfold. unfold Old.process_step. rewrite Hbuf.
  pose proof (find_magic_after_noise noise part Hnoise Hs') as Hfind.
  rewrite Hfind. cbn [Old._buffer Old.set_buffer].
  rewrite skipn_app, skipn_all, Nat.sub_diag. cbn [skipn app].
  destruct (len part <? 40) eqn:E40;
    [cbn [Old.ended Old.packets Old.after Old._buffer Old.set_buffer
          Old._data_q Old.queue_max]; auto|].
  apply Z.ltb_ge in E40.
  rewrite <- (unpack_u32_prefix part rest 12) by lia. rewrite Ht.
  replace ((len (part ++ rest) <=? 0) || (len (part ++ rest) >? 65536))
    with false
    by (symmetry; apply orb_false_iff; split; [apply Z.leb_gt|]; lia).
  replace (len part <? len (part ++ rest)) with true
    by (symmetry; apply Z.ltb_lt; exact Hshort).
  cbn [Old.ended Old.packets Old.after Old._buffer Old.set_buffer
       Old._data_q Old.queue_max]. auto.
Qed.

Lemma skipn_app_le {A : Type} (m : nat) (a b : list A) :
  (m <= length a)%nat -> skipn m (a ++ b) = skipn m a ++ b.
Proof.
  intros H. rewrite skipn_app.
  replace (m - length a)%nat with 0%nat by lia. reflexivity.
Qed.

Lemma Old_trimmed_le (buf : bytes) : (Old_trimmed buf <= length buf)%nat.
Proof. unfold Old_trimmed. destruct (len buf >? 2048); lia. Qed.

Lemma Old_trimmed_keeps_16 (buf : bytes) :
  (Old_trimmed buf = 0 \/ Old_trimmed buf + 16 = length buf)%nat.
Proof.
  unfold Old_trimmed, len. destruct (_ >? 2048) eqn:E; [right|left]; lia.
Qed.

(** A pass of the old collector over a buffer that, with the bytes still to
    come, makes up a stream: it cuts out the frames that are whole in the
    buffer, and what it leaves makes up, with the bytes to come, a stream
    of the frames that are left. *)
Lemma Old_pass_prefix (round4 : float -> float)
      (segments : list (bytes * bytes)) :
  forall (tail : bytes) (c : Old.SerialCollector) (out : list bytes)
         (future : bytes),
    Forall (fun seg => marker_free (fst seg) = true /\
                       Old_valid_frame (snd seg) = true) segments ->
    marker_free tail = true ->
    Old._buffer c ++ future = stream segments tail ->
    0 < Old.queue_max c ->
    Z.of_nat (length (Old._data_q c)) <= Old.queue_max c ->
    exists (k : nat) (segments' : list (bytes * bytes)) (tail' : bytes),
      Old.ended (Old_pass round4 c out) = Old.Break /\
      Old.packets (Old_pass round4 c out)
      = out ++ map snd (firstn k segments) /\
      map snd segments' = map snd (skipn k segments) /\
      Forall (fun seg => marker_free (fst seg) = true /\
                         Old_valid_frame (snd seg) = true) segments' /\
      marker_free tail' = true /\
      Old._buffer (Old.after (Old_pass round4 c out)) ++ future
      = stream segments' tail' /\
      Old.queue_max (Old.after (Old_pass round4 c out)) = Old.queue_max c /\
      Z.of_nat (length (Old._data_q (Old.after (Old_pass round4 c out))))
      <= Old.queue_max c.
Proof.
  induction segments as [|[noise frame] segments IH];
    intros tail c out future Hsegs Htail Hbuf Hpos Hq; cbn [stream] in Hbuf.
  - assert (Hnone : find MAGIC_WORD (Old._buffer c) = None).
    { apply marker_free_find, (marker_free_prefix _ future).
      rewrite Hbuf. exact Htail. }
    destruct (Old_pass_no_marker round4 c out Hnone)
      as [He [Hp [Hb [Hdq Hm]]]].
    exists 0%nat, [], (skipn (Old_trimmed (Old._buffer c)) tail).
    rewrite He, Hp, Hb, Hdq, Hm. cbn [firstn skipn map stream].
    rewrite app_nil_r.
    repeat split; try assumption; try constructor.
    + apply marker_free_suffix, Htail.
    + rewrite <- Hbuf. symmetry. apply skipn_app_le, Old_trimmed_le.
  - inversion Hsegs as [|seg segs' [Hn Hv] Hrest]; subst.
    cbn [fst snd] in Hn, Hv.
    set (R := stream segments tail) in *.
    assert (Hcases :
              (exists l, Old._buffer c = noise ++ frame ++ l /\
                         R = l ++ future) \/
              (exists l, l <> [] /\ noise ++ frame = Old._buffer c ++ l /\
                         future = l ++ R)).
    { rewrite app_assoc in Hbuf. apply app_eq_app in Hbuf.
      destruct Hbuf as [l [[H1 H2]|[H1 H2]]].
      - left. exists l. rewrite <- app_assoc in H1. auto.
      - destruct l as [|b0 l0].
        + left. exists []. rewrite app_nil_r in H1. cbn [app] in H2.
          rewrite <- H1, app_assoc, app_nil_r. auto.
        + right. exists (b0 :: l0). split; [discriminate|]. auto. }
    destruct Hcases as [[l [Hb HR]]|[l [Hl [Hb Hf]]]].
    + (* the frame is whole in the buffer *)
      destruct (Old_process_step_frame round4 c out noise frame l
                  Hb Hn Hv Hpos Hq) as [objs [q [_ [_ [Hq' Hstep]]]]].
      rewrite Old_pass_unfold, Hstep.
      destruct (IH tail (Old.set_queue (Old.set_buffer c l) q)
                   (out ++ [frame]) future Hrest Htail
                   (eq_sym HR) Hpos Hq')
        as [k [segs2 [tail2 [He [Hp [Hmap [Hv2 [Ht2 [Hb2 [Hm2 Hq2]]]]]]]]]].
      exists (S k), segs2, tail2. rewrite He, Hp.
      cbn [firstn skipn map snd]. rewrite <- app_assoc.
      repeat split; assumption.
    + (* the buffer ends before the frame does *)
      symmetry in Hb. apply app_eq_app in Hb.
      destruct Hb as [l' [[Hb1 Hb2]|[Hb1 Hb2]]].
      * (* ... inside the frame, or right before it *)
        destruct (le_lt_dec 8 (length l')) as [H8|H8].
        -- subst frame.
           destruct (Old_pass_waiting round4 c out noise l' l
                       Hb1 Hn Hv Hl H8) as [He [Hp [Hbuf' [Hdq Hm]]]].
           exists 0%nat, (([], l' ++ l) :: segments), tail.
           rewrite He, Hp, Hbuf', Hdq, Hm. cbn [firstn skipn map stream app].
           rewrite app_nil_r. fold R. subst future.
           repeat split; try assumption.
           ++ constructor; [split; [reflexivity|exact Hv]|exact Hrest].
           ++ rewrite <- app_assoc. reflexivity.
        -- assert (Hnone : find MAGIC_WORD (Old._buffer c) = None).
           { destruct (find MAGIC_WORD (Old._buffer c)) as [i|] eqn:E;
               [|reflexivity]. exfalso.
             destruct (find_bound _ _ _ E) as [_ Hi].
             pose proof (find_app _ _ l _ E) as E'.
             rewrite Hb1, <- app_assoc, <- Hb2 in E'.
             apply Old_valid_frame_spec in Hv. destruct Hv as [Hs _].
             rewrite (find_magic_after_noise noise frame
                        (marker_free_find _ Hn) Hs) in E'.
             injection E' as <-. rewrite Hb1, length_app in Hi.
             change (length MAGIC_WORD) with 8%nat in Hi. lia. }
           destruct (Old_pass_no_marker round4 c out Hnone)
             as [He [Hp [Hbuf' [Hdq Hm]]]].
           set (m := Old_trimmed (Old._buffer c)) in *.
           assert (Hm_le : (m <= length noise)%nat).
           { destruct (Old_trimmed_keeps_16 (Old._buffer c)) as [H0|H16];
               fold m in H0 || fold m in H16; [lia|].
             rewrite Hb1, length_app in H16. lia. }
           exists 0%nat, ((skipn m noise, frame) :: segments), tail.
           rewrite He, Hp, Hbuf', Hdq, Hm. cbn [firstn skipn map stream].
           rewrite app_nil_r. fold R. subst future.
           repeat split; try assumption.
           ++ constructor; [|exact Hrest]. cbn [fst snd].
              split; [apply marker_free_suffix, Hn|exact Hv].
           ++ rewrite Hb1, (skipn_app_le m noise l' Hm_le), Hb2.
              rewrite <- !app_assoc. reflexivity.
      * (* ... inside the noise *)
        assert (Hnone : find MAGIC_WORD (Old._buffer c) = None).
        { apply marker_free_find, (marker_free_prefix _ l').
          rewrite <- Hb1. exact Hn. }
        destruct (Old_pass_no_marker round4 c out Hnone)
          as [He [Hp [Hbuf' [Hdq Hm]]]].
        set (m := Old_trimmed (Old._buffer c)) in *.
        exists 0%nat, ((skipn m noise, frame) :: segments), tail.
        rewrite He, Hp, Hbuf', Hdq, Hm. cbn [firstn skipn map stream].
        rewrite app_nil_r. fold R. subst future.
        repeat split; try assumption.
        -- constructor; [|exact Hrest]. cbn [fst snd].
           split; [apply marker_free_suffix, Hn|exact Hv].
        -- rewrite Hb1, (skipn_app_le m _ l' (Old_trimmed_le _)), Hb2.
           rewrite <- !app_assoc. reflexivity.
Qed.

(** The old collector cuts the frames out of a stream however the stream is
    split into chunks. *)
Lemma Old_consume_all_stream (round4 : float -> float) (chunks : list bytes) :
  forall (c : Old.SerialCollector) (segments : list (bytes * bytes))
         (tail : bytes),
    chunks <> [] ->
    Forall (fun seg => marker_free (fst seg) = true /\
                       Old_valid_frame (snd seg) = true) segments ->
    marker_free tail = true ->
    Old._buffer c ++ concat chunks = stream segments tail ->
    0 < Old.queue_max c ->
    Z.of_nat (length (Old._data_q c)) <= Old.queue_max c ->
    snd (Old.consume_all round4 c chunks) = map snd segments.
Proof.
  induction chunks as [|chunk rest IH];
    intros c segments tail Hne Hsegs Htail Hbuf Hpos Hq; [congruence|].
  change (Old.consume_all round4 c (chunk :: rest))
    with (let (c', out) :=
              Old.consume_all round4
                (Old.after (Old_pass round4
                              (Old.set_buffer c (Old._buffer c ++ chunk)) []))
                rest in
          (c', Old.packets (Old_pass round4
                              (Old.set_buffer c (Old._buffer c ++ chunk)) [])
                 ++ out)).
  set (c1 := Old.set_buffer c (Old._buffer c ++ chunk)) in *.
  cbn [concat] in Hbuf. rewrite app_assoc in Hbuf.
  destruct rest as [|chunk2 rest].
  - cbn [concat] in Hbuf. rewrite app_nil_r in Hbuf.
    destruct (Old_pass_stream round4 segments tail c1 [] Hsegs Htail
                Hbuf Hpos Hq) as [_ [Hp _]].
    cbn [Old.consume_all snd]. rewrite Hp, app_nil_r. reflexivity.
  - destruct (Old_pass_prefix round4 segments tail c1 []
                (concat (chunk2 :: rest)) Hsegs Htail Hbuf Hpos Hq)
      as [k [segs2 [tail2 [_ [Hp [Hmap [Hv2 [Ht2 [Hb2 [Hm2 Hq2]]]]]]]]]].
    cbn [Old.queue_max Old.set_buffer c1] in Hm2, Hq2.
    pose proof (IH (Old.after (Old_pass round4 c1 [])) segs2 tail2
                   ltac:(discriminate) Hv2 Ht2 Hb2
                   ltac:(rewrite Hm2; exact Hpos)
                   ltac:(rewrite Hm2; exact Hq2)) as Hrest.
    destruct (Old.consume_all round4 (Old.after (Old_pass round4 c1 []))
                              (chunk2 :: rest)) as [c' out'].
    cbn [snd] in *. rewrite Hp, Hrest, Hmap. cbn [app].
    rewrite <- map_app, firstn_skipn. reflexivity.
Qed.

(** The new collector does so too. *)
Lemma New_consume_all_stream (chunks : list bytes)
      (c : New.SerialCollector) (segments : list (bytes * bytes))
      (tail : bytes) :
  chunks <> [] ->
  Forall (fun seg => marker_free (fst seg) = true /\
                     New_valid_frame (snd seg) = true) segments ->
  marker_free tail = true ->
  New._buffer c ++ concat chunks = stream segments tail ->
  snd (New.consume_all c chunks) = map snd segments.
Proof.
  intros Hne Hsegs Htail Hbuf.
  destruct (New_pass_stream segments tail
              (New.set_buffer c (New._buffer c ++ concat chunks)) []
              Hsegs Htail Hbuf) as [He [Hp _]].
  rewrite (New_consume_all_concat chunks c Hne He).
  cbn [snd]. exact Hp.
Qed.

(** C3 does not hold as it stands. A stretch of noise that holds a marker
    and a plausible total length takes the head of the frame behind it
    along: both collectors cut out
    50 bytes that are no frame, and never find the frame. *)
Lemma C3_noise_with_a_marker_loses_the_frame :
  let s := stream [(marker_noise, frame_one_point)] [] in
  New_valid_frame frame_one_point = true /\
  Old_valid_frame frame_one_point = true /\
  snd (New.consume_all (New.init 20000) [s]) = [take 50 s] /\
  snd (Old.consume_all (fun v => v) (Old.init 20000) [s]) = [take 50 s] /\
  [take 50 s] <> [frame_one_point].
Proof.
  cbv zeta.
  split; [vm_compute; reflexivity|].
  split; [vm_compute; reflexivity|].
  split; [vm_compute; reflexivity|].
  split; [vm_compute; reflexivity|].
  vm_compute. discriminate.
Qed.

(** C3, amended. A stream of valid frames between stretches of noise that
    hold no marker, fed in any number of chunks to a collector with an
    empty buffer, has exactly its frames cut out of it, byte for byte and
    in order. A valid frame starts with the marker and declares its own
    length as total length; the new collector wants at least 36 bytes of
    it, the old collector between 40 and 65536. *)
Theorem C3_frames_recovered_between_marker_free_noise :
  (forall (segments : list (bytes * bytes)) (tail : bytes)
          (chunks : list bytes) (c : New.SerialCollector),
      Forall (fun seg => marker_free (fst seg) = true /\
                         New_valid_frame (snd seg) = true) segments ->
      marker_free tail = true ->
      chunks <> [] ->
      concat chunks = stream segments tail ->
      New._buffer c = [] ->
      snd (New.consume_all c chunks) = map snd segments) /\
  (forall (round4 : float -> float)
          (segments : list (bytes * bytes)) (tail : bytes)
          (chunks : list bytes) (c : Old.SerialCollector),
      Forall (fun seg => marker_free (fst seg) = true /\
                         Old_valid_frame (snd seg) = true) segments ->
      marker_free tail = true ->
      chunks <> [] ->
      concat chunks = stream segments tail ->
      Old._buffer c = [] ->
      0 < Old.queue_max c ->
      Z.of_nat (length (Old._data_q c)) <= Old.queue_max c ->
      snd (Old.consume_all round4 c chunks) = map snd segments).
Proof.
  split.
  - intros segments tail chunks c Hsegs Htail Hne Hconcat Hbuf.
    apply (New_consume_all_stream chunks c segments tail Hne Hsegs Htail).
    rewrite Hbuf. exact Hconcat.
  - intros round4 segments tail chunks c Hsegs Htail Hne Hconcat Hbuf
           Hpos Hq.
    apply (Old_consume_all_stream round4 chunks c segments tail
             Hne Hsegs Htail); [|exact Hpos|exact Hq].
    rewrite Hbuf. exact Hconcat.
Qed.

Lemma C3_frames_recovered_between_marker_free_noise_witness :
  concat stream_chunks = two_frame_stream /\
  snd (New.consume_all (New.init 20000) stream_chunks)
  = [frame_one_point; frame_one_point] /\
  snd (Old.consume_all (fun v => v) (Old.init 20000) stream_chunks)
  = [frame_one_point; frame_one_point].
Proof.
  destruct C3_frames_recovered_between_marker_free_noise as [HN HO].
  split; [vm_compute; reflexivity|]. split.
  - apply (HN two_frames [x07] stream_chunks (New.init 20000));
      [ repeat constructor | reflexivity | discriminate
      | vm_compute; reflexivity | reflexivity ].
  - apply (HO (fun v => v) two_frames [x07] stream_chunks (Old.init 20000));
      [ repeat constructor | reflexivity | discriminate
      | vm_compute; reflexivity | reflexivity | reflexivity
      | discriminate ].
Defined.

(** * Further properties *)

(** ** The queue: what is put, what is kept, what is drained *)

Lemma lastn_all {A : Type} (n : nat) (l : list A) :
  (length l <= n)%nat -> lastn n l = l.
Proof.
  intros H. unfold lastn. replace (length l - n)%nat with 0%nat by lia.
  reflexivity.
Qed.

Lemma lastn_length {A : Type} (n : nat) (l : list A) :
  length (lastn n l) = Nat.min n (length l).
Proof. unfold lastn. rewrite length_skipn. lia. Qed.

(** Keeping the last [n] as one goes is keeping the last [n] of all. *)
Lemma lastn_app_lastn {A : Type} (n : nat) (a b : list A) :
  lastn n (lastn n a ++ b) = lastn n (a ++ b).
Proof.
  unfold lastn. rewrite !length_app, length_skipn, !skipn_app, length_skipn.
  rewrite skipn_skipn.
  destruct (le_lt_dec (length a) n) as [Ha|Ha].
  - replace (length a - n)%nat with 0%nat by lia. cbn [skipn].
    rewrite !Nat.sub_0_r, Nat.add_0_r. reflexivity.
  - f_equal.
    + destruct (le_lt_dec (length b) n) as [Hb|Hb].
      * f_equal. lia.
      * rewrite !skipn_all2 by lia. reflexivity.
    + f_equal. lia.
Qed.

Section NewQueue.

Local Open Scope nat_scope.

Lemma New_get_loop_spec (max_items : Z) (q : list New.MovingObject) :
forall items : list New.MovingObject,
  New.get_loop max_items q items =
  (items ++ firstn (Z.to_nat max_items - length items) q,
   skipn (Z.to_nat max_items - length items) q).
Proof.
induction q as [|o q IH]; intros items; cbn [New.get_loop].
- destruct (_ <? _)%Z; rewrite firstn_nil, skipn_nil, app_nil_r;
    reflexivity.
- destruct (Z.of_nat (length items) <? max_items)%Z eqn:E.
  + apply Z.ltb_lt in E. rewrite IH, length_app. cbn [length].
    replace (Z.to_nat max_items - length items)
      with (S (Z.to_nat max_items - (length items + 1))) by lia.
    cbn [firstn skipn]. rewrite <- app_assoc. reflexivity.
  + apply Z.ltb_ge in E.
    replace (Z.to_nat max_items - length items) with 0 by lia.
    cbn [firstn skipn]. rewrite app_nil_r. reflexivity.
Qed.

Lemma New_put_all_spec (N : Z) (objs : list New.MovingObject) :
forall q : list New.MovingObject,
  (0 < N)%Z -> (Z.of_nat (length q) <= N)%Z ->
  New.put_all N q objs = q ++ firstn (Z.to_nat N - length q) objs.
Proof.
induction objs as [|o objs IH]; intros q HN Hq.
- rewrite firstn_nil, app_nil_r. reflexivity.
- change (New.put_all N q (o :: objs))
    with (New.put_all N (New.put N q o) objs).
  unfold New.put, New.full.
  replace (0 <? N)%Z with true by (symmetry; apply Z.ltb_lt; lia).
  cbn [andb]. destruct (N <=? Z.of_nat (length q))%Z eqn:E.
  + apply Z.leb_le in E. rewrite (IH q HN Hq).
    replace (Z.to_nat N - length q) with 0 by lia. reflexivity.
  + apply Z.leb_gt in E. rewrite IH; [|exact HN|rewrite length_app; simpl; lia].
    rewrite length_app. cbn [length].
    replace (Z.to_nat N - length q)
      with (S (Z.to_nat N - (length q + 1))) by lia.
    cbn [firstn]. rewrite <- app_assoc. reflexivity.
Qed.

Lemma New_put_all_unbounded (N : Z) (objs : list New.MovingObject) :
forall q : list New.MovingObject,
  (N <= 0)%Z -> New.put_all N q objs = q ++ objs.
Proof.
induction objs as [|o objs IH]; intros q HN.
- rewrite app_nil_r. reflexivity.
- change (New.put_all N q (o :: objs))
    with (New.put_all N (New.put N q o) objs).
  unfold New.put, New.full.
  replace (0 <? N)%Z with false by (symmetry; apply Z.ltb_ge; lia).
  cbn [andb]. rewrite (IH _ HN), <- app_assoc. reflexivity.
Qed.

End NewQueue.

Section OldQueue.

Local Open Scope nat_scope.

Lemma Old_get_loop_spec (max_items : Z) (q : list Old.MovingObject) :
forall items : list Old.MovingObject,
  Old.get_loop max_items q items =
  (items ++ firstn (Z.to_nat max_items - length items) q,
   skipn (Z.to_nat max_items - length items) q).
Proof.
induction q as [|o q IH]; intros items; cbn [Old.get_loop].
- destruct (_ <? _)%Z; rewrite firstn_nil, skipn_nil, app_nil_r;
    reflexivity.
- destruct (Z.of_nat (length items) <? max_items)%Z eqn:E.
  + apply Z.ltb_lt in E. rewrite IH, length_app. cbn [length].
    replace (Z.to_nat max_items - length items)
      with (S (Z.to_nat max_items - (length items + 1))) by lia.
    cbn [firstn skipn]. rewrite <- app_assoc. reflexivity.
  + apply Z.ltb_ge in E.
    replace (Z.to_nat max_items - length items) with 0 by lia.
    cbn [firstn skipn]. rewrite app_nil_r. reflexivity.
Qed.

Lemma Old_put_spec (N : Z) (q : list Old.MovingObject)
    (o : Old.MovingObject) :
(0 < N)%Z -> (Z.of_nat (length q) <= N)%Z ->
Old.put N q o = (lastn (Z.to_nat N) (q ++ [o]), true).
Proof.
intros HN Hq. unfold Old.put, Old.full.
replace (0 <? N)%Z with true by (symmetry; apply Z.ltb_lt; lia).
cbn [andb]. destruct (N <=? Z.of_nat (length q))%Z eqn:E.
- apply Z.leb_le in E. destruct q as [|a q]; cbn [length] in *; [lia|].
  replace (N <=? Z.of_nat (length q))%Z with false
    by (symmetry; apply Z.leb_gt; lia).
  unfold lastn. cbn [app length]. rewrite length_app. cbn [length].
  replace (S (length q + 1) - Z.to_nat N) with 1 by lia. reflexivity.
- apply Z.leb_gt in E. rewrite lastn_all; [reflexivity|].
  rewrite length_app. cbn [length]. lia.
Qed.

Lemma Old_put_all_spec (N : Z) (objs : list Old.MovingObject) :
forall q : list Old.MovingObject,
  (0 < N)%Z -> (Z.of_nat (length q) <= N)%Z ->
  Old.put_all N q objs = (lastn (Z.to_nat N) (q ++ objs), true).
Proof.
induction objs as [|o objs IH]; intros q HN Hq.
- cbn [Old.put_all]. rewrite app_nil_r, lastn_all by lia. reflexivity.
- cbn [Old.put_all]. rewrite (Old_put_spec N q o HN Hq).
  rewrite IH; [|exact HN|rewrite lastn_length; lia].
  rewrite lastn_app_lastn, <- app_assoc. reflexivity.
Qed.

Lemma Old_put_all_unbounded (N : Z) (objs : list Old.MovingObject) :
forall q : list Old.MovingObject,
  (N <= 0)%Z -> Old.put_all N q objs = (q ++ objs, true).
Proof.
induction objs as [|o objs IH]; intros q HN.
- rewrite app_nil_r. reflexivity.
- cbn [Old.put_all]. unfold Old.put, Old.full.
  replace (0 <? N)%Z with false by (symmetry; apply Z.ltb_ge; lia).
  cbn [andb]. rewrite (IH _ HN), <- app_assoc. reflexivity.
Qed.

End OldQueue.

(** X1. [get_latest(max_items)] hands out the oldest members of the queue,
    in the order they were put, as many as [max_items] allows and the queue
    holds, and leaves the others in the queue: nothing is lost, nothing
    comes twice. Both collectors. *)
Theorem X1_get_latest_drains_oldest_first :
  (forall (max_items : Z) (c : New.SerialCollector),
      New.get_latest max_items c =
      (firstn (Z.to_nat max_items) (New._data_q c),
       New.set_queue c (skipn (Z.to_nat max_items) (New._data_q c)))) /\
  (forall (max_items : Z) (c : Old.SerialCollector),
      Old.get_latest max_items c =
      (firstn (Z.to_nat max_items) (Old._data_q c),
       Old.set_queue c (skipn (Z.to_nat max_items) (Old._data_q c)))).
Proof.
  split; intros max_items c.
  - unfold New.get_latest. rewrite New_get_loop_spec.
    cbn [length app]. rewrite Nat.sub_0_r. reflexivity.
  - unfold Old.get_latest. rewrite Old_get_loop_spec.
    cbn [length app]. rewrite Nat.sub_0_r. reflexivity.
Qed.

(** X2. The new collector serves a burst first come, first kept: of the
    detections of one packet it queues those for which there is room, in
    order, and drops the later ones. *)
Theorem X2_new_queue_keeps_the_first_arrivals
        (N : Z) (q objs : list New.MovingObject) :
  0 < N -> Z.of_nat (length q) <= N ->
  New.put_all N q objs = q ++ firstn (Z.to_nat N - length q) objs.
Proof.
  intros HN. revert q.
  induction objs as [|o objs IH]; intros q Hq.
  - rewrite firstn_nil, app_nil_r. reflexivity.
  - change (New.put_all N q (o :: objs))
      with (New.put_all N (New.put N q o) objs).
    unfold New.put, New.full.
    replace (0 <? N) with true by (symmetry; apply Z.ltb_lt; lia).
    cbn [andb]. destruct (N <=? Z.of_nat (length q)) eqn:E.
    + (* the queue is full: the arrival is dropped *)
      apply Z.leb_le in E. rewrite (IH q Hq).
      replace (Z.to_nat N - length q)%nat with 0%nat by lia. reflexivity.
    + (* there is room: the arrival is queued *)
      apply Z.leb_gt in E.
      rewrite IH by (rewrite length_app; cbn [length]; lia).
      rewrite length_app. cbn [length].
      replace (Z.to_nat N - length q)%nat
        with (S (Z.to_nat N - (length q + 1)))%nat by lia.
      cbn [firstn]. rewrite <- app_assoc. reflexivity.
Qed.

(** X3. The old collector keeps a sliding window: after the detections of
    one packet its queue holds the last [N] of what it held followed by the
    arrivals, and no [queue.Full] escapes. *)
Theorem X3_old_queue_keeps_the_last_arrivals
        (N : Z) (q objs : list Old.MovingObject) :
  0 < N -> Z.of_nat (length q) <= N ->
  Old.put_all N q objs = (lastn (Z.to_nat N) (q ++ objs), true).
Proof.
  intros HN. revert q.
  induction objs as [|o objs IH]; intros q Hq.
  - cbn [Old.put_all]. rewrite app_nil_r, lastn_all by lia. reflexivity.
  - cbn [Old.put_all].
    (* one arrival: the oldest member makes room when the queue is full *)
    assert (Hput : Old.put N q o = (lastn (Z.to_nat N) (q ++ [o]), true)).
    { unfold Old.put, Old.full.
      replace (0 <? N) with true by (symmetry; apply Z.ltb_lt; lia).
      cbn [andb]. destruct (N <=? Z.of_nat (length q)) eqn:E.
      - apply Z.leb_le in E. destruct q as [|a q]; cbn [length] in *; [lia|].
        replace (N <=? Z.of_nat (length q)) with false
          by (symmetry; apply Z.leb_gt; lia).
        unfold lastn. cbn [app length]. rewrite length_app. cbn [length].
        replace (S (length q + 1) - Z.to_nat N)%nat with 1%nat by lia.
        reflexivity.
      - apply Z.leb_gt in E. rewrite lastn_all; [reflexivity|].
        rewrite length_app. cbn [length]. lia. }
    rewrite Hput, IH by (rewrite lastn_length; lia).
    rewrite lastn_app_lastn, <- app_assoc. reflexivity.
Qed.

(** X4. A collector built with [queue_max <= 0] has a queue without bound:
    every detection is queued, in order. *)
Theorem X4_queue_without_bound (N : Z) :
  N <= 0 ->
  (forall q objs : list New.MovingObject, New.put_all N q objs = q ++ objs) /\
  (forall q objs : list Old.MovingObject,
      Old.put_all N q objs = (q ++ objs, true)).
Proof.
  intros HN. split; intros q objs.
  - apply New_put_all_unbounded, HN.
  - apply Old_put_all_unbounded, HN.
Qed.

Lemma X2_new_queue_keeps_the_first_arrivals_witness :
  New.put_all 2 [new_obj 1] [new_obj 2; new_obj 3; new_obj 4]
  = [new_obj 1; new_obj 2].
Proof.
  apply (X2_new_queue_keeps_the_first_arrivals
           2 [new_obj 1] [new_obj 2; new_obj 3; new_obj 4]);
    [reflexivity | discriminate].
Defined.

Lemma X3_old_queue_keeps_the_last_arrivals_witness :
  Old.put_all 2 [old_obj 1] [old_obj 2; old_obj 3; old_obj 4]
  = ([old_obj 3; old_obj 4], true).
Proof.
  apply (X3_old_queue_keeps_the_last_arrivals
           2 [old_obj 1] [old_obj 2; old_obj 3; old_obj 4]);
    [reflexivity | discriminate].
Defined.

Lemma X4_queue_without_bound_witness :
  New.put_all 0 [new_obj 1] [new_obj 2; new_obj 3]
  = [new_obj 1; new_obj 2; new_obj 3].
Proof.
  apply (proj1 (X4_queue_without_bound 0 ltac:(discriminate))).
Defined.

(** ** A pass over the buffer: how it ends and what it leaves *)

(** A turn of the new loop raises only on a packet too short for the two
    counts of its header. *)
Lemma New_process_step_error (c : New.SerialCollector) (out : list bytes)
      (r : New.processed) :
  New.process_step c out = inl r ->
  New.ended r = New.StructError ->
  exists p, New.packets r = out ++ [p] /\ len p < 36.
Proof.
  unfold New.process_step.
  destruct (find MAGIC_WORD (New._buffer c)) as [idx|];
    [|intros [= <-]; discriminate].
  cbn [New._buffer New.set_buffer].
  destruct (unpack_u32 _ 8) as [hl|] eqn:Ehl; [|intros [= <-]; discriminate].
  destruct (unpack_u32 _ 12) as [total|]; [|intros [= <-]; discriminate].
  destruct (_ <? total); [intros [= <-]; discriminate|].
  destruct (New._parse_packet _ hl) as [objs|] eqn:Ep; [discriminate|].
  intros [= <-] _. eexists. split; [reflexivity|].
  destruct (Z_lt_le_dec (len (take total (skipn idx (New._buffer c)))) 36)
    as [Hlt|Hge]; [exact Hlt|exfalso].
  destruct (unpack_u32_bound _ _ _ Ehl) as [_ [_ Hhl]].
  destruct (New_parse_packet_total _ hl Hhl Hge) as [objs Hobjs].
  congruence.
Qed.

Lemma New_pass_error (n : nat) :
  forall (c : New.SerialCollector) (out : list bytes),
    (length (New._buffer c) < n)%nat ->
    New.ended (New_pass c out) = New.StructError ->
    exists ps p, New.packets (New_pass c out) = ps ++ [p] /\ len p < 36.
Proof.
  induction n as [|n IH]; intros c out Hn; [lia|].
  rewrite New_pass_unfold.
  pose proof (New_process_step_shrinks c out) as Hshr.
  destruct (New.process_step c out) as [r|[c' out']] eqn:Es.
  - intros He. destruct (New_process_step_error c out r Es He) as [p [Hp Hl]].
    exists out, p. auto.
  - apply IH. lia.
Qed.

(** A turn that leaves the new loop by [break] leaves a buffer on which the
    next turn leaves the loop at once. *)
Lemma New_process_step_settled (c : New.SerialCollector)
      (out out' : list bytes) (r : New.processed) :
  New.process_step c out = inl r ->
  New.ended r = New.Break ->
  New.process_step (New.after r) out'
  = inl (New.mkProcessed New.Break (New.after r) out').
Proof.
  unfold New.process_step at 1.
  destruct (find MAGIC_WORD (New._buffer c)) as [idx|] eqn:F.
  2:{ intros [= <-] _. cbn [New.after]. unfold New.process_step.
      rewrite F. reflexivity. }
  cbn [New._buffer New.set_buffer].
  assert (F0 : find MAGIC_WORD (skipn idx (New._buffer c)) = Some 0%nat)
    by (apply find_at_start, (find_bound _ _ _ F)).
  destruct (unpack_u32 _ 8) as [hl|] eqn:Ehl.
  2:{ intros [= <-] _. cbn [New.after]. unfold New.process_step.
      cbn [New._buffer New.set_buffer]. rewrite F0. cbn [skipn].
      rewrite Ehl. reflexivity. }
  destruct (unpack_u32 _ 12) as [total|] eqn:Et.
  2:{ intros [= <-] _. cbn [New.after]. unfold New.process_step.
      cbn [New._buffer New.set_buffer]. rewrite F0. cbn [skipn].
      rewrite Ehl, Et. reflexivity. }
  destruct (_ <? total) eqn:El.
  { intros [= <-] _. cbn [New.after]. unfold New.process_step.
    cbn [New._buffer New.set_buffer]. rewrite F0. cbn [skipn].
    rewrite Ehl, Et, El. reflexivity. }
  destruct (New._parse_packet _ hl); [discriminate|].
  intros [= <-]. discriminate.
Qed.

Lemma New_pass_settled (n : nat) :
  forall (c : New.SerialCollector) (out : list bytes),
    (length (New._buffer c) < n)%nat ->
    New.ended (New_pass c out) = New.Break ->
    New._process_buffer (New.after (New_pass c out))
    = New.mkProcessed New.Break (New.after (New_pass c out)) [].
Proof.
  induction n as [|n IH]; intros c out Hn; [lia|].
  rewrite New_pass_unfold.
  pose proof (New_process_step_shrinks c out) as Hshr.
  destruct (New.process_step c out) as [r|[c' out']] eqn:Es.
  - intros He. change (New._process_buffer (New.after r))
      with (New_pass (New.after r) []).
    rewrite New_pass_unfold.
    rewrite (New_process_step_settled c out [] r Es He). reflexivity.
  - apply IH. lia.
Qed.

(** The same for the old loop. *)
Lemma Old_process_step_settled (round4 : float -> float)
      (c : Old.SerialCollector) (out out' : list bytes)
      (r : Old.processed) :
  Old.process_step round4 c out = inl r ->
  Old.ended r = Old.Break ->
  Old.process_step round4 (Old.after r) out'
  = inl (Old.mkProcessed Old.Break (Old.after r) out') /\
  len (Old._buffer (Old.after r)) < 65536.
Proof.
  unfold Old.process_step at 1.
  change (2 * 1024) with 2048. change (length MAGIC_WORD * 2)%nat with 16%nat.
  destruct (find MAGIC_WORD (Old._buffer c)) as [idx|] eqn:F.
  2:{ destruct (len (Old._buffer c) >? 2048) eqn:E; intros [= <-] _;
        cbn [Old.after Old._buffer Old.set_buffer].
      - assert (Hl : len (Old.last_bytes 16 (Old._buffer c)) <= 16).
        { unfold Old.last_bytes, len. rewrite length_skipn. lia. }
        split; [|lia]. unfold Old.process_step.
        cbn [Old._buffer Old.set_buffer]. unfold Old.last_bytes at 1 2.
        rewrite (find_suffix_none _ _ _ F).
        fold (Old.last_bytes 16 (Old._buffer c)).
        replace (len (Old.last_bytes 16 (Old._buffer c)) >? 2 * 1024)
          with false by lia.
        reflexivity.
      - split; [|lia]. unfold Old.process_step. rewrite F.
        change (2 * 1024) with 2048. rewrite E. reflexivity. }
  cbn [Old._buffer Old.set_buffer].
  assert (F0 : find MAGIC_WORD (skipn idx (Old._buffer c)) = Some 0%nat)
    by (apply find_at_start, (find_bound _ _ _ F)).
  destruct (_ <? 40) eqn:E40.
  { intros [= <-] _. cbn [Old.after Old._buffer Old.set_buffer].
    split; [|lia]. unfold Old.process_step.
    cbn [Old._buffer Old.set_buffer]. rewrite F0. cbn [skipn].
    rewrite E40. reflexivity. }
  destruct (unpack_u32 _ 12) as [total|] eqn:Et; [|discriminate].
  destruct (_ || _) eqn:Eor; [discriminate|].
  destruct (_ <? total) eqn:El.
  { intros [= <-] _. cbn [Old.after Old._buffer Old.set_buffer].
    apply orb_false_iff in Eor. destruct Eor as [E0 E64].
    split; [|lia]. unfold Old.process_step.
    cbn [Old._buffer Old.set_buffer]. rewrite F0. cbn [skipn].
    rewrite E40, Et, E0, E64, El. reflexivity. }
  destruct (Old._parse_packet round4 _); [|intros [= <-]; discriminate].
  destruct (Old.put_all _ _ _) as [q [|]];
    [discriminate|intros [= <-]; discriminate].
Qed.

Lemma Old_pass_settled (round4 : float -> float) (n : nat) :
  forall (c : Old.SerialCollector) (out : list bytes),
    (length (Old._buffer c) < n)%nat ->
    Old.ended (Old_pass round4 c out) = Old.Break ->
    Old._process_buffer round4 (Old.after (Old_pass round4 c out))
    = Old.mkProcessed Old.Break (Old.after (Old_pass round4 c out)) [] /\
    len (Old._buffer (Old.after (Old_pass round4 c out))) < 65536.
Proof.
  induction n as [|n IH]; intros c out Hn; [lia|].
  rewrite Old_pass_unfold.
  pose proof (Old_process_step_shrinks round4 c out) as Hshr.
  destruct (Old.process_step round4 c out) as [r|[c' out']] eqn:Es.
  - intros He.
    destruct (Old_process_step_settled round4 c out [] r Es He) as [Hs Hl].
    split; [|exact Hl].
    change (Old._process_buffer round4 (Old.after r))
      with (Old_pass round4 (Old.after r) []).
    rewrite Old_pass_unfold, Hs. reflexivity.
  - apply IH. lia.
Qed.

(** With its queue within a positive capacity, a pass of the old collector
    ends by [break]. *)
Lemma Old_pass_breaks (round4 : float -> float) (c : Old.SerialCollector)
      (out : list bytes) :
  0 < Old.queue_max c ->
  Z.of_nat (length (Old._data_q c)) <= Old.queue_max c ->
  Old.ended (Old_pass round4 c out) = Old.Break.
Proof.
  intros Hpos Hq.
  pose proof (Old_process_loop_ends round4 _ c out (Nat.lt_succ_diag_r _))
    as Hfuel.
  destruct (Old_process_loop_queue_bound round4
              (S (length (Old._buffer c))) c out Hpos Hq) as [_ [_ Hfull]].
  unfold Old_pass.
  destruct (Old.ended (Old.process_loop round4 _ c out));
    [reflexivity|congruence|congruence].
Qed.

(** X5. The [while True] loop of [_process_buffer] comes to an end on every
    buffer. The new collector leaves it by [break], or by the [struct.error]
    of [_parse_packet] on a packet of fewer than 36 bytes, the last one cut
    out; the old collector, its queue within a positive capacity, always
    leaves it by [break]. *)
Theorem X5_process_buffer_terminates :
  (forall c : New.SerialCollector,
      New.ended (New._process_buffer c) = New.Break \/
      (New.ended (New._process_buffer c) = New.StructError /\
       exists ps p, New.packets (New._process_buffer c) = ps ++ [p] /\
                    len p < 36)) /\
  (forall (round4 : float -> float) (c : Old.SerialCollector),
      0 < Old.queue_max c ->
      Z.of_nat (length (Old._data_q c)) <= Old.queue_max c ->
      Old.ended (Old._process_buffer round4 c) = Old.Break).
Proof.
  split.
  - intros c. change (New._process_buffer c) with (New_pass c []).
    pose proof (New_process_loop_ends _ c [] (Nat.lt_succ_diag_r _)) as Hfuel.
    fold (New_pass c []) in Hfuel.
    destruct (New.ended (New_pass c [])) eqn:E.
    + left. reflexivity.
    + right. split; [reflexivity|].
      apply (New_pass_error _ c [] (Nat.lt_succ_diag_r _) E).
    + congruence.
  - intros round4 c Hpos Hq. apply (Old_pass_breaks round4 c [] Hpos Hq).
Qed.

Lemma X5_process_buffer_terminates_witness :
  Old.ended (Old._process_buffer (fun v => v)
               (Old.set_buffer (Old.init 20000) two_frame_stream))
  = Old.Break.
Proof.
  apply (proj2 X5_process_buffer_terminates (fun v => v)
               (Old.set_buffer (Old.init 20000) two_frame_stream));
    [reflexivity|discriminate].
Defined.

(** X6. [_process_buffer] settles the buffer: run again right after a pass
    that ended by [break], it cuts out nothing and changes nothing. Both
    collectors. *)
Theorem X6_process_buffer_twice_is_once :
  (forall c : New.SerialCollector,
      New.ended (New._process_buffer c) = New.Break ->
      New._process_buffer (New.after (New._process_buffer c))
      = New.mkProcessed New.Break (New.after (New._process_buffer c)) []) /\
  (forall (round4 : float -> float) (c : Old.SerialCollector),
      Old.ended (Old._process_buffer round4 c) = Old.Break ->
      Old._process_buffer round4 (Old.after (Old._process_buffer round4 c))
      = Old.mkProcessed Old.Break
                        (Old.after (Old._process_buffer round4 c)) []).
Proof.
  split.
  - intros c He.
    apply (New_pass_settled _ c [] (Nat.lt_succ_diag_r _) He).
  - intros round4 c He.
    apply (Old_pass_settled round4 _ c [] (Nat.lt_succ_diag_r _) He).
Qed.

Lemma X6_process_buffer_twice_is_once_witness :
  let c := New.set_buffer (New.init 20000) (firstn 100 two_frame_stream) in
  New.ended (New._process_buffer c) = New.Break /\
  New.packets (New._process_buffer c) = [frame_one_point] /\
  New._process_buffer (New.after (New._process_buffer c))
  = New.mkProcessed New.Break (New.after (New._process_buffer c)) [].
Proof.
  cbv zeta. split; [vm_compute; reflexivity|].
  split; [vm_compute; reflexivity|].
  apply (proj1 X6_process_buffer_twice_is_once). vm_compute. reflexivity.
Defined.

(** X7. Whatever bytes arrive, the old collector, its queue within a
    positive capacity, ends its turn of the read loop with fewer than 65536
    bytes in its buffer, and with its queue still within capacity. *)
Theorem X7_old_buffer_stays_below_64k
        (round4 : float -> float) (c : Old.SerialCollector) (chunk : bytes) :
  0 < Old.queue_max c ->
  Z.of_nat (length (Old._data_q c)) <= Old.queue_max c ->
  Old.ended (Old.consume round4 c chunk) = Old.Break /\
  len (Old._buffer (Old.after (Old.consume round4 c chunk))) < 65536 /\
  Old.queue_max (Old.after (Old.consume round4 c chunk)) = Old.queue_max c /\
  Z.of_nat (length (Old._data_q (Old.after (Old.consume round4 c chunk))))
  <= Old.queue_max c.
Proof.
  intros Hpos Hq.
  set (c1 := Old.set_buffer c (Old._buffer c ++ chunk)).
  change (Old.consume round4 c chunk) with (Old_pass round4 c1 []).
  assert (He : Old.ended (Old_pass round4 c1 []) = Old.Break)
    by (apply Old_pass_breaks; assumption).
  split; [exact He|].
  split; [apply (Old_pass_settled round4 _ c1 [] (Nat.lt_succ_diag_r _) He)|].
  destruct (Old_process_loop_queue_bound round4
              (S (length (Old._buffer c1))) c1 [] Hpos Hq) as [Hm [Hb _]].
  split; [exact Hm|exact Hb].
Qed.

Lemma X7_old_buffer_stays_below_64k_witness :
  len (Old._buffer (Old.after (Old.consume (fun v => v) (Old.init 20000)
                                           noise_3000))) < 65536.
Proof.
  apply (X7_old_buffer_stays_below_64k (fun v => v) (Old.init 20000)
                                       noise_3000);
    [reflexivity|discriminate].
Defined.

(** ** The reader thread *)

(** A pass touches the buffer and the queue, nothing else. *)
Lemma New_process_step_keeps_control (c : New.SerialCollector)
      (out : list bytes) :
  match New.process_step c out with
  | inl r =>
    New._ser_data (New.after r) = New._ser_data c /\
    New._thread (New.after r) = New._thread c /\
    New._stop_event (New.after r) = New._stop_event c
  | inr (c', _) =>
    New._ser_data c' = New._ser_data c /\
    New._thread c' = New._thread c /\
    New._stop_event c' = New._stop_event c
  end.
Proof.
  unfold New.process_step.
  destruct (find MAGIC_WORD (New._buffer c)) as [idx|]; cbn; [|auto].
  destruct (unpack_u32 _ 8) as [hl|]; cbn; [|auto].
  destruct (unpack_u32 _ 12) as [total|]; cbn; [|auto].
  destruct (_ <? total); cbn; [auto|].
  destruct (New._parse_packet _ hl); cbn; auto.
Qed.

Lemma New_process_loop_keeps_control (fuel : nat) :
  forall (c : New.SerialCollector) (out : list bytes),
    New._ser_data (New.after (New.process_loop fuel c out)) = New._ser_data c /\
    New._thread (New.after (New.process_loop fuel c out)) = New._thread c /\
    New._stop_event (New.after (New.process_loop fuel c out))
    = New._stop_event c.
Proof.
  induction fuel as [|fuel IH]; intros c out; cbn [New.process_loop].
  - auto.
  - pose proof (New_process_step_keeps_control c out) as Hs.
    destruct (New.process_step c out) as [r|[c' out']]; [exact Hs|].
    destruct Hs as [H1 [H2 H3]]. destruct (IH c' out') as [H4 [H5 H6]].
    rewrite H4, H5, H6. auto.
Qed.

Lemma New_consume_keeps_control (c : New.SerialCollector) (chunk : bytes) :
  New._ser_data (New.after (New.consume c chunk)) = New._ser_data c /\
  New._thread (New.after (New.consume c chunk)) = New._thread c /\
  New._stop_event (New.after (New.consume c chunk)) = New._stop_event c.
Proof.
  unfold New.consume, New._process_buffer.
  apply (New_process_loop_keeps_control _ (New.set_buffer c _) []).
Qed.

Lemma New_read_loop_stopped (events : list New.read_event)
      (c : New.SerialCollector) :
  New._stop_event c = true ->
  New._read_loop events c = (New.thread_over c, false).
Proof. intros H. destruct events; cbn [New._read_loop]; rewrite H; auto. Qed.

(** X8. A [SerialException] ends the reader for good: the stop event is
    set, the thread is over, [running()] is false, and nothing that the
    port offers afterwards reaches the buffer; the loop does not try
    again. *)
Theorem X8_serial_exception_ends_the_reader
        (before later : list New.read_event) :
  forall c : New.SerialCollector,
    New._ser_data c <> None ->
    New._read_loop (before ++ New.SerialException :: later) c
    = New._read_loop (before ++ [New.SerialException]) c /\
    snd (New._read_loop (before ++ New.SerialException :: later) c) = false /\
    New._stop_event
      (fst (New._read_loop (before ++ New.SerialException :: later) c))
    = true /\
    New.running
      (fst (New._read_loop (before ++ New.SerialException :: later) c))
    = false.
Proof.
  induction before as [|e before IH]; intros c Hser.
  - cbn [app]. destruct (New._stop_event c) eqn:Hstop.
    + rewrite !New_read_loop_stopped by exact Hstop. cbn [fst snd].
      repeat split; [exact Hstop|].
      unfold New.running, New.thread_over. cbn.
      destruct (New._thread c); reflexivity.
    + cbn [New._read_loop]. rewrite Hstop.
      destruct (New._ser_data c) eqn:Es; [|congruence].
      rewrite !New_read_loop_stopped by reflexivity. cbn [fst snd].
      repeat split. unfold New.running, New.thread_over. cbn.
      destruct (New._thread c); reflexivity.
  - cbn [app]. destruct (New._stop_event c) eqn:Hstop.
    + rewrite !New_read_loop_stopped by exact Hstop. cbn [fst snd].
      repeat split; [exact Hstop|].
      unfold New.running, New.thread_over. cbn.
      destruct (New._thread c); reflexivity.
    + cbn [New._read_loop]. rewrite Hstop.
      destruct (New._ser_data c) eqn:Es; [|congruence].
      destruct e.
      * apply IH. destruct (New_consume_keeps_control c chunk) as [-> _].
        congruence.
      * apply IH. congruence.
      * rewrite !New_read_loop_stopped by reflexivity. cbn [fst snd].
        repeat split. unfold New.running, New.thread_over. cbn.
        destruct (New._thread c); reflexivity.
      * apply IH. congruence.
Qed.

(** X9. While the port holds, the reader is the chunks it reads, fed one
    after the other: turns that find nothing waiting and exceptions other
    than [SerialException] change nothing. *)
Theorem X9_reader_feeds_the_chunks_it_reads
        (events : list New.read_event) :
  forall c : New.SerialCollector,
    port_holds events = true ->
    New._stop_event c = false ->
    New._ser_data c <> None ->
    New._read_loop events c
    = (fst (New.consume_all c (chunks_of events)), true).
Proof.
  induction events as [|e events IH]; intros c Hok Hstop Hser.
  - cbn [New._read_loop chunks_of New.consume_all fst]. rewrite Hstop.
    reflexivity.
  - cbn [New._read_loop]. rewrite Hstop.
    destruct (New._ser_data c) eqn:Es; [|congruence].
    destruct e; cbn [port_holds] in Hok; try discriminate;
      cbn [chunks_of].
    + destruct (New_consume_keeps_control c chunk) as [H1 [_ H3]].
      rewrite IH; [|exact Hok|congruence|congruence].
      cbn [New.consume_all].
      destruct (New.consume_all (New.after (New.consume c chunk))
                                (chunks_of events)) as [c' out].
      reflexivity.
    + apply IH; [exact Hok|exact Hstop|congruence].
    + apply IH; [exact Hok|exact Hstop|congruence].
Qed.

Lemma X8_serial_exception_ends_the_reader_witness :
  New._ser_data started_collector <> None /\
  New.running
    (fst (New._read_loop
            ([New.Waiting frame_one_point]
               ++ New.SerialException :: [New.Waiting frame_one_point])
            started_collector)) = false.
Proof.
  split; [discriminate|].
  apply (X8_serial_exception_ends_the_reader
           [New.Waiting frame_one_point] [New.Waiting frame_one_point]
           started_collector).
  discriminate.
Defined.

Lemma X9_reader_feeds_the_chunks_it_reads_witness :
  New._read_loop
    [New.Nothing; New.Waiting (firstn 30 frame_one_point);
     New.OtherException; New.Waiting (skipn 30 frame_one_point)]
    started_collector
  = (fst (New.consume_all started_collector
            [firstn 30 frame_one_point; skipn 30 frame_one_point]), true).
Proof.
  apply (X9_reader_feeds_the_chunks_it_reads
           [New.Nothing; New.Waiting (firstn 30 frame_one_point);
            New.OtherException; New.Waiting (skipn 30 frame_one_point)]
           started_collector);
    [reflexivity|reflexivity|discriminate].
Defined.

(** ** Life cycle of the new collector *)

(** The reader leaves the port object where it is, and a thread object
    stays a thread object. *)
Lemma New_read_loop_keeps_port (events : list New.read_event) :
  forall c : New.SerialCollector,
    New._ser_data (fst (New._read_loop events c)) = New._ser_data c /\
    (New._thread c <> None ->
     New._thread (fst (New._read_loop events c)) <> None).
Proof.
  assert (Hover : forall c : New.SerialCollector,
             New._ser_data (New.thread_over c) = New._ser_data c /\
             (New._thread c <> None ->
              New._thread (New.thread_over c) <> None)).
  { intros c. split; [reflexivity|]. unfold New.thread_over. cbn.
    destruct (New._thread c); [discriminate|auto]. }
  induction events as [|e events IH]; intros c.
  - cbn [New._read_loop]. destruct (New._stop_event c); cbn [fst];
      [apply Hover|auto].
  - cbn [New._read_loop]. destruct (New._stop_event c); cbn [fst];
      [apply Hover|].
    destruct (New._ser_data c) eqn:Es; [|rewrite <- Es; apply IH].
    destruct e.
    + destruct (New_consume_keeps_control c chunk) as [H1 [H2 _]].
      destruct (IH (New.after (New.consume c chunk))) as [H3 H4].
      rewrite H3, H1, H2 in *. split; [exact Es|exact H4].
    + destruct (IH c) as [H3 H4]. rewrite H3. split; [exact Es|exact H4].
    + destruct (IH (New.set_stop_event c)) as [H3 H4].
      rewrite H3. split; [exact Es|exact H4].
    + destruct (IH c) as [H3 H4]. rewrite H3. split; [exact Es|exact H4].
Qed.

(** X10. [start()] on a collector that is not running, then the reader
    thread for as many turns as it gets, then [stop()]: the port that was
    opened is closed, the thread that was spawned is joined and, if it left
    its loop in time, [running()] is false. [start()] and [stop()] do not
    touch the buffer and the queue: they are as [start()] found them when
    the reader starts, and after [stop()] as the reader left them. After
    [stop()], whatever the collector was, its port is not open, and one
    more [stop()] closes nothing. *)
Theorem X10_stop_releases_what_start_acquired :
  (forall (events : list New.read_event) (c : New.SerialCollector),
      New.running c = false ->
      let '(r1, c1, e1) := New.start true c in
      let reader := fst (New._read_loop events c1) in
      let '(r2, c2, e2) := New.stop true reader in
      r1 = New.Returned /\ r2 = New.Returned /\
      e1 ++ e2 = [New.OpenSerial; New.SpawnThread;
                  New.JoinThread; New.CloseSerial] /\
      New.running c2 = false /\
      New._ser_data c2 = Some (New.mkSerial false) /\
      New._buffer c1 = New._buffer c /\ New._data_q c1 = New._data_q c /\
      New._buffer c2 = New._buffer reader /\
      New._data_q c2 = New._data_q reader) /\
  (forall (exits exits' : bool) (c : New.SerialCollector),
      let '(_, c1, _) := New.stop exits c in
      let '(_, c2, e2) := New.stop exits' c1 in
      match New._ser_data c1 with
      | Some s => New.is_open s = false
      | None => True
      end /\
      ~ In New.CloseSerial e2 /\
      New._ser_data c2 = New._ser_data c1).
Proof.
  split.
  - intros events c Hrun. unfold New.start. rewrite Hrun.
    set (c1 := New.mkCollector (Some (New.mkSerial true))
                               (Some (New.mkThread true)) false
                               (New._data_q c) (New.queue_max c)
                               (New._buffer c)).
    cbv zeta.
    destruct (New_read_loop_keeps_port events c1) as [Hser Hth].
    unfold New.stop. rewrite Hser.
    destruct (New._thread (fst (New._read_loop events c1))) as [t|];
      [|exfalso; apply Hth; [discriminate|reflexivity]].
    cbn. rewrite andb_false_r. repeat split.
  - intros exits exits' c. unfold New.stop.
    destruct (New._thread c) as [t|];
      destruct (New._ser_data c) as [[[|]]|]; cbn;
        repeat split; try reflexivity; intros H;
          repeat (destruct H as [H|H]; try discriminate H); exact H.
Qed.

Lemma X10_stop_releases_what_start_acquired_witness :
  New.running (New.init 20000) = false /\
  (let '(r1, c1, e1) := New.start true (New.init 20000) in
   let reader := fst (New._read_loop [New.Waiting frame_one_point] c1) in
   let '(r2, c2, e2) := New.stop true reader in
   r1 = New.Returned /\ r2 = New.Returned /\
   e1 ++ e2 = [New.OpenSerial; New.SpawnThread;
               New.JoinThread; New.CloseSerial] /\
   New.running c2 = false /\
   New._ser_data c2 = Some (New.mkSerial false) /\
   New._buffer c1 = New._buffer (New.init 20000) /\
   New._data_q c1 = New._data_q (New.init 20000) /\
   New._buffer c2 = New._buffer reader /\
   New._data_q c2 = New._data_q reader).
Proof.
  split; [reflexivity|].
  apply (proj1 X10_stop_releases_what_start_acquired
               [New.Waiting frame_one_point] (New.init 20000)).
  reflexivity.
Defined.

(** X11. When the reader has not left its loop by the time [join] gives
    up, [stop()] closes the port all the same; [running()] is still true,
    and a [start()] after that does nothing: no port is opened, no thread
    is spawned. *)
Theorem X11_stop_that_times_out_blocks_restart
        (opens : bool) (c : New.SerialCollector) :
  New.running c = true ->
  let c1 := snd (fst (New.stop false c)) in
  New.running c1 = true /\
  match New._ser_data c1 with
  | Some s => New.is_open s = false
  | None => True
  end /\
  New.start opens c1 = (New.Returned, c1, []).
Proof.
  intros Hrun. cbv zeta. unfold New.running in Hrun.
  destruct (New._thread c) as [[alive]|] eqn:Et; [|discriminate].
  cbn in Hrun. subst alive.
  unfold New.stop. rewrite Et.
  destruct (New._ser_data c) as [[[|]]|]; cbn; repeat split.
Qed.

Lemma X11_stop_that_times_out_blocks_restart_witness :
  New.running started_collector = true /\
  New.start true (snd (fst (New.stop false started_collector)))
  = (New.Returned, snd (fst (New.stop false started_collector)), []).
Proof.
  split; [reflexivity|].
  apply (X11_stop_that_times_out_blocks_restart true started_collector
                                                eq_refl).
Defined.

(** ** The list of humans *)

Lemma label_loop_info (mean : list float -> float)
      (d : Detection.HumanDetector) (rs : list Detection.Row)
      (ids : list Z) (cids : list Z) :
  forall (labels : list Detection.Label) (info : list Detection.HumanInfo),
    snd (fold_left (fun st cid => Detection.label_cluster mean d rs ids cid st)
                   cids (labels, info))
    = info ++ map (human_entry mean rs ids)
                  (filter (fun cid => Detection._is_human_cluster
                                        d (Detection.select cid ids rs))
                          cids).
Proof.
  induction cids as [|cid cids IH]; intros labels info.
  - cbn. rewrite app_nil_r. reflexivity.
  - cbn [fold_left filter]. unfold Detection.label_cluster at 2.
    destruct (Detection._is_human_cluster d (Detection.select cid ids rs)).
    + rewrite IH. rewrite <- app_assoc. reflexivity.
    + destruct (PrimFloat.ltb _ _); rewrite IH; reflexivity.
Qed.

Lemma unique_NoDup :
  forall (l seen : list Z),
    NoDup (Detection.unique seen l) /\
    forall v, In v (Detection.unique seen l) -> In v l /\ ~ In v seen.
Proof.
  induction l as [|v l IH]; intros seen; cbn [Detection.unique].
  - split; [constructor|]. intros v [].
  - destruct (existsb (Z.eqb v) seen) eqn:Ev.
    + destruct (IH seen) as [Hn Hi]. split; [exact Hn|].
      intros w Hw. destruct (Hi w Hw) as [H1 H2].
      split; [right; exact H1|exact H2].
    + destruct (IH (v :: seen)) as [Hn Hi]. split.
      * constructor; [|exact Hn]. intros Hv.
        destruct (Hi v Hv) as [_ H2]. apply H2. left. reflexivity.
      * intros w [Hw|Hw].
        -- subst w. split; [left; reflexivity|].
           intros Hin.
           assert (existsb (Z.eqb v) seen = true) as Hex
               by (apply existsb_exists; exists v; split;
                   [exact Hin|apply Z.eqb_refl]).
           congruence.
        -- destruct (Hi w Hw) as [H1 H2].
           split; [right; exact H1|].
           intros Hin. apply H2. right. exact Hin.
Qed.

Lemma unique_clusters_In (ids : list Z) (v : Z) :
  In v (Detection.unique_clusters ids) -> In v ids /\ v <> -1.
Proof.
  intros H. unfold Detection.unique_clusters in H.
  apply (proj2 (unique_NoDup _ [])) in H. destruct H as [H _].
  apply filter_In in H. destruct H as [H1 H2].
  split; [exact H1|]. intros ->. discriminate H2.
Qed.

Lemma map_id_human_entry (mean : list float -> float)
      (rs : list Detection.Row) (ids cids : list Z) :
  map Detection.id (map (human_entry mean rs ids) cids) = cids.
Proof.
  induction cids as [|c cids IH]; [reflexivity|].
  cbn [map]. rewrite IH. reflexivity.
Qed.

(** X12. [human_info], as [process] returns it for a batch that is not
    empty, the clustering returning a cluster number for every row, has one
    entry for each cluster of the batch that passes [_is_human_cluster], in
    the order the clusters first appear among the rows and none twice;
    noise has no entry; an entry counts the rows of its cluster, at least
    one and at least [min_points_human]; and a row carries the label Human
    exactly when its cluster has an entry. *)
Theorem X12_human_info_lists_the_human_clusters
        (DBSCAN : float -> Z -> list (float * float * float)
                  -> option (list Z))
        (mean : list float -> float)
        (d : Detection.HumanDetector) (rs : list Detection.Row)
        (ids : list Z) :
  DBSCAN (Detection.eps d) (Detection.min_samples d)
         (map (fun r => (Detection.x r, Detection.y r, Detection.z r)) rs)
  = Some ids ->
  length ids = length rs ->
  exists labels info,
    Detection.classify DBSCAN mean d rs = Some (ids, labels, info) /\
    info = map (human_entry mean rs ids)
               (filter (fun cid => Detection._is_human_cluster
                                     d (Detection.select cid ids rs))
                       (Detection.unique_clusters ids)) /\
    NoDup (map Detection.id info) /\
    (forall h, In h info ->
               Detection.id h <> -1 /\
               Detection.n_points h
               = length (Detection.select (Detection.id h) ids rs) /\
               (0 < Detection.n_points h)%nat /\
               Detection.min_points_human d
               <= Z.of_nat (Detection.n_points h)) /\
    (forall (i : nat) (cid : Z),
        nth_error ids i = Some cid ->
        (nth_error labels i = Some Detection.Human <->
         In cid (map Detection.id info))).
Proof.
  intros Hdb Hlen. unfold Detection.classify. rewrite Hdb.
  pose proof (label_loop_info mean d rs ids (Detection.unique_clusters ids)
                              (map (fun _ => Detection.Clutter) rs) [])
    as Hinfo.
  pose proof (label_loop_labels mean d rs ids (Detection.unique_clusters ids)
                                (map (fun _ => Detection.Clutter) rs) [])
    as Hlab.
  rewrite length_map in Hlab. specialize (Hlab Hlen). cbv zeta in Hlab.
  destruct Hlab as [_ Hlab].
  destruct (fold_left _ (Detection.unique_clusters ids) _)
    as [labels info] eqn:Efold.
  cbn [fst snd] in Hinfo, Hlab. cbn [app] in Hinfo.
  exists labels, info. split; [reflexivity|].
  assert (Hids : map Detection.id info
                 = filter (fun cid => Detection._is_human_cluster
                                        d (Detection.select cid ids rs))
                          (Detection.unique_clusters ids)).
  { rewrite Hinfo. apply map_id_human_entry. }
  split; [exact Hinfo|]. split; [|split].
  - rewrite Hids. apply NoDup_filter.
    apply (proj1 (unique_NoDup _ [])).
  - intros h Hh. rewrite Hinfo in Hh. apply in_map_iff in Hh.
    destruct Hh as [cid [<- Hc]]. apply filter_In in Hc.
    destruct Hc as [Hc Hhum]. apply unique_clusters_In in Hc.
    destruct Hc as [Hin Hne]. cbn [human_entry Detection.id Detection.n_points].
    split; [exact Hne|]. split; [reflexivity|].
    split; [apply select_nonempty; assumption|].
    unfold Detection._is_human_cluster in Hhum.
    destruct (Z.of_nat (length (Detection.select cid ids rs))
              <? Detection.min_points_human d) eqn:E; [discriminate|].
    apply Z.ltb_ge in E. exact E.
  - intros i cid Hi. rewrite (Hlab i cid Hi).
    rewrite (unique_clusters_existsb ids i cid Hi). rewrite Hids.
    destruct (cid =? -1) eqn:E; cbn [negb].
    + apply Z.eqb_eq in E. subst cid.
      assert (Hc : nth_error (map (fun _ : Detection.Row => Detection.Clutter)
                                  rs) i = Some Detection.Clutter).
      { destruct (nth_error rs i) as [r|] eqn:Er.
        - rewrite (map_nth_error _ _ _ Er). reflexivity.
        - apply nth_error_None in Er.
          assert (i < length ids)%nat
            by (apply nth_error_Some; congruence).
          lia. }
      rewrite Hc. split; [discriminate|].
      intros Hin. apply filter_In in Hin. destruct Hin as [Hin _].
      apply unique_clusters_In in Hin. destruct Hin as [_ Hne].
      contradiction Hne. reflexivity.
    + apply Z.eqb_neq in E.
      unfold Detection.label_of, Detection.cluster_label.
      split.
      * intros Hl. apply filter_In. split.
        -- assert (Hex : existsb (Z.eqb cid) (Detection.unique_clusters ids)
                         = true).
           { rewrite (unique_clusters_existsb ids i cid Hi).
             apply Z.eqb_neq in E. rewrite E. reflexivity. }
           apply existsb_exists in Hex. destruct Hex as [v [Hv Hvc]].
           apply Z.eqb_eq in Hvc. subst v. exact Hv.
        -- destruct (Detection._is_human_cluster d _); [reflexivity|].
           destruct (PrimFloat.ltb _ _); discriminate Hl.
      * intros Hin. apply filter_In in Hin. destruct Hin as [_ Hhum].
        rewrite Hhum. reflexivity.
Qed.

Lemma X12_human_info_lists_the_human_clusters_witness :
  exists labels info,
    Detection.classify dbscan plain_mean four_point_detector figure_rows
    = Some ([0; 0; 0; 0; -1], labels, info) /\
    NoDup (map Detection.id info).
Proof.
  destruct (X12_human_info_lists_the_human_clusters
              dbscan plain_mean four_point_detector figure_rows
              [0; 0; 0; 0; -1])
    as [labels [info [Hc [_ [Hn _]]]]].
  - vm_compute. reflexivity.
  - reflexivity.
  - exists labels, info. split; [exact Hc|exact Hn].
Defined.

(** ** From the packets to the queue *)

Lemma New_put_all_app (N : Z) (q a b : list New.MovingObject) :
  New.put_all N (New.put_all N q a) b = New.put_all N q (a ++ b).
Proof. unfold New.put_all. rewrite fold_left_app. reflexivity. Qed.

Lemma take_drop (n : Z) (b : bytes) : take n b ++ drop n b = b.
Proof. unfold take, drop. apply firstn_skipn. Qed.

(** A packet [_parse_packet] raises on is shorter than 36 bytes, whatever
    header length it is called with. *)
Lemma New_decode_error (packet : bytes) (hl : Z) :
  0 <= hl -> New._parse_packet packet hl = None -> New_decode packet = [].
Proof.
  intros H0 Hnone. unfold New_decode.
  destruct (unpack_u32 packet 8) as [hl'|]; [|reflexivity].
  destruct (New._parse_packet packet hl') as [objs|] eqn:E; [|reflexivity].
  apply New_parse_packet_some_len in E.
  destruct (New_parse_packet_total packet hl H0 E) as [objs' Hobjs].
  congruence.
Qed.

(** A packet that decodes carries the header length it was decoded with. *)
Lemma New_decode_packet (buf : bytes) (hl total : Z)
      (objs : list New.MovingObject) :
  unpack_u32 buf 8 = Some hl ->
  New._parse_packet (take total buf) hl = Some objs ->
  New_decode (take total buf) = objs.
Proof.
  intros Hhl Hobjs. unfold New_decode.
  pose proof (New_parse_packet_some_len _ _ _ Hobjs) as Hlen.
  pose proof (unpack_u32_prefix (take total buf) (drop total buf) 8
                                ltac:(lia)) as Hpre.
  rewrite take_drop, Hhl in Hpre. rewrite <- Hpre, Hobjs. reflexivity.
Qed.

Lemma New_process_step_queue (c : New.SerialCollector) (out : list bytes) :
  match New.process_step c out with
  | inl r =>
    exists news, New.packets r = out ++ news /\
                 flat_map New_decode news = [] /\
                 New._data_q (New.after r) = New._data_q c /\
                 New.queue_max (New.after r) = New.queue_max c
  | inr (c', out') =>
    exists news, out' = out ++ news /\
                 New._data_q c'
                 = New.put_all (New.queue_max c) (New._data_q c)
                               (flat_map New_decode news) /\
                 New.queue_max c' = New.queue_max c
  end.
Proof.
  unfold New.process_step.
  destruct (find MAGIC_WORD (New._buffer c)) as [idx|];
    [|exists []; rewrite app_nil_r; auto].
  cbn [New._buffer New.set_buffer].
  destruct (unpack_u32 (skipn idx (New._buffer c)) 8) as [hl|] eqn:Ehl;
    [|exists []; rewrite app_nil_r; auto].
  destruct (unpack_u32 (skipn idx (New._buffer c)) 12) as [total|];
    [|exists []; rewrite app_nil_r; auto].
  destruct (_ <? total); [exists []; rewrite app_nil_r; auto|].
  destruct (New._parse_packet _ hl) as [objs|] eqn:Eobjs.
  - exists [take total (skipn idx (New._buffer c))].
    cbn [flat_map New._data_q New.set_queue New.queue_max New.set_buffer].
    rewrite app_nil_r, (New_decode_packet _ _ _ _ Ehl Eobjs). auto.
  - exists [take total (skipn idx (New._buffer c))].
    cbn [flat_map New.packets New.after New._data_q New.queue_max
         New.set_buffer].
    rewrite app_nil_r.
    rewrite (New_decode_error _ hl); auto.
    apply unpack_u32_bound in Ehl. lia.
Qed.

Lemma New_process_loop_queue (fuel : nat) :
  forall (c : New.SerialCollector) (out : list bytes),
    exists news,
      New.packets (New.process_loop fuel c out) = out ++ news /\
      New._data_q (New.after (New.process_loop fuel c out))
      = New.put_all (New.queue_max c) (New._data_q c)
                    (flat_map New_decode news) /\
      New.queue_max (New.after (New.process_loop fuel c out))
      = New.queue_max c.
Proof.
  induction fuel as [|fuel IH]; intros c out; cbn [New.process_loop].
  - exists []. rewrite app_nil_r. auto.
  - pose proof (New_process_step_queue c out) as Hs.
    destruct (New.process_step c out) as [r|[c' out']].
    + destruct Hs as [news [Hp [Hd [Hq Hm]]]]. exists news.
      rewrite Hd, Hq. auto.
    + destruct Hs as [news [-> [Hq Hm]]].
      destruct (IH c' (out ++ news)) as [news' [Hp [Hq' Hm']]].
      exists (news ++ news').
      rewrite Hp, Hq', Hm', Hq, Hm, New_put_all_app, flat_map_app, app_assoc.
      auto.
Qed.

Lemma New_consume_all_queue (chunks : list bytes) :
  forall c : New.SerialCollector,
    New._data_q (fst (New.consume_all c chunks))
    = New.put_all (New.queue_max c) (New._data_q c)
                  (flat_map New_decode (snd (New.consume_all c chunks))) /\
    New.queue_max (fst (New.consume_all c chunks)) = New.queue_max c.
Proof.
  induction chunks as [|chunk rest IH]; intros c; cbn [New.consume_all].
  - auto.
  - destruct (New_process_loop_queue
                (S (length (New._buffer
                              (New.set_buffer c (New._buffer c ++ chunk)))))
                (New.set_buffer c (New._buffer c ++ chunk)) [])
      as [news [Hp [Hq Hm]]].
    fold (New._process_buffer (New.set_buffer c (New._buffer c ++ chunk)))
      in Hp, Hq, Hm.
    fold (New.consume c chunk) in Hp, Hq, Hm.
    cbn [app New._data_q New.queue_max New.set_buffer] in Hp, Hq, Hm.
    destruct (IH (New.after (New.consume c chunk))) as [Hq' Hm'].
    destruct (New.consume_all (New.after (New.consume c chunk)) rest)
      as [c' out'].
    cbn [fst snd] in *.
    rewrite Hq', Hm', Hm, Hq, Hp, New_put_all_app, flat_map_app. auto.
Qed.

Lemma Old_process_step_queue (round4 : float -> float)
      (c : Old.SerialCollector) (out : list bytes) :
  0 < Old.queue_max c ->
  Z.of_nat (length (Old._data_q c)) <= Old.queue_max c ->
  match Old.process_step round4 c out with
  | inl r =>
    exists news, Old.packets r = out ++ news /\
                 flat_map (Old_decode round4) news = [] /\
                 Old._data_q (Old.after r) = Old._data_q c /\
                 Old.queue_max (Old.after r) = Old.queue_max c
  | inr (c', out') =>
    exists news, out' = out ++ news /\
                 Old._data_q c'
                 = lastn (Z.to_nat (Old.queue_max c))
                         (Old._data_q c ++ flat_map (Old_decode round4) news) /\
                 Old.queue_max c' = Old.queue_max c
  end.
Proof.
  intros Hpos Hq. unfold Old.process_step.
  destruct (find MAGIC_WORD (Old._buffer c)) as [idx|].
  2:{ destruct (_ >? _); exists []; rewrite app_nil_r; auto. }
  cbn [Old._buffer Old.set_buffer].
  destruct (_ <? 40); [exists []; rewrite app_nil_r; auto|].
  assert (Hsame : Old._data_q c
                  = lastn (Z.to_nat (Old.queue_max c)) (Old._data_q c ++ [])).
  { rewrite app_nil_r, lastn_all; [reflexivity|lia]. }
  destruct (unpack_u32 _ 12) as [total|];
    [|exists []; rewrite app_nil_r; cbn [flat_map]; auto].
  destruct (_ || _); [exists []; rewrite app_nil_r; cbn [flat_map]; auto|].
  destruct (_ <? total); [exists []; rewrite app_nil_r; auto|].
  destruct (Old._parse_packet round4 _) as [objs|] eqn:Eobjs.
  - cbn [Old.queue_max Old._data_q Old.set_buffer].
    rewrite (Old_put_all_spec _ objs _ Hpos Hq).
    exists [take total (skipn idx (Old._buffer c))].
    cbn [flat_map]. unfold Old_decode at 1. rewrite Eobjs, app_nil_r. auto.
  - exists [take total (skipn idx (Old._buffer c))].
    cbn [flat_map]. unfold Old_decode at 1. rewrite Eobjs. auto.
Qed.

Lemma Old_process_loop_queue (round4 : float -> float) (fuel : nat) :
  forall (c : Old.SerialCollector) (out : list bytes),
    0 < Old.queue_max c ->
    Z.of_nat (length (Old._data_q c)) <= Old.queue_max c ->
    exists news,
      Old.packets (Old.process_loop round4 fuel c out) = out ++ news /\
      Old._data_q (Old.after (Old.process_loop round4 fuel c out))
      = lastn (Z.to_nat (Old.queue_max c))
              (Old._data_q c ++ flat_map (Old_decode round4) news) /\
      Old.queue_max (Old.after (Old.process_loop round4 fuel c out))
      = Old.queue_max c.
Proof.
  induction fuel as [|fuel IH]; intros c out Hpos Hq; cbn [Old.process_loop].
  - exists []. cbn [flat_map]. rewrite !app_nil_r, lastn_all by lia. auto.
  - pose proof (Old_process_step_queue round4 c out Hpos Hq) as Hs.
    destruct (Old.process_step round4 c out) as [r|[c' out']].
    + destruct Hs as [news [Hp [Hd [Hq' Hm]]]]. exists news.
      rewrite Hd, Hq', app_nil_r, lastn_all by lia. auto.
    + destruct Hs as [news [-> [Hq' Hm]]].
      destruct (IH c' (out ++ news)) as [news' [Hp [Hq'' Hm']]].
      * rewrite Hm. exact Hpos.
      * rewrite Hm, Hq', lastn_length. lia.
      * exists (news ++ news').
        rewrite Hp, Hq'', Hm', Hq', Hm, lastn_app_lastn, flat_map_app.
        rewrite <- !app_assoc. auto.
Qed.

Lemma Old_consume_all_queue (round4 : float -> float) (chunks : list bytes) :
  forall c : Old.SerialCollector,
    0 < Old.queue_max c ->
    Z.of_nat (length (Old._data_q c)) <= Old.queue_max c ->
    Old._data_q (fst (Old.consume_all round4 c chunks))
    = lastn (Z.to_nat (Old.queue_max c))
            (Old._data_q c
               ++ flat_map (Old_decode round4)
                           (snd (Old.consume_all round4 c chunks))) /\
    Old.queue_max (fst (Old.consume_all round4 c chunks)) = Old.queue_max c.
Proof.
  induction chunks as [|chunk rest IH]; intros c Hpos Hq;
    cbn [Old.consume_all].
  - cbn [fst snd flat_map]. rewrite app_nil_r, lastn_all by lia. auto.
  - destruct (Old_process_loop_queue
                round4
                (S (length (Old._buffer
                              (Old.set_buffer c (Old._buffer c ++ chunk)))))
                (Old.set_buffer c (Old._buffer c ++ chunk)) [] Hpos Hq)
      as [news [Hp [Hq' Hm]]].
    fold (Old._process_buffer
            round4 (Old.set_buffer c (Old._buffer c ++ chunk))) in Hp, Hq', Hm.
    fold (Old.consume round4 c chunk) in Hp, Hq', Hm.
    cbn [app Old._data_q Old.queue_max Old.set_buffer] in Hp, Hq', Hm.
    destruct (IH (Old.after (Old.consume round4 c chunk))) as [Hq'' Hm'].
    + rewrite Hm. exact Hpos.
    + rewrite Hm, Hq', lastn_length. lia.
    + destruct (Old.consume_all round4 (Old.after (Old.consume round4 c chunk))
                                rest) as [c' out'].
      cbn [fst snd] in *.
      rewrite Hq'', Hm', Hm, Hq', Hp, lastn_app_lastn, flat_map_app.
      rewrite <- !app_assoc. auto.
Qed.

(** X13. Whatever bytes arrive, in whatever chunks: the detections the
    reader has put on the queue are those [_parse_packet] decodes from the
    packets cut out of the buffer, packet after packet in the order they
    were cut, a packet on which [_parse_packet] raises giving none. Of
    these and the members the queue had, the new collector keeps the first
    that fit its capacity, the old collector the last. *)
Theorem X13_queue_holds_what_the_packets_decode_to :
  (forall (chunks : list bytes) (c : New.SerialCollector),
      0 < New.queue_max c ->
      Z.of_nat (length (New._data_q c)) <= New.queue_max c ->
      let (c', cut) := New.consume_all c chunks in
      New._data_q c'
      = New._data_q c
          ++ firstn (Z.to_nat (New.queue_max c) - length (New._data_q c))
                    (flat_map New_decode cut) /\
      New.queue_max c' = New.queue_max c) /\
  (forall (round4 : float -> float) (chunks : list bytes)
          (c : Old.SerialCollector),
      0 < Old.queue_max c ->
      Z.of_nat (length (Old._data_q c)) <= Old.queue_max c ->
      let (c', cut) := Old.consume_all round4 c chunks in
      Old._data_q c'
      = lastn (Z.to_nat (Old.queue_max c))
              (Old._data_q c ++ flat_map (Old_decode round4) cut) /\
      Old.queue_max c' = Old.queue_max c).
Proof.
  split.
  - intros chunks c Hpos Hq.
    destruct (New_consume_all_queue chunks c) as [H1 H2].
    destruct (New.consume_all c chunks) as [c' cut]. cbn [fst snd] in *.
    rewrite H1, (New_put_all_spec _ _ _ Hpos Hq). auto.
  - intros round4 chunks c Hpos Hq.
    destruct (Old_consume_all_queue round4 chunks c Hpos Hq) as [H1 H2].
    destruct (Old.consume_all round4 c chunks) as [c' cut].
    cbn [fst snd] in *. auto.
Qed.

Lemma X13_queue_holds_what_the_packets_decode_to_witness :
  let (c', cut) :=
      Old.consume_all (fun v => v) (Old.init 2) [frame_one_point;
                                                 frame_one_point;
                                                 frame_one_point] in
  Old._data_q c'
  = lastn 2 ([] ++ flat_map (Old_decode (fun v => v)) cut) /\
  Old.queue_max c' = 2.
Proof.
  apply (proj2 X13_queue_holds_what_the_packets_decode_to
               (fun v => v)
               [frame_one_point; frame_one_point; frame_one_point]
               (Old.init 2)).
  - reflexivity.
  - cbn. lia.
Defined.

(** X14. From the wire to the caller. A stream of valid frames between
    stretches of noise that hold no marker is fed, in any chunks, to a
    collector fresh from its constructor, and [get_latest(max_items)] is
    called: it returns the detections of the frames, frame after frame, cut
    to the capacity of the queue (the first of them by the new collector,
    the last of them by the old one) and then to the oldest [max_items]. *)
Theorem X14_frames_in_detections_out :
  (forall (segments : list (bytes * bytes)) (tail : bytes)
          (chunks : list bytes) (N max_items : Z),
      Forall (fun seg => marker_free (fst seg) = true /\
                         New_valid_frame (snd seg) = true) segments ->
      marker_free tail = true ->
      chunks <> [] ->
      concat chunks = stream segments tail ->
      0 < N ->
      fst (New.get_latest max_items
                          (fst (New.consume_all (New.init N) chunks)))
      = firstn (Z.to_nat max_items)
               (firstn (Z.to_nat N)
                       (flat_map New_decode (map snd segments)))) /\
  (forall (round4 : float -> float)
          (segments : list (bytes * bytes)) (tail : bytes)
          (chunks : list bytes) (N max_items : Z),
      Forall (fun seg => marker_free (fst seg) = true /\
                         Old_valid_frame (snd seg) = true) segments ->
      marker_free tail = true ->
      chunks <> [] ->
      concat chunks = stream segments tail ->
      0 < N ->
      fst (Old.get_latest max_items
                          (fst (Old.consume_all round4 (Old.init N) chunks)))
      = firstn (Z.to_nat max_items)
               (lastn (Z.to_nat N)
                      (flat_map (Old_decode round4) (map snd segments)))).
Proof.
  split.
  - intros segments tail chunks N m Hsegs Htail Hne Hconcat HN.
    destruct (New_consume_all_queue chunks (New.init N)) as [Hq _].
    rewrite (New_consume_all_stream chunks (New.init N) segments tail
               Hne Hsegs Htail Hconcat) in Hq.
    cbn [New.init New._data_q New.queue_max] in Hq.
    rewrite (New_put_all_spec N _ [] HN) in Hq by (cbn; lia).
    cbn [app length] in Hq. rewrite Nat.sub_0_r in Hq.
    unfold New.get_latest. rewrite New_get_loop_spec, Hq.
    cbn [fst app length]. rewrite Nat.sub_0_r. reflexivity.
  - intros round4 segments tail chunks N m Hsegs Htail Hne Hconcat HN.
    destruct (Old_consume_all_queue round4 chunks (Old.init N))
      as [Hq _]; [exact HN|cbn; lia|].
    rewrite (Old_consume_all_stream round4 chunks (Old.init N) segments tail
               Hne Hsegs Htail Hconcat) in Hq; [|exact HN|cbn; lia].
    cbn [Old.init Old._data_q Old.queue_max app] in Hq.
    unfold Old.get_latest. rewrite Old_get_loop_spec, Hq.
    cbn [fst app length]. rewrite Nat.sub_0_r. reflexivity.
Qed.

Lemma X14_frames_in_detections_out_witness :
  concat stream_chunks = two_frame_stream /\
  fst (New.get_latest 2000
                      (fst (New.consume_all (New.init 20000) stream_chunks)))
  = firstn (Z.to_nat 2000)
           (firstn (Z.to_nat 20000)
                   (flat_map New_decode (map snd two_frames))).
Proof.
  split; [vm_compute; reflexivity|].
  apply (proj1 X14_frames_in_detections_out two_frames [x07] stream_chunks
               20000 2000).
  - repeat constructor; vm_compute; reflexivity.
  - reflexivity.
  - discriminate.
  - vm_compute. reflexivity.
  - reflexivity.
Defined.

(** ** How many detections a packet can give *)

Lemma len_take_le (n : Z) (b : bytes) : 0 <= n -> len (take n b) <= n.
Proof. unfold len, take. intros H. rewrite length_firstn. lia. Qed.

Lemma New_read_points_count (n : nat) :
  forall (tlv_data : bytes) (points res : list New.Point),
    New.read_points n tlv_data points = Some res ->
    exists ps, res = points ++ ps /\
               (length ps <= n)%nat /\
               16 * Z.of_nat (length ps) <= len tlv_data.
Proof.
  induction n as [|n IH]; intros tlv_data points res;
    cbn [New.read_points].
  - intros [= <-]. exists []. rewrite app_nil_r.
    pose proof (len_nonneg tlv_data). cbn [length]. repeat split; lia.
  - destruct (len tlv_data <? 16) eqn:E.
    + intros [= <-]. exists []. rewrite app_nil_r.
      pose proof (len_nonneg tlv_data). cbn [length]. repeat split; lia.
    + apply Z.ltb_ge in E.
      destruct (unpack_f32 _ 0) as [x|]; [|discriminate].
      destruct (unpack_f32 _ 4) as [y|]; [|discriminate].
      destruct (unpack_f32 _ 8) as [z|]; [|discriminate].
      destruct (unpack_f32 _ 12) as [v|]; [|discriminate].
      cbn [bind]. intros H. apply IH in H.
      destruct H as [ps [-> [Hn Hl]]].
      exists (New.mkPoint x y z v :: ps). rewrite <- app_assoc.
      rewrite len_drop in Hl by lia. cbn [length app].
      repeat split; lia.
Qed.

(** What holds of the state between two records: no point yet, or the
    points fit between the end of the header and the offset. *)
Lemma New_tlv_step_count (data : bytes) (ndet hl : Z) (s : New.tlv_state)
      (r : New.tlv_state + New.tlv_state) :
  hl <= New.offset s ->
  (New.points s = [] \/
   hl + 8 + 16 * Z.of_nat (length (New.points s)) <= New.offset s <= len data) ->
  New.tlv_step data ndet s = Some r ->
  match r with
  | inl s' => New.points s' = New.points s
  | inr s' =>
    hl <= New.offset s' /\
    (New.points s' = [] \/
     hl + 8 + 16 * Z.of_nat (length (New.points s'))
     <= New.offset s' <= len data) /\
    (length (New.points s') <= length (New.points s) + Z.to_nat ndet)%nat
  end.
Proof.
  intros Hhl Hinv. unfold New.tlv_step, TLV_HEADER_SIZE.
  destruct (New.offset s + 8 >? len data) eqn:E; [intros [= <-]; reflexivity|].
  destruct (unpack_u32 data (New.offset s)) as [ty|]; [|discriminate].
  destruct (unpack_u32 data (New.offset s + 4)) as [tl|] eqn:Etl;
    [|discriminate].
  cbn [bind]. destruct (unpack_u32_bound _ _ _ Etl) as [_ [_ Htl0]].
  destruct (New.offset s + 8 + tl >? len data) eqn:E2;
    [intros [= <-]; reflexivity|].
  assert (Hkeep : hl <= New.offset s + 8 + tl /\
                  (New.points s = [] \/
                   hl + 8 + 16 * Z.of_nat (length (New.points s))
                   <= New.offset s + 8 + tl <= len data)).
  { split; [lia|]. destruct Hinv as [Hnil|Hb]; [left; exact Hnil|right; lia]. }
  destruct (ty =? 1).
  - destruct (New.read_points _ _ _) as [pts|] eqn:Ep; [|discriminate].
    cbn [bind]. intros [= <-]. cbn [New.offset New.points].
    apply New_read_points_count in Ep. destruct Ep as [ps [-> [Hn Hl]]].
    pose proof (len_take_le tl (drop (New.offset s + 8) data) Htl0).
    rewrite !length_app. split; [lia|]. split; [|lia].
    right.
    destruct Hinv as [Hnil|Hb]; [rewrite Hnil; cbn [length]|]; lia.
  - destruct (ty =? 7).
    + destruct (New.read_side_info _ _ _) as [si|]; [|discriminate].
      cbn [bind]. intros [= <-]. cbn [New.offset New.points].
      split; [lia|]. split; [tauto|lia].
    + intros [= <-]. cbn [New.offset New.points].
      split; [lia|]. split; [tauto|lia].
Qed.

Lemma New_tlv_loop_count (data : bytes) (ndet hl : Z) (n : nat) :
  forall s s' : New.tlv_state,
    hl <= New.offset s ->
    (New.points s = [] \/
     hl + 8 + 16 * Z.of_nat (length (New.points s))
     <= New.offset s <= len data) ->
    New.tlv_loop n data ndet s = Some s' ->
    (New.points s' = [] \/
     hl + 8 + 16 * Z.of_nat (length (New.points s')) <= len data) /\
    (length (New.points s')
     <= length (New.points s) + n * Z.to_nat ndet)%nat.
Proof.
  induction n as [|n IH]; intros s s' Hhl Hinv; cbn [New.tlv_loop].
  - intros [= <-]. split; [|lia].
    destruct Hinv as [Hnil|Hb]; [left; exact Hnil|right; lia].
  - destruct (New.tlv_step data ndet s) as [r|] eqn:Es; [|discriminate].
    cbn [bind]. pose proof (New_tlv_step_count data ndet hl s r Hhl Hinv Es)
      as Hr.
    destruct r as [s1|s1].
    + intros [= <-]. rewrite Hr. split; [|lia].
      destruct Hinv as [Hnil|Hb]; [left; exact Hnil|right; lia].
    + destruct Hr as [H1 [H2 H3]]. intros Hl.
      destruct (IH s1 s' H1 H2 Hl) as [H4 H5]. split; [exact H4|].
      cbn [Nat.mul]. lia.
Qed.

Lemma make_objects_length (points : list New.Point)
      (side_info : list float) :
  length (New.make_objects points side_info) = length points.
Proof.
  unfold New.make_objects.
  rewrite length_map, length_combine, length_seq. lia.
Qed.

Lemma Old_read_objects_count (round4 : float -> float) (n : nat) :
  forall (tlv_data : bytes) (i : Z) (moving : list Old.MovingObject),
    0 <= i ->
    exists objs,
      Old.read_objects round4 n tlv_data i moving = moving ++ objs /\
      16 * Z.of_nat (length objs) <= Z.max 0 (len tlv_data - i).
Proof.
  induction n as [|n IH]; intros tlv_data i moving Hi;
    cbn [Old.read_objects].
  - exists []. rewrite app_nil_r. cbn [length]. split; [reflexivity|lia].
  - destruct (i + 16 >? len tlv_data) eqn:E.
    + exists []. rewrite app_nil_r. cbn [length]. split; [reflexivity|lia].
    + destruct (unpack_f32 tlv_data i) as [x|]; cbn [bind].
      2:{ destruct (IH tlv_data (i + 16) moving ltac:(lia)) as [objs [-> Hl]].
          exists objs. split; [reflexivity|lia]. }
      destruct (unpack_f32 tlv_data (i + 4)) as [y|]; cbn [bind].
      2:{ destruct (IH tlv_data (i + 16) moving ltac:(lia)) as [objs [-> Hl]].
          exists objs. split; [reflexivity|lia]. }
      destruct (unpack_f32 tlv_data (i + 8)) as [z|]; cbn [bind].
      2:{ destruct (IH tlv_data (i + 16) moving ltac:(lia)) as [objs [-> Hl]].
          exists objs. split; [reflexivity|lia]. }
      destruct (unpack_f32 tlv_data (i + 12)) as [v|]; cbn [bind].
      2:{ destruct (IH tlv_data (i + 16) moving ltac:(lia)) as [objs [-> Hl]].
          exists objs. split; [reflexivity|lia]. }
      match goal with
      | |- context [Old.read_objects round4 n tlv_data (i + 16) (moving ++ [?o])] =>
        destruct (IH tlv_data (i + 16) (moving ++ [o]) ltac:(lia))
          as [objs [-> Hl]]; exists (o :: objs)
      end.
      rewrite <- app_assoc. cbn [app length]. split; [reflexivity|lia].
Qed.

Lemma Old_tlv_step_count (round4 : float -> float) (data : bytes)
      (off : Z) (moving : list Old.MovingObject) :
  40 <= off ->
  (moving = [] \/ 48 + 16 * Z.of_nat (length moving) <= off <= len data) ->
  match Old.tlv_step round4 data (off, moving) with
  | inl m => m = moving
  | inr (off', m') =>
    40 <= off' /\
    (m' = [] \/ 48 + 16 * Z.of_nat (length m') <= off' <= len data)
  end.
Proof.
  intros Hoff Hinv. unfold Old.tlv_step.
  destruct (off + 8 <=? len data) eqn:E; [|reflexivity].
  apply Z.leb_le in E.
  destruct (unpack_u32 data off) as [ty|]; [|reflexivity].
  destruct (unpack_u32 data (off + 4)) as [tl|] eqn:Etl; [|reflexivity].
  destruct (unpack_u32_bound _ _ _ Etl) as [_ [_ Htl0]].
  destruct (tl =? 0).
  { split; [lia|]. destruct Hinv as [Hnil|Hb]; [left; exact Hnil|right; lia]. }
  destruct (off + 8 + tl >? len data) eqn:E2; [reflexivity|].
  split; [lia|].
  destruct (ty =? 1).
  - destruct (Old_read_objects_count
                round4 (Old.range16 (len (take tl (drop (off + 8) data))))
                (take tl (drop (off + 8) data)) 0 moving ltac:(lia))
      as [objs [-> Hl]].
    pose proof (len_take_le tl (drop (off + 8) data) Htl0).
    right. rewrite length_app.
    destruct Hinv as [Hnil|Hb]; [rewrite Hnil; cbn [length]|]; lia.
  - destruct Hinv as [Hnil|Hb]; [left; exact Hnil|right; lia].
Qed.

Lemma Old_tlv_while_count (round4 : float -> float) (data : bytes)
      (fuel : nat) :
  forall (off : Z) (moving res : list Old.MovingObject),
    40 <= off ->
    (moving = [] \/ 48 + 16 * Z.of_nat (length moving) <= off <= len data) ->
    Old.tlv_while round4 fuel data (off, moving) = Some res ->
    res = [] \/ 48 + 16 * Z.of_nat (length res) <= len data.
Proof.
  induction fuel as [|fuel IH]; intros off moving res Hoff Hinv;
    cbn [Old.tlv_while]; [discriminate|].
  pose proof (Old_tlv_step_count round4 data off moving Hoff Hinv) as Hs.
  destruct (Old.tlv_step round4 data (off, moving)) as [m|[off' m']].
  - intros [= <-]. subst m.
    destruct Hinv as [Hnil|Hb]; [left; exact Hnil|right; lia].
  - destruct Hs as [H1 H2]. apply IH; assumption.
Qed.

(** X15. The detections of a packet fit the packet. A packet of [L] bytes
    that gives any detection at all holds the header, the eight bytes of a
    TLV header, and sixteen bytes for each detection: the new decoder,
    called with header length [hl], returns at most [(L - hl - 8) / 16]
    detections, and at most [num_tlvs * num_detected_obj], the two counts
    of the header; the old decoder returns at most [(L - 48) / 16]. *)
Theorem X15_detections_fit_the_packet :
  (forall (data : bytes) (hl ndet ntlv : Z) (objs : list New.MovingObject),
      0 <= hl ->
      New._parse_packet data hl = Some objs ->
      unpack_u32 data 28 = Some ndet ->
      unpack_u32 data 32 = Some ntlv ->
      (objs = [] \/ hl + 8 + 16 * Z.of_nat (length objs) <= len data) /\
      Z.of_nat (length objs) <= ntlv * ndet) /\
  (forall (round4 : float -> float) (data : bytes)
          (objs : list Old.MovingObject),
      Old._parse_packet round4 data = Some objs ->
      objs = [] \/ 48 + 16 * Z.of_nat (length objs) <= len data).
Proof.
  split.
  - intros data hl ndet ntlv objs Hhl Hparse Hndet Hntlv.
    unfold New._parse_packet in Hparse. rewrite Hndet, Hntlv in Hparse.
    cbn [bind] in Hparse.
    destruct (New.tlv_loop _ _ _ _) as [s|] eqn:El; [|discriminate].
    cbn [bind] in Hparse. injection Hparse as <-.
    destruct (New_tlv_loop_count data ndet hl (Z.to_nat ntlv)
                                 (New.mkTlv hl [] []) s)
      as [H1 H2]; cbn [New.offset New.points]; [lia|left; reflexivity|exact El|].
    rewrite make_objects_length. cbn [length] in H2.
    destruct (unpack_u32_bound _ _ _ Hndet) as [_ [_ Hn0]].
    destruct (unpack_u32_bound _ _ _ Hntlv) as [_ [_ Ht0]].
    split.
    + destruct H1 as [Hnil|Hb]; [left|right; exact Hb].
      unfold New.make_objects. rewrite Hnil. reflexivity.
    + apply Nat2Z.inj_le in H2. rewrite Nat2Z.inj_add, Nat2Z.inj_mul in H2.
      rewrite !Z2Nat.id in H2 by lia. cbn in H2. exact H2.
  - intros round4 data objs. unfold Old._parse_packet.
    destruct (len data <? 40); [intros [= <-]; left; reflexivity|].
    apply Old_tlv_while_count; [lia|left; reflexivity].
Qed.

Lemma X15_detections_fit_the_packet_witness :
  New._parse_packet frame_one_point 40
  = Some [New.mkMovingObject 1 2 3 0.5 0x1.deeea11683f49p+1
                             0x1.899999999999ap+3] /\
  ([New.mkMovingObject 1 2 3 0.5 0x1.deeea11683f49p+1 0x1.899999999999ap+3]
   = []
   \/ 40 + 8 + 16 * 1 <= len frame_one_point) /\
  1 <= 2 * 1.
Proof.
  split; [vm_compute; reflexivity|].
  apply (proj1 X15_detections_fit_the_packet frame_one_point 40 1 2
               [New.mkMovingObject 1 2 3 0.5 0x1.deeea11683f49p+1
                                   0x1.899999999999ap+3]).
  - lia.
  - vm_compute. reflexivity.
  - vm_compute. reflexivity.
  - vm_compute. reflexivity.
Defined.

(** ** The applications *)

Lemma skipn_S_tl {A : Type} (k : nat) :
  forall l : list A, skipn (S k) l = tl (skipn k l).
Proof.
  induction k as [|k IH]; intros [|a l]; try reflexivity.
  change (skipn (S (S k)) (a :: l)) with (skipn (S k) l).
  rewrite IH. reflexivity.
Qed.

Lemma App_log_run (calls : list (Text.str * Text.str)) :
  forall l : list Text.str,
    (length l <= 200)%nat ->
    fold_left (fun l c => App.log (fst c) (snd c) l) calls l
    = lastn 200
            (l ++ map (fun c => fst c ++ Text.lit " - " ++ snd c) calls).
Proof.
  induction calls as [|[now msg] calls IH]; intros l Hl.
  - cbn [fold_left map]. rewrite app_nil_r, lastn_all; [reflexivity|exact Hl].
  - cbn [fold_left map fst snd]. rewrite IH.
    + unfold App.log. rewrite lastn_app_lastn, <- app_assoc. reflexivity.
    + unfold App.log. rewrite lastn_length. lia.
Qed.

(** X16. The log of the application is a window on what was logged: after
    any run of calls of [log], from the empty list the session starts with,
    [log_messages] holds the last 200 entries, oldest first, each the time
    of its call, [" - "] and the message; it never holds more than 200. The
    same function in both applications. *)
Theorem X16_log_keeps_the_latest_200 (calls : list (Text.str * Text.str)) :
  let logged := fold_left (fun l c => App.log (fst c) (snd c) l) calls [] in
  logged = lastn 200 (map (fun c => fst c ++ Text.lit " - " ++ snd c) calls) /\
  (length logged <= 200)%nat /\
  (forall now msg,
      (length calls < 200)%nat ->
      App.log now msg logged = logged ++ [now ++ Text.lit " - " ++ msg]) /\
  (forall now msg,
      (200 <= length calls)%nat ->
      App.log now msg logged = tl logged ++ [now ++ Text.lit " - " ++ msg]).
Proof.
  cbv zeta. rewrite (App_log_run calls []) by (cbn; lia).
  match goal with
  | |- context [lastn 200 ([] ++ ?e)] =>
    change ([] ++ e) with e; set (entries := e)
  end.
  assert (Hlen : length entries = length calls) by apply length_map.
  unfold Text.str in *.
  split; [reflexivity|]. split; [rewrite lastn_length; lia|]. split.
  - intros now msg Hc. rewrite lastn_all by lia.
    unfold App.log. apply lastn_all. rewrite length_app. cbn [length]. lia.
  - intros now msg Hc. unfold App.log, Text.str.
    rewrite lastn_app_lastn. unfold lastn.
    rewrite length_app. cbn [length].
    replace (length entries + 1 - 200)%nat
      with (S (length entries - 200))%nat by lia.
    rewrite skipn_app.
    replace (S (length entries - 200) - length entries)%nat with 0%nat by lia.
    rewrite skipn_S_tl. reflexivity.
Qed.

Lemma X16_log_keeps_the_latest_200_witness :
  App.log (Text.lit "12:00:02") (Text.lit "Data buffer cleared.")
          (fold_left (fun l c => App.log (fst c) (snd c) l)
                     [(Text.lit "12:00:01", Text.lit "Collector started.")]
                     [])
  = fold_left (fun l c => App.log (fst c) (snd c) l)
              [(Text.lit "12:00:01", Text.lit "Collector started.")] []
      ++ [Text.lit "12:00:02" ++ Text.lit " - "
                   ++ Text.lit "Data buffer cleared."].
Proof.
  apply (proj1 (proj2 (proj2 (X16_log_keeps_the_latest_200
                                [(Text.lit "12:00:01",
                                  Text.lit "Collector started.")])))).
  cbn. lia.
Defined.

Lemma New_get_latest_spec (m : Z) (c : New.SerialCollector) :
  New.get_latest m c
  = (firstn (Z.to_nat m) (New._data_q c),
     New.set_queue c (skipn (Z.to_nat m) (New._data_q c))).
Proof.
  unfold New.get_latest. rewrite New_get_loop_spec.
  cbn [app length]. rewrite Nat.sub_0_r. reflexivity.
Qed.

Lemma Old_get_latest_spec (m : Z) (c : Old.SerialCollector) :
  Old.get_latest m c
  = (firstn (Z.to_nat m) (Old._data_q c),
     Old.set_queue c (skipn (Z.to_nat m) (Old._data_q c))).
Proof.
  unfold Old.get_latest. rewrite Old_get_loop_spec.
  cbn [app length]. rewrite Nat.sub_0_r. reflexivity.
Qed.

(** The columns of a batch whose columns have the length of the batch. *)
Lemma plot_rows_columns (points : list New.MovingObject) :
  forall (ids : list Z) (labels : list Detection.Label),
    length ids = length points -> length labels = length points ->
    map App.point (App.plot_rows points ids labels) = points /\
    map App.cluster_id (App.plot_rows points ids labels) = ids /\
    map App.label (App.plot_rows points ids labels) = labels.
Proof.
  induction points as [|p points IH]; intros [|i ids] [|l labels] Hi Hl;
    cbn [length] in *; try discriminate; [repeat split|].
  cbn [App.plot_rows map App.point App.cluster_id App.label].
  destruct (IH ids labels) as [H1 [H2 H3]]; [lia|lia|].
  rewrite H1, H2, H3. repeat split.
Qed.

(** The label column as a function of the cluster column. *)
Lemma classify_columns
      (DBSCAN : float -> Z -> list (float * float * float)
                -> option (list Z))
      (mean : list float -> float)
      (d : Detection.HumanDetector) (rs : list Detection.Row)
      (ids : list Z) :
  DBSCAN (Detection.eps d) (Detection.min_samples d)
         (map (fun r => (Detection.x r, Detection.y r, Detection.z r)) rs)
  = Some ids ->
  length ids = length rs ->
  exists info,
    Detection.classify DBSCAN mean d rs
    = Some (ids,
            map (fun cid => if cid =? -1 then Detection.Clutter
                            else Detection.label_of mean d rs ids cid) ids,
            info) /\
    length info
    = length (filter (fun cid => Detection._is_human_cluster
                                   d (Detection.select cid ids rs))
                     (Detection.unique_clusters ids)).
Proof.
  intros Hdb Hlen. unfold Detection.classify. rewrite Hdb.
  pose proof (label_loop_info mean d rs ids (Detection.unique_clusters ids)
                              (map (fun _ => Detection.Clutter) rs) [])
    as Hinfo.
  pose proof (label_loop_labels mean d rs ids (Detection.unique_clusters ids)
                                (map (fun _ => Detection.Clutter) rs) [])
    as Hlab.
  rewrite length_map in Hlab. specialize (Hlab Hlen). cbv zeta in Hlab.
  destruct Hlab as [Hll Hlab].
  destruct (fold_left _ (Detection.unique_clusters ids) _)
    as [labels info] eqn:Efold.
  cbn [fst snd] in Hinfo, Hlab, Hll. cbn [app] in Hinfo.
  exists info. split; [|rewrite Hinfo; apply length_map].
  f_equal. f_equal. f_equal.
  apply nth_error_ext. intros i.
  destruct (nth_error ids i) as [cid|] eqn:Ei.
  - rewrite (Hlab i cid Ei), (unique_clusters_existsb ids i cid Ei).
    rewrite (map_nth_error _ _ _ Ei).
    destruct (cid =? -1); cbn [negb]; [|reflexivity].
    destruct (nth_error rs i) as [r|] eqn:Er.
    + rewrite (map_nth_error _ _ _ Er). reflexivity.
    + apply nth_error_None in Er.
      assert (i < length ids)%nat by (apply nth_error_Some; congruence).
      lia.
  - pose proof Ei as Ei'. apply nth_error_None in Ei'.
    rewrite (proj2 (nth_error_None _ _)) by lia.
    rewrite (proj2 (nth_error_None _ _));
      [reflexivity|rewrite length_map; exact Ei'].
Qed.

(** Dropping repeats and selecting by value can be done in either order. *)
Lemma unique_filter (P : Z -> bool) :
  forall (l seen seen' : list Z),
    (forall v, P v = true ->
               existsb (Z.eqb v) seen = existsb (Z.eqb v) seen') ->
    Detection.unique seen (filter P l)
    = filter P (Detection.unique seen' l).
Proof.
  induction l as [|v l IH]; intros seen seen' Hs; [reflexivity|].
  cbn [filter Detection.unique].
  destruct (P v) eqn:Ev.
  - cbn [Detection.unique]. rewrite (Hs v Ev).
    destruct (existsb (Z.eqb v) seen') eqn:Ex.
    + apply IH, Hs.
    + cbn [filter]. rewrite Ev. f_equal. apply IH.
      intros w Hw. cbn [existsb]. rewrite (Hs w Hw). reflexivity.
  - destruct (existsb (Z.eqb v) seen') eqn:Ex.
    + apply IH, Hs.
    + cbn [filter]. rewrite Ev. apply IH.
      intros w Hw. cbn [existsb]. rewrite (Hs w Hw).
      destruct (w =? v) eqn:E; [|reflexivity].
      apply Z.eqb_eq in E. subst w. congruence.
Qed.

Lemma plot_rows_humans (f : Z -> Detection.Label)
      (points : list New.MovingObject) :
  forall ids : list Z,
    length ids = length points ->
    map App.cluster_id
        (filter is_human_row (App.plot_rows points ids (map f ids)))
    = filter (fun cid => match f cid with
                         | Detection.Human => true
                         | _ => false
                         end) ids.
Proof.
  induction points as [|p points IH]; intros [|i ids] Hi;
    cbn [length] in *; try discriminate; [reflexivity|].
  cbn [map App.plot_rows filter]. unfold is_human_row at 1.
  cbn [App.label]. rewrite <- IH by lia.
  destruct (f i); reflexivity.
Qed.

Lemma filter_both {A : Type} (P Q : A -> bool) (l : list A) :
  filter P (filter Q l) = filter (fun a => Q a && P a) l.
Proof.
  induction l as [|a l IH]; [reflexivity|]. cbn [filter].
  destruct (Q a); cbn [filter andb]; [|exact IH].
  destruct (P a); rewrite IH; reflexivity.
Qed.

(** The number of entries of [human_info] is the number of clusters the
    batch shows as Human. *)
Lemma classify_humans
      (DBSCAN : float -> Z -> list (float * float * float)
                -> option (list Z))
      (mean : list float -> float)
      (d : Detection.HumanDetector) (points : list New.MovingObject)
      (ids : list Z) :
  DBSCAN (Detection.eps d) (Detection.min_samples d)
         (map (fun r => (Detection.x r, Detection.y r, Detection.z r))
              (map App.row_of points))
  = Some ids ->
  length ids = length points ->
  exists info,
    Detection.classify DBSCAN mean d (map App.row_of points)
    = Some (ids,
            map (fun cid => if cid =? -1 then Detection.Clutter
                            else Detection.label_of
                                   mean d (map App.row_of points) ids cid)
                ids,
            info) /\
    length info
    = humans_in
        (App.plot_rows
           points ids
           (map (fun cid => if cid =? -1 then Detection.Clutter
                            else Detection.label_of
                                   mean d (map App.row_of points) ids cid)
                ids)).
Proof.
  intros Hdb Hlen.
  destruct (classify_columns DBSCAN mean d (map App.row_of points) ids Hdb)
    as [info [Hc Hinfo]]; [rewrite length_map; exact Hlen|].
  exists info. split; [exact Hc|].
  rewrite Hinfo. unfold humans_in.
  rewrite (plot_rows_humans _ points ids Hlen).
  unfold Detection.unique_clusters.
  rewrite (unique_filter (fun i => negb (i =? -1)) ids [] [])
    by reflexivity.
  rewrite (unique_filter _ ids [] []) by reflexivity.
  rewrite filter_both. f_equal. apply filter_ext. intros cid.
  destruct (cid =? -1); cbn [negb andb]; [reflexivity|].
  unfold Detection.label_of, Detection.cluster_label.
  destruct (Detection._is_human_cluster d _); [reflexivity|].
  destruct (PrimFloat.ltb _ _); reflexivity.
Qed.

(** The queue is not empty: [get_latest] hands over one detection at
    least. *)
Lemma firstn_2000_nonempty (q : list New.MovingObject) :
  q <> [] -> firstn (Z.to_nat 2000) q <> [].
Proof.
  intros Hq. destruct q as [|o q]; [congruence|].
  destruct (Z.to_nat 2000) eqn:E; [lia|discriminate].
Qed.

(** A pass of the polling block that finds detections in the queue, the
    clustering returning on them. *)
Lemma App_poll_batch
        (DBSCAN : float -> Z -> list (float * float * float)
                  -> option (list Z))
        (mean : list float -> float)
        (now : Text.str) (d : Detection.HumanDetector) (max_points : Z)
        (s : App.Session) (c : New.SerialCollector) (ids : list Z) :
  App.is_running s = true ->
  App.collector s = Some c ->
  New.running c = true ->
  New._data_q c <> [] ->
  0 < max_points ->
  DBSCAN (Detection.eps d) (Detection.min_samples d)
         (map (fun r => (Detection.x r, Detection.y r, Detection.z r))
              (map App.row_of (firstn (Z.to_nat 2000) (New._data_q c))))
  = Some ids ->
  length ids = length (firstn (Z.to_nat 2000) (New._data_q c)) ->
  exists batch,
    map App.point batch = firstn (Z.to_nat 2000) (New._data_q c) /\
    App.poll DBSCAN mean now d max_points s
    = (App.mkSession
         (Some (New.set_queue c (skipn (Z.to_nat 2000) (New._data_q c))))
         (lastn (Z.to_nat max_points) (App.df s ++ batch))
         (App.log now
                  (Text.lit "Processed " ++ Text.decimal (length batch)
                            ++ Text.lit " points. Found "
                            ++ Text.decimal (humans_in batch)
                            ++ Text.lit " humans.")
                  (App.log_messages s))
         true
         (humans_in batch),
       App.Through).
Proof.
  intros Hrun Hcol Halive Hq Hmax Hdb Hlen.
  unfold App.poll. rewrite Hrun, Hcol, Halive. cbn [negb].
  rewrite New_get_latest_spec.
  pose proof (firstn_2000_nonempty _ Hq) as Hne.
  destruct (firstn (Z.to_nat 2000) (New._data_q c)) as [|p ps] eqn:Ef;
    [congruence|].
  destruct (classify_humans DBSCAN mean d (p :: ps) ids Hdb Hlen)
    as [info [Hc Hcount]].
  rewrite Hc.
  eexists. split; [|unfold App.tail;
    replace (max_points =? 0) with false by (symmetry; apply Z.eqb_neq; lia);
    replace (0 <? max_points) with true by (symmetry; apply Z.ltb_lt; lia);
    rewrite Hcount; reflexivity].
  apply plot_rows_columns; [exact Hlen|].
  rewrite length_map. exact Hlen.
Qed.


(** X17. One pass of the polling block of the new application, while the
    collector runs and its queue is not empty. The oldest 2000 detections
    of the queue, or all of them, leave the queue and go to [process]. When
    the clustering returns a cluster number for each of them, they are
    appended, in their order, to the rows on display, each with the
    cluster number the clustering gave it and the label [process] gives
    that cluster; of the rows on display the last [max_points] are kept,
    those that stay as they were; [human_count] is the length of
    [human_info], which is the number of clusters this batch shows as
    Human, whatever the rows of earlier batches show; one entry is logged,
    and the pass runs through. When the clustering raises, the pass ends
    in the exception: the detections have left the queue and are nowhere,
    the rows on display, the log and [human_count] are as they were. *)
Theorem X17_poll_moves_detections_to_the_display
        (DBSCAN : float -> Z -> list (float * float * float)
                  -> option (list Z))
        (mean : list float -> float)
        (now : Text.str) (d : Detection.HumanDetector) (max_points : Z)
        (s : App.Session) (c : New.SerialCollector) :
  App.is_running s = true ->
  App.collector s = Some c ->
  New.running c = true ->
  New._data_q c <> [] ->
  0 < max_points ->
  let points := firstn (Z.to_nat 2000) (New._data_q c) in
  let left := New.set_queue c (skipn (Z.to_nat 2000) (New._data_q c)) in
  let rows := map App.row_of points in
  let coords :=
      map (fun r => (Detection.x r, Detection.y r, Detection.z r)) rows in
  (forall ids : list Z,
      DBSCAN (Detection.eps d) (Detection.min_samples d) coords = Some ids ->
      length ids = length points ->
      exists (labels : list Detection.Label)
             (human_info : list Detection.HumanInfo),
        Detection.classify DBSCAN mean d rows
        = Some (ids, labels, human_info) /\
        labels = map (fun cid => if cid =? -1 then Detection.Clutter
                                 else Detection.label_of mean d rows ids cid)
                     ids /\
        let batch := App.plot_rows points ids labels in
        map App.point batch = points /\
        map App.cluster_id batch = ids /\
        map App.label batch = labels /\
        length human_info = humans_in batch /\
        App.poll DBSCAN mean now d max_points s
        = (App.mkSession
             (Some left)
             (lastn (Z.to_nat max_points) (App.df s ++ batch))
             (App.log now
                      (Text.lit "Processed " ++ Text.decimal (length batch)
                                ++ Text.lit " points. Found "
                                ++ Text.decimal (length human_info)
                                ++ Text.lit " humans.")
                      (App.log_messages s))
             true
             (length human_info),
           App.Through)) /\
  (DBSCAN (Detection.eps d) (Detection.min_samples d) coords = None ->
   App.poll DBSCAN mean now d max_points s
   = (App.mkSession (Some left) (App.df s) (App.log_messages s) true
                    (App.human_count s),
      App.Raised)).
Proof.
  intros Hrun Hcol Halive Hq Hmax. cbv zeta.
  pose proof (firstn_2000_nonempty _ Hq) as Hne.
  split.
  - intros ids Hdb Hlen.
    destruct (classify_humans DBSCAN mean d _ ids Hdb Hlen)
      as [info [Hc Hcount]].
    eexists. exists info. split; [exact Hc|]. split; [reflexivity|].
    destruct (plot_rows_columns
                (firstn (Z.to_nat 2000) (New._data_q c)) ids
                (map (fun cid =>
                        if cid =? -1 then Detection.Clutter
                        else Detection.label_of
                               mean d
                               (map App.row_of
                                    (firstn (Z.to_nat 2000) (New._data_q c)))
                               ids cid) ids)
                Hlen)
      as [H1 [H2 H3]]; [rewrite length_map; exact Hlen|].
    split; [exact H1|]. split; [exact H2|]. split; [exact H3|].
    split; [exact Hcount|].
    unfold App.poll. rewrite Hrun, Hcol, Halive. cbn [negb].
    rewrite New_get_latest_spec.
    destruct (firstn (Z.to_nat 2000) (New._data_q c)) as [|p ps] eqn:Ef;
      [congruence|].
    rewrite Hc. unfold App.tail.
    replace (max_points =? 0) with false by (symmetry; apply Z.eqb_neq; lia).
    replace (0 <? max_points) with true by (symmetry; apply Z.ltb_lt; lia).
    reflexivity.
  - intros Hdb.
    unfold App.poll. rewrite Hrun, Hcol, Halive. cbn [negb].
    rewrite New_get_latest_spec.
    destruct (firstn (Z.to_nat 2000) (New._data_q c)) as [|p ps] eqn:Ef;
      [congruence|].
    unfold Detection.classify. rewrite Hdb. reflexivity.
Qed.

Lemma X17_poll_moves_detections_to_the_display_witness :
  (exists human_info,
      Detection.classify dbscan plain_mean four_point_detector
                         (map App.row_of (map figure_point figure_rows))
      = Some ([0; 0; 0; 0; -1],
              [Detection.Human; Detection.Human; Detection.Human;
               Detection.Human; Detection.Clutter],
              human_info) /\
      length human_info = 1%nat /\
      fst (App.poll dbscan plain_mean (Text.lit "12:00:00")
                    four_point_detector 5000 figure_session)
      = App.mkSession
          (Some started_collector)
          (App.plot_rows (map figure_point figure_rows)
                         [0; 0; 0; 0; -1]
                         [Detection.Human; Detection.Human; Detection.Human;
                          Detection.Human; Detection.Clutter])
          [Text.lit "12:00:00 - Processed 5 points. Found 1 humans."]
          true 1) /\
  App.poll dbscan plain_mean (Text.lit "12:00:00")
           four_point_detector 5000 nan_session
  = (App.mkSession (Some started_collector) [] [] true 0, App.Raised).
Proof.
  split.
  - destruct (X17_poll_moves_detections_to_the_display
                dbscan plain_mean (Text.lit "12:00:00")
                four_point_detector 5000 figure_session
                (New.set_queue started_collector
                               (map figure_point figure_rows)))
      as [H _]; [reflexivity|reflexivity|reflexivity|discriminate|lia|].
    destruct (H [0; 0; 0; 0; -1]) as [labels [info [Hc [Hl [_ [_ [_ [Hn Hp]]]]]]]];
      [vm_compute; reflexivity|reflexivity|].
    assert (El : labels = [Detection.Human; Detection.Human; Detection.Human;
                           Detection.Human; Detection.Clutter])
      by (rewrite Hl; vm_compute; reflexivity).
    subst labels.
    assert (En : length info = 1%nat)
      by (rewrite Hn; vm_compute; reflexivity).
    exists info. split; [exact Hc|]. split; [exact En|].
    rewrite Hp, En. vm_compute. reflexivity.
  - destruct (X17_poll_moves_detections_to_the_display
                dbscan plain_mean (Text.lit "12:00:00")
                four_point_detector 5000 nan_session
                (New.set_queue started_collector [new_obj PrimFloat.nan]))
      as [_ H]; [reflexivity|reflexivity|reflexivity|discriminate|lia|].
    apply H. vm_compute. reflexivity.
Defined.

Lemma New_consume_all_running (chunks : list bytes) :
  forall c : New.SerialCollector,
    New.running (fst (New.consume_all c chunks)) = New.running c.
Proof.
  induction chunks as [|chunk rest IH]; intros c; cbn [New.consume_all].
  - reflexivity.
  - specialize (IH (New.after (New.consume c chunk))).
    destruct (New.consume_all (New.after (New.consume c chunk)) rest)
      as [c' out].
    cbn [fst] in *. rewrite IH. unfold New.running.
    destruct (New_consume_keeps_control c chunk) as [_ [-> _]].
    reflexivity.
Qed.

Lemma lastn_map {A B : Type} (f : A -> B) (n : nat) (l : list A) :
  map f (lastn n l) = lastn n (map f l).
Proof. unfold lastn. rewrite length_map. symmetry. apply skipn_map. Qed.

(** A pass of the polling block over an empty queue changes nothing. *)
Lemma App_poll_idle
      (DBSCAN : float -> Z -> list (float * float * float)
                -> option (list Z))
      (mean : list float -> float)
      (now : Text.str) (d : Detection.HumanDetector) (max_points : Z)
      (s : App.Session) (c : New.SerialCollector) :
  App.is_running s = true ->
  App.collector s = Some c ->
  New.running c = true ->
  New._data_q c = [] ->
  App.poll DBSCAN mean now d max_points s = (s, App.Through).
Proof.
  intros Hrun Hcol Halive Hq. unfold App.poll.
  rewrite Hrun, Hcol, Halive. cbn [negb].
  rewrite New_get_latest_spec, Hq, firstn_nil, skipn_nil.
  destruct s as [col df0 logs run0 hc]. cbn in *. subst.
  destruct c as [ser th ev q qm buf]. cbn in *. subst. reflexivity.
Qed.

Lemma App_run_display
      (DBSCAN : float -> Z -> list (float * float * float)
                -> option (list Z))
      (mean : list float -> float) (d : Detection.HumanDetector)
      (max_points : Z) (rounds : list (list bytes * Text.str)) :
  0 < max_points ->
  forall (s : App.Session) (c : New.SerialCollector),
    App.is_running s = true ->
    App.collector s = Some c ->
    New.running c = true ->
    New._data_q c = [] ->
    0 < New.queue_max c ->
    (length (App.df s) <= Z.to_nat max_points)%nat ->
    Forall (fun cut =>
              (length (flat_map New_decode cut) <= Z.to_nat 2000)%nat /\
              Z.of_nat (length (flat_map New_decode cut)) <= New.queue_max c /\
              (flat_map New_decode cut <> [] -> clusters DBSCAN d cut))
           (snd (run DBSCAN mean d max_points rounds s)) ->
    length (snd (run DBSCAN mean d max_points rounds s)) = length rounds /\
    map App.point (App.df (fst (run DBSCAN mean d max_points rounds s)))
    = lastn (Z.to_nat max_points)
            (map App.point (App.df s)
                 ++ flat_map New_decode
                      (concat (snd (run DBSCAN mean d max_points rounds s)))) /\
    App.is_running (fst (run DBSCAN mean d max_points rounds s)) = true /\
    exists c',
      App.collector (fst (run DBSCAN mean d max_points rounds s)) = Some c' /\
      New._data_q c' = [] /\ New.running c' = true.
Proof.
  intros Hmax.
  induction rounds as [|[chunks now] rounds IH];
    intros s c Hrun Hcol Halive Hq HN Hdf Hrate.
  - cbn [run fst snd concat flat_map length]. rewrite app_nil_r.
    split; [reflexivity|].
    split; [|split; [exact Hrun|exists c; auto]].
    symmetry. apply lastn_all. rewrite length_map. exact Hdf.
  - cbn [run] in *. unfold feed in *. rewrite Hcol in *.
    destruct (New_consume_all_queue chunks c) as [Hq1 HN1].
    pose proof (New_consume_all_running chunks c) as Halive1.
    destruct (New.consume_all c chunks) as [c1 cut] eqn:Econs.
    cbn [fst snd] in Hq1, HN1, Halive1.
    set (s1 := App.mkSession (Some c1) (App.df s) (App.log_messages s)
                             (App.is_running s) (App.human_count s)) in *.
    rewrite Hq, (New_put_all_spec _ _ [] HN) in Hq1 by (cbn; lia).
    cbn [app length] in Hq1. rewrite Nat.sub_0_r in Hq1.
    assert (Hhead : (length (flat_map New_decode cut) <= Z.to_nat 2000)%nat /\
                    Z.of_nat (length (flat_map New_decode cut))
                    <= New.queue_max c /\
                    (flat_map New_decode cut <> [] -> clusters DBSCAN d cut)).
    { destruct (App.poll DBSCAN mean now d max_points s1) as [s2 [| |]];
        [destruct (run DBSCAN mean d max_points rounds s2)| |];
        cbn [snd] in Hrate; inversion Hrate; assumption. }
    destruct Hhead as [Hcut2000 [HcutN Hclus]].
    rewrite firstn_all2 in Hq1 by lia.
    destruct (flat_map New_decode cut) as [|o objs] eqn:Edec.
    + (* nothing was decoded in this round *)
      assert (Hidle : App.poll DBSCAN mean now d max_points s1
                      = (s1, App.Through))
        by (apply (App_poll_idle DBSCAN mean now d max_points s1 c1);
            [exact Hrun|reflexivity|congruence|exact Hq1]).
      rewrite Hidle in *.
      specialize (IH s1 c1 Hrun eq_refl ltac:(congruence) Hq1
                     ltac:(rewrite HN1; exact HN) Hdf).
      destruct (run DBSCAN mean d max_points rounds s1) as [s3 cuts] eqn:Erun.
      cbn [fst snd] in *.
      inversion Hrate as [|cut0 cuts0 _ Hrest]; subst cut0 cuts0.
      destruct IH as [IHlen IH]; [rewrite HN1; exact Hrest|].
      cbn [length concat]. rewrite flat_map_app, Edec. cbn [app].
      split; [rewrite IHlen; reflexivity|exact IH].
    + (* the detections of this round go to the display *)
      destruct (Hclus ltac:(discriminate)) as [ids [Hdb Hids]].
      unfold clusters in *. rewrite Edec in Hdb, Hids.
      destruct (App_poll_batch DBSCAN mean now d max_points s1 c1 ids
                  Hrun eq_refl ltac:(congruence)
                  ltac:(rewrite Hq1; discriminate) Hmax)
        as [batch [Hbatch Hpoll]].
      { rewrite Hq1, firstn_all2 by exact Hcut2000. exact Hdb. }
      { rewrite Hq1, firstn_all2 by exact Hcut2000. exact Hids. }
      rewrite Hq1 in Hbatch, Hpoll.
      rewrite firstn_all2 in Hbatch by exact Hcut2000.
      rewrite skipn_all2 in Hpoll by exact Hcut2000.
      rewrite Hpoll in *.
      match type of Hrate with
      | context [run _ _ _ _ _ ?s3] =>
        specialize (IH s3 (New.set_queue c1 []) eq_refl eq_refl);
          destruct (run DBSCAN mean d max_points rounds s3)
          as [s4 cuts] eqn:Erun
      end.
      cbn [fst snd] in *.
      inversion Hrate as [|cut0 cuts0 _ Hrest]; subst cut0 cuts0.
      destruct IH as [IHlen [Hdisp Hrestinv]].
      * unfold New.running in *. cbn [New._thread New.set_queue].
        congruence.
      * reflexivity.
      * cbn [New.queue_max New.set_queue]. rewrite HN1. exact HN.
      * cbn [App.df]. rewrite lastn_length. lia.
      * cbn [New.queue_max New.set_queue]. rewrite HN1. exact Hrest.
      * cbn [length concat]. rewrite flat_map_app, Edec.
        split; [rewrite IHlen; reflexivity|].
        split; [|exact Hrestinv].
        rewrite Hdisp. cbn [App.df s1].
        rewrite lastn_map, map_app, Hbatch, lastn_app_lastn.
        rewrite <- app_assoc. reflexivity.
Qed.

(** X18. From the wire to the display. In a run of the new application the
    reader takes in chunks of bytes and the polling block runs, turn by
    turn. As long as the packets cut out between two passes of the polling
    block decode to no more than 2000 detections, nor to more than the
    queue holds, and the clustering returns on them, a cluster number for
    each, the run goes through every round, and the rows on display at the
    end are the detections of all the packets cut out during the run, in
    their order, the last [max_points] of them: none was lost on the way,
    none comes twice. The queue is empty after each pass. *)
Theorem X18_display_shows_the_latest_detections
        (DBSCAN : float -> Z -> list (float * float * float)
                  -> option (list Z))
        (mean : list float -> float) (d : Detection.HumanDetector)
        (max_points : Z) (rounds : list (list bytes * Text.str))
        (s : App.Session) (c : New.SerialCollector) :
  0 < max_points ->
  App.is_running s = true ->
  App.collector s = Some c ->
  New.running c = true ->
  New._data_q c = [] ->
  0 < New.queue_max c ->
  App.df s = [] ->
  Forall (fun cut =>
            (length (flat_map New_decode cut) <= Z.to_nat 2000)%nat /\
            Z.of_nat (length (flat_map New_decode cut)) <= New.queue_max c /\
            (flat_map New_decode cut <> [] -> clusters DBSCAN d cut))
         (snd (run DBSCAN mean d max_points rounds s)) ->
  let (s', cuts) := run DBSCAN mean d max_points rounds s in
  length cuts = length rounds /\
  map App.point (App.df s')
  = lastn (Z.to_nat max_points) (flat_map New_decode (concat cuts)) /\
  App.is_running s' = true /\
  exists c', App.collector s' = Some c' /\ New._data_q c' = [].
Proof.
  intros Hmax Hrun Hcol Halive Hq HN Hdf Hrate.
  destruct (App_run_display DBSCAN mean d max_points rounds Hmax s c
                            Hrun Hcol Halive Hq HN
                            ltac:(rewrite Hdf; cbn; lia) Hrate)
    as [H0 [H1 [H2 [c' [H3 [H4 _]]]]]].
  destruct (run DBSCAN mean d max_points rounds s) as [s' cuts].
  cbn [fst snd] in *. rewrite Hdf in H1. cbn [map app] in H1.
  split; [exact H0|]. split; [exact H1|]. split; [exact H2|].
  exists c'. auto.
Qed.

Lemma X18_display_shows_the_latest_detections_witness :
  let (s', cuts) :=
      run dbscan plain_mean four_point_detector 5000 two_rounds
          fresh_session in
  length cuts = 2%nat /\
  map App.point (App.df s')
  = lastn (Z.to_nat 5000) (flat_map New_decode (concat cuts)) /\
  App.is_running s' = true /\
  exists c', App.collector s' = Some c' /\ New._data_q c' = [].
Proof.
  apply (X18_display_shows_the_latest_detections
           dbscan plain_mean four_point_detector 5000 two_rounds
           fresh_session started_collector).
  - lia.
  - reflexivity.
  - reflexivity.
  - reflexivity.
  - reflexivity.
  - reflexivity.
  - reflexivity.
  - assert (E : snd (run dbscan plain_mean four_point_detector 5000
                         two_rounds fresh_session)
                = [[]; [frame_one_point; frame_one_point]])
      by (vm_compute; reflexivity).
    rewrite E.
    apply Forall_cons; [|apply Forall_cons; [|apply Forall_nil]].
    + split; [apply Nat.leb_le; vm_compute; reflexivity|].
      split; [vm_compute; discriminate|].
      intros H. exfalso. apply H. reflexivity.
    + split; [apply Nat.leb_le; vm_compute; reflexivity|].
      split; [vm_compute; discriminate|].
      intros _. unfold clusters.
      eexists. split; vm_compute; reflexivity.
Defined.

(** ** Sending the configuration *)

Section Strip.

Local Open Scope nat_scope.

Lemma lstrip_suffix (s : Text.str) : exists p, s = p ++ Text.lstrip s.
Proof.
induction s as [|c s [p IH]]; [exists []; reflexivity|].
cbn [Text.lstrip]. destruct (Text.isspace c).
- exists (c :: p). cbn [app]. rewrite <- IH. reflexivity.
- exists []. reflexivity.
Qed.

Lemma lstrip_head (s : Text.str) (c : N) (t : Text.str) :
Text.lstrip s = c :: t -> Text.isspace c = false.
Proof.
induction s as [|a s IH]; cbn [Text.lstrip]; [discriminate|].
destruct (Text.isspace a) eqn:E; [exact IH|].
intros [= <- _]. exact E.
Qed.

Lemma lstrip_fixed (s : Text.str) (c : N) (t : Text.str) :
s = c :: t -> Text.isspace c = false -> Text.lstrip s = s.
Proof. intros -> H. cbn [Text.lstrip]. rewrite H. reflexivity. Qed.

Lemma rstrip_prefix (s : Text.str) : exists p, s = Text.rstrip s ++ p.
Proof.
unfold Text.rstrip. destruct (lstrip_suffix (rev s)) as [p Hp].
exists (rev p). rewrite <- rev_app_distr, <- Hp, rev_involutive.
reflexivity.
Qed.

Lemma rstrip_last (s t : Text.str) (c : N) :
Text.rstrip s = t ++ [c] -> Text.isspace c = false.
Proof.
unfold Text.rstrip. intros H.
apply (f_equal (@rev N)) in H.
rewrite rev_involutive, rev_app_distr in H. cbn [rev app] in H.
exact (lstrip_head _ _ _ H).
Qed.

Lemma strip_infix (s : Text.str) :
exists p q, s = p ++ Text.strip s ++ q.
Proof.
unfold Text.strip. destruct (lstrip_suffix s) as [p Hp].
destruct (rstrip_prefix (Text.lstrip s)) as [q Hq].
exists p, q. rewrite <- Hq. exact Hp.
Qed.

(** A stripped string that is not empty begins and ends with characters
  that are no white space. *)
Lemma strip_ends (s : Text.str) :
Text.strip s = [] \/
(exists c t, Text.strip s = c :: t /\ Text.isspace c = false) /\
(exists t c, Text.strip s = t ++ [c] /\ Text.isspace c = false).
Proof.
destruct (Text.strip s) as [|c t] eqn:E; [left; reflexivity|right].
split.
- exists c, t. split; [reflexivity|].
  unfold Text.strip in E.
  destruct (rstrip_prefix (Text.lstrip s)) as [q Hq].
  rewrite E in Hq. cbn [app] in Hq.
  exact (lstrip_head _ _ _ Hq).
- destruct (exists_last (l := c :: t) ltac:(discriminate)) as [t' [c' Ht]].
  exists t', c'. split; [exact Ht|].
  unfold Text.strip in E. rewrite Ht in E.
  exact (rstrip_last _ _ _ E).
Qed.

Lemma isspace_line_feed : Text.isspace 10%N = true.
Proof. reflexivity. Qed.

(** Stripping a line leaves no line feed. *)
Lemma strip_one_line (s : Text.str) :
one_line s -> ~ In 10%N (Text.strip s).
Proof.
intros Hline Hin.
destruct (strip_infix s) as [p [q Hs]].
destruct (strip_ends s) as [E|[_ [t [c [E Hc]]]]].
- rewrite E in Hin. exact Hin.
- rewrite E in Hin, Hs. apply in_app_or in Hin.
  destruct Hin as [Hin|[Hc10|[]]].
  + apply in_split in Hin. destruct Hin as [t1 [t2 ->]].
    specialize (Hline (p ++ t1) (t2 ++ [c] ++ q)).
    rewrite Hs in Hline. rewrite <- !app_assoc in Hline.
    cbn [app] in Hline. specialize (Hline eq_refl).
    destruct t2; discriminate Hline.
  + subst c. rewrite isspace_line_feed in Hc. discriminate Hc.
Qed.

Lemma one_line_end (cur : Text.str) :
~ In 10%N cur -> one_line (cur ++ [10%N]).
Proof.
unfold one_line. induction cur as [|x cur IH]; intros Hno a b H.
- destruct a as [|y a]; cbn [app] in H.
  + injection H as <-. reflexivity.
  + injection H as _ H. destruct a; discriminate H.
- destruct a as [|y a]; cbn [app] in H.
  + injection H as Hx _. exfalso. apply Hno. left. exact Hx.
  + injection H as _ H. apply (IH (fun Hi => Hno (or_intror Hi)) a b H).
Qed.

Lemma one_line_none (cur : Text.str) : ~ In 10%N cur -> one_line cur.
Proof.
intros Hno a b ->. exfalso. apply Hno, in_or_app. right. left. reflexivity.
Qed.

(** The lines of a text hold their line feed at the end and nowhere else. *)
Lemma lines_from_one_line (content : Text.str) :
forall cur : Text.str,
  ~ In 10%N cur -> Forall one_line (Text.lines_from cur content).
Proof.
induction content as [|c content IH]; intros cur Hno;
  cbn [Text.lines_from].
- destruct cur; constructor; [|constructor].
  apply one_line_none, Hno.
- destruct (c =? 10)%N eqn:E.
  + apply N.eqb_eq in E. subst c. constructor.
    * apply one_line_end, Hno.
    * apply IH. intros [].
  + apply N.eqb_neq in E. apply IH. intros Hin.
    apply in_app_or in Hin. destruct Hin as [Hin|[Hin|[]]];
      [exact (Hno Hin)|congruence].
Qed.

End Strip.

(** The loop of [send_mmwave_config] writes the commands among its lines,
    in order, up to the one it fails at. *)
Lemma send_lines_spec (lines : list Text.str) :
  forall (port : list Sender.port_answer) (written : list bytes),
    exists n : nat,
      (n <= length (filter is_command (map Text.strip lines)))%nat /\
      map Some (snd (Sender.send_lines port lines written))
      = map Some written
            ++ map command_bytes
                   (firstn n (filter is_command (map Text.strip lines))) /\
      (fst (Sender.send_lines port lines written) = true ->
       n = length (filter is_command (map Text.strip lines))).
Proof.
  induction lines as [|line lines IH]; intros port written.
  - exists 0%nat. cbn. rewrite app_nil_r. auto.
  - cbn [Sender.send_lines map filter].
    destruct (Text.strip line) as [|c l] eqn:Es.
    + cbn [is_command]. apply IH.
    + cbn [is_command].
      destruct (Text.startswith (c :: l) (Text.lit "%")) eqn:Ep;
        cbn [negb]; [apply IH|].
      destruct (Text.encode_ascii ((c :: l) ++ [10%N])) as [cmd|] eqn:Ee.
      2:{ exists 0%nat. cbn [fst snd firstn map length]. rewrite app_nil_r.
          split; [lia|]. split; [reflexivity|discriminate]. }
      assert (Hone : forall port',
                 exists n : nat,
                   (n <= length ((c :: l)
                                   :: filter is_command
                                        (map Text.strip lines)))%nat /\
                   map Some (snd (Sender.send_lines port' lines
                                                    (written ++ [cmd])))
                   = map Some written
                         ++ map command_bytes
                              (firstn n ((c :: l)
                                           :: filter is_command
                                                (map Text.strip lines))) /\
                   (fst (Sender.send_lines port' lines (written ++ [cmd]))
                    = true ->
                    n = length ((c :: l)
                                  :: filter is_command
                                       (map Text.strip lines)))).
      { intros port'. destruct (IH port' (written ++ [cmd]))
          as [n [Hn [Hw Hok]]].
        exists (S n). cbn [length firstn map]. unfold Text.str in *.
        split; [lia|]. split.
        - rewrite Hw, map_app, <- app_assoc. cbn [map app].
          unfold command_bytes at 2. rewrite Ee. reflexivity.
        - intros H. rewrite (Hok H). reflexivity. }
      destruct port as [|[| |] port'].
      * apply Hone.
      * apply Hone.
      * exists 0%nat. cbn [fst snd firstn map length]. rewrite app_nil_r.
        split; [lia|]. split; [reflexivity|discriminate].
      * exists 1%nat. cbn [fst snd firstn map length]. split; [lia|].
        split; [|discriminate].
        rewrite map_app. cbn [map]. unfold command_bytes. rewrite Ee.
        reflexivity.
Qed.

(** X19. [send_mmwave_config] writes commands and nothing else. The
    commands of the file are its lines, stripped of the white space around
    them, but for the empty ones and the comments that begin with a percent
    sign. Whatever the port does, what has been written when the function
    returns is, write for write, the first [n] commands in the order of the
    file, each followed by one line feed, in ASCII; when it returns [True],
    all of them; when the port does not open, or there is no file, nothing,
    and it returns [False]. A command is not empty, does not begin with a
    percent sign, begins and ends with a character that is no white space,
    and holds no line feed. *)
Theorem X19_sender_writes_the_commands_in_order
        (content : Text.str) (opens : bool)
        (port : list Sender.port_answer) :
  (exists n : nat,
      (n <= length (commands content))%nat /\
      map Some (snd (Sender.send_mmwave_config (Some content) opens port))
      = map command_bytes (firstn n (commands content)) /\
      (fst (Sender.send_mmwave_config (Some content) opens port) = true ->
       n = length (commands content))) /\
  (opens = false ->
   Sender.send_mmwave_config (Some content) opens port = (false, [])) /\
  Sender.send_mmwave_config None opens port = (false, []) /\
  Forall (fun cmd =>
            (exists c t, cmd = c :: t /\ Text.isspace c = false /\
                         c <> 37%N) /\
            (exists t c, cmd = t ++ [c] /\ Text.isspace c = false) /\
            ~ In 10%N cmd)
         (commands content).
Proof.
  split; [|split; [|split]].
  - unfold Sender.send_mmwave_config. destruct opens.
    + destruct (send_lines_spec (Text.lines content) port [])
        as [n [Hn [Hw Hok]]].
      exists n. auto.
    + exists 0%nat. cbn [fst snd firstn map]. split; [lia|].
      split; [reflexivity|discriminate].
  - intros ->. reflexivity.
  - reflexivity.
  - unfold commands. apply Forall_forall. intros cmd Hin.
    apply filter_In in Hin. destruct Hin as [Hin Hcmd].
    apply in_map_iff in Hin. destruct Hin as [line [<- Hline]].
    pose proof (lines_from_one_line content [] (fun H => H)) as Hlines.
    rewrite Forall_forall in Hlines. specialize (Hlines line Hline).
    destruct (strip_ends line) as [E|[[c [t [E Hc]]] Hlast]].
    + rewrite E in Hcmd. discriminate Hcmd.
    + split; [|split; [exact Hlast|apply strip_one_line, Hlines]].
      exists c, t. split; [exact E|]. split; [exact Hc|].
      intros ->. rewrite E in Hcmd. cbv in Hcmd. discriminate Hcmd.
Qed.

Lemma X19_sender_writes_the_commands_in_order_witness :
  Sender.send_mmwave_config (Some config_text) true [] =
  (true,
   [[x73; x65; x6e; x73; x6f; x72; x53; x74; x6f; x70; x0a];
    [x73; x65; x6e; x73; x6f; x72; x53; x74; x61; x72; x74; x0a]]) /\
  exists n : nat,
    n = length (commands config_text) /\
    map Some (snd (Sender.send_mmwave_config (Some config_text) true []))
    = map command_bytes (firstn n (commands config_text)).
Proof.
  split; [vm_compute; reflexivity|].
  destruct (proj1 (X19_sender_writes_the_commands_in_order
                     config_text true []))
    as [n [Hn [Hw Hok]]].
  exists n. split; [|exact Hw].
  apply Hok. vm_compute. reflexivity.
Defined.

(** ** The ports of the old collector *)

Section Ports.

Local Open Scope nat_scope.

Lemma update_length (f : OldLife.Serial -> OldLife.Serial) :
forall (w : OldLife.heap) (h : OldLife.handle),
  length (OldLife.update w h f) = length w.
Proof.
induction w as [|s w IH]; intros [|h]; cbn [OldLife.update length];
  try reflexivity.
rewrite IH. reflexivity.
Qed.

Lemma update_nth_error (f : OldLife.Serial -> OldLife.Serial) :
forall (w : OldLife.heap) (h h' : OldLife.handle),
  nth_error (OldLife.update w h f) h'
  = if Nat.eqb h h' then option_map f (nth_error w h')
    else nth_error w h'.
Proof.
induction w as [|s w IH]; intros [|h] [|h'];
  cbn [OldLife.update nth_error Nat.eqb option_map]; try reflexivity.
- destruct (Nat.eqb _ _); reflexivity.
- apply IH.
Qed.

Lemma is_open_at_close (w : OldLife.heap) (h h' : OldLife.handle) :
OldLife.is_open_at (OldLife.close w h) h'
= negb (Nat.eqb h h') && OldLife.is_open_at w h'.
Proof.
unfold OldLife.is_open_at, OldLife.close. rewrite update_nth_error.
destruct (Nat.eqb h h'); cbn [negb andb]; [|reflexivity].
destruct (nth_error w h'); reflexivity.
Qed.

Lemma is_open_at_beyond (w : OldLife.heap) (h : OldLife.handle) :
length w <= h -> OldLife.is_open_at w h = false.
Proof.
intros H. unfold OldLife.is_open_at.
rewrite (proj2 (nth_error_None w h) H). reflexivity.
Qed.

Lemma close_when (b : bool) (w : OldLife.heap) (h : OldLife.handle) :
let w1 := if b then OldLife.close w h else w in
length w1 = length w /\
(forall h', h' <> h -> nth_error w1 h' = nth_error w h') /\
(forall h', OldLife.is_open_at w1 h' = true ->
            OldLife.is_open_at w h' = true) /\
(forall h', h' <> h -> OldLife.is_open_at w1 h' = OldLife.is_open_at w h') /\
(b = true -> OldLife.is_open_at w1 h = false).
Proof.
cbv zeta. destruct b.
- split; [apply update_length|]. split; [|split; [|split]].
  + intros h' Hne. unfold OldLife.close. rewrite update_nth_error.
    destruct (Nat.eqb h h') eqn:E; [|reflexivity].
    apply Nat.eqb_eq in E. congruence.
  + intros h'. rewrite is_open_at_close. intros H.
    apply andb_true_iff in H. tauto.
  + intros h' Hne. rewrite is_open_at_close.
    destruct (Nat.eqb h h') eqn:E; [|reflexivity].
    apply Nat.eqb_eq in E. congruence.
  + intros _. rewrite is_open_at_close, Nat.eqb_refl. reflexivity.
- repeat split; auto. discriminate.
Qed.

Lemma OldLife_stop_closes (exits : bool) (w : OldLife.heap)
    (c : OldLife.SerialCollector) :
let '(w', c', e) := OldLife.stop exits w c in
(forall h, OldLife._ser_data c = Some h \/ OldLife._ser_config c = Some h ->
           OldLife.is_open_at w' h = false) /\
(forall h, OldLife._ser_data c <> Some h ->
           OldLife._ser_config c <> Some h ->
           nth_error w' h = nth_error w h) /\
length w' = length w /\
NoDup (closes e) /\
(forall h, In h (closes e) ->
           OldLife.is_open_at w h = true /\
           (OldLife._ser_data c = Some h \/ OldLife._ser_config c = Some h)) /\
OldLife._ser_data c' = OldLife._ser_data c /\
OldLife._ser_config c' = OldLife._ser_config c /\
OldLife._stop_event c' = true /\
(exits = true -> OldLife.running c' = false).
Proof.
unfold OldLife.stop.
set (je := match OldLife._thread c with
           | Some t => (Some (OldLife.mkThread
                                (OldLife.is_alive t && negb exits)),
                        [OldLife.JoinThread])
           | None => (None, [])
           end).
assert (Hj : closes (snd je) = [] /\
             (exits = true ->
              match fst je with
              | Some t => OldLife.is_alive t
              | None => false
              end = false)).
{ unfold je. destruct (OldLife._thread c) as [t|]; cbn; split; auto.
  intros ->. apply andb_false_r. }
destruct je as [thread e0]. cbn [fst snd] in Hj. destruct Hj as [He0 Hrun].
(* the data port *)
set (d := match OldLife._ser_data c with
          | Some h => if OldLife.is_open_at w h
                      then (OldLife.close w h, [OldLife.CloseSerial h])
                      else (w, [])
          | None => (w, [])
          end).
assert (Hd : length (fst d) = length w /\
             (forall h, OldLife._ser_data c <> Some h ->
                        nth_error (fst d) h = nth_error w h) /\
             (forall h, OldLife.is_open_at (fst d) h = true ->
                        OldLife.is_open_at w h = true) /\
             (forall h, OldLife._ser_data c <> Some h ->
                        OldLife.is_open_at (fst d) h = OldLife.is_open_at w h) /\
             (forall h, OldLife._ser_data c = Some h ->
                        OldLife.is_open_at (fst d) h = false) /\
             (forall h, In h (closes (snd d)) ->
                        OldLife._ser_data c = Some h /\
                        OldLife.is_open_at w h = true) /\
             NoDup (closes (snd d))).
{ unfold d. destruct (OldLife._ser_data c) as [hd|].
  - destruct (close_when (OldLife.is_open_at w hd) w hd)
      as [H1 [H2 [H3 [H4 H5]]]].
    destruct (OldLife.is_open_at w hd) eqn:Od;
      cbn [fst snd closes flat_map app].
    + split; [exact H1|]. split; [intros h Hne; apply H2; congruence|].
      split; [exact H3|].
      split; [intros h Hne; apply H4; congruence|].
      split; [intros h [= <-]; auto|].
      split; [intros h [<-|[]]; auto|].
      constructor; [intros []|constructor].
    + split; [reflexivity|]. split; [reflexivity|]. split; [auto|].
      split; [reflexivity|].
      split; [intros h [= <-]; exact Od|].
      split; [intros h []|constructor].
  - cbn [fst snd closes flat_map].
    split; [reflexivity|]. split; [reflexivity|]. split; [auto|].
    split; [reflexivity|]. split; [discriminate|].
    split; [intros h []|constructor]. }
destruct d as [w1 e1]. cbn [fst snd] in Hd.
destruct Hd as [Hd1 [Hd2 [Hd3 [Hd4 [Hd5 [Hd6 Hd7]]]]]].
(* the config port *)
set (k := match OldLife._ser_config c with
          | Some h =>
            if OldLife.is_open_at w1 h
               && OldLife.differ (OldLife._ser_config c) (OldLife._ser_data c)
            then (OldLife.close w1 h, [OldLife.CloseSerial h])
            else (w1, [])
          | None => (w1, [])
          end).
assert (Hk : length (fst k) = length w1 /\
             (forall h, OldLife._ser_config c <> Some h ->
                        nth_error (fst k) h = nth_error w1 h) /\
             (forall h, OldLife.is_open_at (fst k) h = true ->
                        OldLife.is_open_at w1 h = true) /\
             (forall h, OldLife._ser_config c = Some h ->
                        OldLife.is_open_at (fst k) h = false) /\
             (forall h, In h (closes (snd k)) ->
                        OldLife._ser_config c = Some h /\
                        OldLife._ser_data c <> Some h /\
                        OldLife.is_open_at w1 h = true) /\
             NoDup (closes (snd k))).
{ unfold k. destruct (OldLife._ser_config c) as [hc|].
  - set (b := OldLife.is_open_at w1 hc
              && OldLife.differ (Some hc) (OldLife._ser_data c)).
    destruct (close_when b w1 hc) as [H1 [H2 [H3 [H4 H5]]]].
    destruct b eqn:Eb; cbn [fst snd closes flat_map app].
    + unfold b in Eb. apply andb_true_iff in Eb. destruct Eb as [Oc Hdiff].
      split; [exact H1|]. split; [intros h Hne; apply H2; congruence|].
      split; [exact H3|].
      split; [intros h [= <-]; auto|].
      split; [|constructor; [intros []|constructor]].
      intros h [<-|[]]. split; [reflexivity|]. split; [|exact Oc].
      intros Hsame. rewrite Hsame in Hdiff.
      cbn in Hdiff. rewrite Nat.eqb_refl in Hdiff. discriminate.
    + unfold b in Eb.
      split; [reflexivity|]. split; [reflexivity|]. split; [auto|].
      split; [|split; [intros h []|constructor]].
      intros h [= <-]. apply andb_false_iff in Eb.
      destruct Eb as [Oc|Hdiff]; [exact Oc|].
      apply Hd5. unfold OldLife.differ in Hdiff.
      destruct (OldLife._ser_data c) as [hd|]; [|discriminate].
      apply negb_false_iff, Nat.eqb_eq in Hdiff. subst. reflexivity.
  - cbn [fst snd closes flat_map].
    split; [reflexivity|]. split; [reflexivity|]. split; [auto|].
    split; [discriminate|].
    split; [intros h []|constructor]. }
destruct k as [w2 e2]. cbn [fst snd] in Hk.
destruct Hk as [Hk1 [Hk2 [Hk3 [Hk4 [Hk5 Hk6]]]]].
assert (Hcl : closes (e0 ++ e1 ++ e2) = closes e1 ++ closes e2).
{ unfold closes. rewrite !flat_map_app. fold (closes e0). rewrite He0.
  reflexivity. }
rewrite Hcl.
cbn [OldLife._ser_data OldLife._ser_config OldLife._stop_event
     OldLife.running OldLife._thread].
split; [|split; [|split; [|split; [|split]]]].
- intros h [H|H].
  + destruct (OldLife.is_open_at w2 h) eqn:E; [|reflexivity].
    apply Hk3 in E. rewrite (Hd5 h H) in E. discriminate.
  + apply Hk4, H.
- intros h H1 H2. rewrite (Hk2 h H2). apply Hd2, H1.
- lia.
- apply NoDup_app; [exact Hd7|exact Hk6|].
  intros h H1 H2. apply Hd6 in H1. apply Hk5 in H2. tauto.
- intros h H. apply in_app_or in H. destruct H as [H|H].
  + apply Hd6 in H. tauto.
  + apply Hk5 in H. destruct H as [H1 [H2 H3]]. split; [|tauto].
    apply Hd3, H3.
- auto.
Qed.


Lemma set_baudrate_open (w : OldLife.heap) (h h' : OldLife.handle) (b : Z) :
OldLife.is_open_at (OldLife.set_baudrate w h b) h'
= OldLife.is_open_at w h'.
Proof.
unfold OldLife.is_open_at, OldLife.set_baudrate. rewrite update_nth_error.
destruct (Nat.eqb h h'); [|reflexivity].
destruct (nth_error w h'); reflexivity.
Qed.

Lemma is_open_at_new (w : OldLife.heap) (s : OldLife.Serial) :
OldLife.is_open_at (w ++ [s]) (length w) = OldLife.is_open s.
Proof.
unfold OldLife.is_open_at. rewrite nth_error_app2 by lia.
rewrite Nat.sub_diag. reflexivity.
Qed.

Lemma is_open_at_old (w : OldLife.heap) (s : OldLife.Serial)
    (h : OldLife.handle) :
h < length w ->
OldLife.is_open_at (w ++ [s]) h = OldLife.is_open_at w h.
Proof.
intros H. unfold OldLife.is_open_at. rewrite nth_error_app1 by lia.
reflexivity.
Qed.

End Ports.


(** X20. The old collector leaves no port open. [stop()] closes the
    [Serial] objects the collector holds, the one object once when both
    fields hold it, and touches no other object. A [start()] that raises
    has closed every object it had opened by the time it raises, and no
    thread runs. A [start()] that returns has opened one or two objects,
    all open, and a thread runs; after the [stop()] that follows, none of
    them is open. *)
Theorem X20_old_collector_leaves_no_port_open :
  (forall (exits : bool) (w : OldLife.heap) (c : OldLife.SerialCollector),
      let '(w', c', e) := OldLife.stop exits w c in
      (forall h,
          OldLife._ser_data c = Some h \/ OldLife._ser_config c = Some h ->
          OldLife.is_open_at w' h = false) /\
      (forall h, OldLife._ser_data c <> Some h ->
                 OldLife._ser_config c <> Some h ->
                 nth_error w' h = nth_error w h) /\
      NoDup (closes e) /\
      (forall h, In h (closes e) -> OldLife.is_open_at w h = true)) /\
  (forall (os : OldLife.answers) (exits : bool) (w : OldLife.heap)
          (c : OldLife.SerialCollector),
      OldLife.running c = false ->
      let '(r, w', c', e) := OldLife.start os w c in
      (forall h, In h (opens e) <-> (length w <= h < length w')%nat) /\
      match r with
      | OldLife.SerialReadError =>
        OldLife.running c' = false /\
        forall h, (length w <= h)%nat -> OldLife.is_open_at w' h = false
      | OldLife.Returned =>
        OldLife.running c' = true /\
        (forall h, (length w <= h < length w')%nat ->
                   OldLife.is_open_at w' h = true) /\
        let '(w'', _, _) := OldLife.stop exits w' c' in
        forall h, (length w <= h)%nat -> OldLife.is_open_at w'' h = false
      end).
Proof.
  split.
  - intros exits w c. pose proof (OldLife_stop_closes exits w c) as H.
    destruct (OldLife.stop exits w c) as [[w' c'] e].
    destruct H as [H1 [H2 [_ [H3 [H4 _]]]]].
    split; [exact H1|]. split; [exact H2|]. split; [exact H3|].
    intros h Hin. apply H4, Hin.
  - intros os exits w c Hrun.
    assert (Hgive : forall (w1 : OldLife.heap) (c1 : OldLife.SerialCollector)
                           (e1 : list OldLife.effect),
               (length w <= length w1)%nat ->
               (forall h, (length w <= h < length w1)%nat ->
                          OldLife._ser_data c1 = Some h \/
                          OldLife._ser_config c1 = Some h) ->
               (forall h, In h (opens e1) <->
                          (length w <= h < length w1)%nat) ->
               let '(r, w', c', e) := OldLife.abandon w1 c1 e1 in
               (forall h, In h (opens e) <-> (length w <= h < length w')%nat) /\
               r = OldLife.SerialReadError /\
               OldLife.running c' = false /\
               forall h, (length w <= h)%nat ->
                         OldLife.is_open_at w' h = false).
    { intros w1 c1 e1 Hlen Href Hop. unfold OldLife.abandon.
      pose proof (OldLife_stop_closes true w1 c1) as H.
      destruct (OldLife.stop true w1 c1) as [[w' c'] e'] eqn:Es.
      destruct H as [H1 [_ [H3 [_ [_ [_ [_ [_ H9]]]]]]]].
      assert (He' : opens e' = []).
      { unfold OldLife.stop in Es.
        destruct (OldLife._thread c1);
          destruct (OldLife._ser_data c1) as [hd|];
          try destruct (OldLife.is_open_at w1 hd);
          destruct (OldLife._ser_config c1) as [hc|];
          try destruct (_ && _);
          injection Es as _ _ <-; reflexivity. }
      split; [|split; [reflexivity|split; [apply H9; reflexivity|]]].
      - intros h. unfold opens. rewrite flat_map_app.
        fold (opens e1). fold (opens e'). rewrite He', app_nil_r, H3.
        apply Hop.
      - intros h Hh. destruct (Nat.lt_ge_cases h (length w1)) as [Hlt|Hge].
        + apply H1, Href. lia.
        + apply is_open_at_beyond. lia. }
    unfold OldLife.start. rewrite Hrun.
    destruct (OldLife.grants_config os).
    2:{ specialize (Hgive w c [OldLife.OpenFailed] (Nat.le_refl _)).
        destruct (OldLife.abandon w c [OldLife.OpenFailed])
          as [[[r w'] c'] e].
        destruct Hgive as [H1 [-> [H2 H3]]]; [intros h Hh; lia| |auto].
        cbn. intros h. split; [intros []|lia]. }
    cbn [OldLife.data_port OldLife.config_port OldLife.set_ser_config
         OldLife.data_baud OldLife.config_baud].
    set (s0 := OldLife.mkSerial true (OldLife.config_baud c)).
    destruct (Text.eqb (OldLife.data_port c) (OldLife.config_port c)).
    + destruct (OldLife.sets_baud os).
      * (* one object for both ports *)
        cbn [opens flat_map app OldLife.data_baud OldLife.set_ser_data
             OldLife.set_ser_config].
        assert (Hlen : length (OldLife.set_baudrate (w ++ [s0]) (length w)
                                                    (OldLife.data_baud c))
                       = S (length w)).
        { unfold OldLife.set_baudrate. rewrite update_length, length_app.
          cbn [length]. lia. }
        split; [rewrite Hlen; intros h; cbn; split; [intros [<-|[]]|]; lia|].
        split; [reflexivity|]. split.
        -- intros h Hh. rewrite Hlen in Hh.
           replace h with (length w) by lia.
           rewrite set_baudrate_open. apply is_open_at_new.
        -- match goal with
           | |- context [OldLife.stop exits ?W ?C] =>
             pose proof (OldLife_stop_closes exits W C) as H;
               destruct (OldLife.stop exits W C) as [[w2 c2] e2]
           end.
           destruct H as [H1 [_ [H3 _]]].
           intros h Hh. rewrite Hlen in H3.
           destruct (Nat.eq_dec h (length w)) as [->|Hne].
           ++ apply H1. left. reflexivity.
           ++ apply is_open_at_beyond. lia.
      * match goal with
        | |- context [OldLife.abandon ?W ?C ?E] =>
          specialize (Hgive W C E);
            destruct (OldLife.abandon W C E) as [[[r w'] c'] e]
        end.
        destruct Hgive as [H1 [-> [H2 H3]]]; [| | |auto].
        -- rewrite length_app. lia.
        -- rewrite length_app. cbn [length]. intros h Hh.
           left. cbn. f_equal. lia.
        -- rewrite length_app. cbn. intros h.
           split; [intros [<-|[]]|]; lia.
    + destruct (OldLife.grants_data os).
      * (* two objects *)
        set (s1 := OldLife.mkSerial true (OldLife.data_baud c)).
        cbn [opens flat_map app].
        assert (Hlen : length ((w ++ [s0]) ++ [s1]) = S (S (length w))).
        { rewrite !length_app. cbn [length]. lia. }
        split; [rewrite Hlen, length_app; cbn;
                intros h; split; [intros [<-|[<-|[]]]|]; lia|].
        split; [reflexivity|]. split.
        -- intros h Hh. rewrite Hlen in Hh.
           destruct (Nat.eq_dec h (length w)) as [->|Hne].
           ++ rewrite is_open_at_old by (rewrite length_app; cbn; lia).
              apply is_open_at_new.
           ++ replace h with (length (w ++ [s0]))
                by (rewrite length_app; cbn; lia).
              apply is_open_at_new.
        -- match goal with
           | |- context [OldLife.stop exits ?W ?C] =>
             pose proof (OldLife_stop_closes exits W C) as H;
               destruct (OldLife.stop exits W C) as [[w2 c2] e2]
           end.
           destruct H as [H1 [_ [H3 _]]].
           intros h Hh. rewrite Hlen in H3.
           destruct (Nat.eq_dec h (length w)) as [->|Hne];
             [apply H1; right; reflexivity|].
           destruct (Nat.eq_dec h (S (length w))) as [->|Hne'].
           ++ apply H1. left. cbn. rewrite length_app. cbn. f_equal. lia.
           ++ apply is_open_at_beyond. lia.
      * match goal with
        | |- context [OldLife.abandon ?W ?C ?E] =>
          specialize (Hgive W C E);
            destruct (OldLife.abandon W C E) as [[[r w'] c'] e]
        end.
        destruct Hgive as [H1 [-> [H2 H3]]]; [| | |auto].
        -- rewrite length_app. lia.
        -- rewrite length_app. cbn [length]. intros h Hh.
           right. cbn. f_equal. lia.
        -- rewrite length_app. cbn. intros h.
           split; [intros [<-|[]]|]; lia.
Qed.

Lemma X20_old_collector_leaves_no_port_open_witness :
  OldLife.running two_port_collector = false /\
  let '(r, w', c', e) :=
      OldLife.start (OldLife.mkAnswers true false true) [] two_port_collector
  in
  (forall h, In h (opens e) <-> (length (@nil OldLife.Serial) <= h < length w')%nat) /\
  match r with
  | OldLife.SerialReadError =>
    OldLife.running c' = false /\
    forall h, (length (@nil OldLife.Serial) <= h)%nat ->
              OldLife.is_open_at w' h = false
  | OldLife.Returned =>
    OldLife.running c' = true /\
    (forall h, (length (@nil OldLife.Serial) <= h < length w')%nat ->
               OldLife.is_open_at w' h = true) /\
    let '(w'', _, _) := OldLife.stop true w' c' in
    forall h, (length (@nil OldLife.Serial) <= h)%nat ->
              OldLife.is_open_at w'' h = false
  end.
Proof.
  split; [reflexivity|].
  apply (proj2 X20_old_collector_leaves_no_port_open
               (OldLife.mkAnswers true false true) true [] two_port_collector).
  reflexivity.
Defined.

Lemma strip_line_feed (l : Text.str) :
  Text.strip l = l -> Text.strip (l ++ [10%N]) = l.
Proof.
  intros Hl. destruct l as [|c t]; [reflexivity|].
  destruct (strip_ends (c :: t)) as [E|[[c' [t' [E Hc]]] _]];
    [rewrite Hl in E; discriminate|].
  rewrite Hl in E. injection E as <- <-.
  unfold Text.strip in *.
  rewrite (lstrip_fixed ((c :: t) ++ [10%N]) c (t ++ [10%N]) eq_refl Hc).
  rewrite (lstrip_fixed (c :: t) c t eq_refl Hc) in Hl.
  unfold Text.rstrip in *. rewrite rev_app_distr.
  cbn [rev app Text.lstrip]. rewrite isspace_line_feed.
  exact Hl.
Qed.

Lemma send_commands_as_lines (config : list Text.str) :
  Forall (fun l => Text.strip l = l) config ->
  forall (port : list Sender.port_answer) (written : list bytes),
    snd (OldLife.send_commands port config written)
    = snd (Sender.send_lines port (map (fun l => l ++ [10%N]) config)
                             written) /\
    (fst (OldLife.send_commands port config written) = OldLife.Done <->
     fst (Sender.send_lines port (map (fun l => l ++ [10%N]) config) written)
     = true).
Proof.
  induction 1 as [|l config Hl Hrest IH]; intros port written.
  - cbn. split; [reflexivity|]. split; reflexivity.
  - cbn [map OldLife.send_commands Sender.send_lines].
    rewrite (strip_line_feed l Hl), Hl.
    destruct l as [|c t].
    + rewrite andb_false_r. apply IH.
    + rewrite andb_true_r.
      destruct (Text.startswith (c :: t) (Text.lit "%")); cbn [negb];
        [apply IH|].
      destruct (Text.encode_ascii ((c :: t) ++ [10%N])) as [cmd|].
      * destruct port as [|[| |] port']; try apply IH;
          cbn [fst snd]; (split; [reflexivity|split; discriminate]).
      * cbn [fst snd]. split; [reflexivity|split; discriminate].
Qed.

(** X22. [send_config] of the old collector and [send_mmwave_config] agree
    on a configuration without white space around its lines: with the
    config port open, [send_config] writes, write for write, what
    [send_mmwave_config] writes for the file of these lines, the port
    answering alike; where the one returns [False], the other raises and
    leaves every [Serial] object as it was; and when [send_config] returns,
    the data port, if it is open, runs at the data baud rate. *)
Theorem X22_send_config_agrees_with_the_sender
        (config : list Text.str) (port : list Sender.port_answer)
        (baud_ok : bool) (w : OldLife.heap) (c : OldLife.SerialCollector)
        (hc : OldLife.handle) :
  Forall (fun l => Text.strip l = l) config ->
  OldLife._ser_config c = Some hc ->
  OldLife.is_open_at w hc = true ->
  let '(how, w', written) := OldLife.send_config port baud_ok config w c in
  written
  = snd (Sender.send_lines port (map (fun l => l ++ [10%N]) config) []) /\
  (fst (Sender.send_lines port (map (fun l => l ++ [10%N]) config) [])
   = false -> how <> OldLife.Done /\ w' = w) /\
  (how = OldLife.Done ->
   forall hd s, OldLife._ser_data c = Some hd ->
                nth_error w' hd = Some s ->
                OldLife.is_open s = true ->
                OldLife.baudrate s = OldLife.data_baud c).
Proof.
  intros Hcfg Hser Hopen. unfold OldLife.send_config.
  rewrite Hser, Hopen. cbn [negb].
  destruct (send_commands_as_lines config Hcfg port []) as [Hw Hok].
  destruct (OldLife.send_commands port config []) as [how written] eqn:Es.
  cbn [fst snd] in Hw, Hok. rewrite <- Hw.
  destruct how.
  - (* the loop came to its end *)
    assert (Hfst : fst (Sender.send_lines
                          port (map (fun l => l ++ [10%N]) config) [])
                   = true) by (apply Hok; reflexivity).
    destruct (OldLife._ser_data c) as [hd|] eqn:Ed.
    + destruct (nth_error w hd) as [s|] eqn:En.
      * destruct (OldLife.is_open s && negb (OldLife.baudrate s
                                              =? OldLife.data_baud c))
          eqn:Eb.
        -- destruct baud_ok.
           ++ split; [reflexivity|]. split; [congruence|].
              intros _ hd' s' [= <-] Hn _.
              unfold OldLife.set_baudrate in Hn.
              rewrite update_nth_error, Nat.eqb_refl, En in Hn.
              cbn in Hn. injection Hn as <-. reflexivity.
           ++ split; [reflexivity|]. split; [congruence|discriminate].
        -- split; [reflexivity|]. split; [congruence|].
           intros _ hd' s' [= <-] Hn Ho. rewrite En in Hn.
           injection Hn as <-. rewrite Ho in Eb. cbn [andb] in Eb.
           apply negb_false_iff, Z.eqb_eq in Eb. exact Eb.
      * split; [reflexivity|]. split; [congruence|].
        intros _ hd' s' [= <-] Hn. congruence.
    + split; [reflexivity|]. split; [congruence|]. intros _ hd' s'. discriminate.
  - split; [reflexivity|]. split; [intros _; split; [discriminate|reflexivity]|discriminate].
  - split; [reflexivity|]. split; [intros _; split; [discriminate|reflexivity]|discriminate].
  - split; [reflexivity|]. split; [intros _; split; [discriminate|reflexivity]|discriminate].
Qed.


Lemma X22_send_config_agrees_with_the_sender_witness :
  let '(how, w', written) :=
      OldLife.send_config [] true config_lines started_old_ports
                          started_old_collector in
  written
  = snd (Sender.send_lines [] (map (fun l => l ++ [10%N]) config_lines) []) /\
  (fst (Sender.send_lines [] (map (fun l => l ++ [10%N]) config_lines) [])
   = false -> how <> OldLife.Done /\ w' = started_old_ports) /\
  (how = OldLife.Done ->
   forall hd s, OldLife._ser_data started_old_collector = Some hd ->
                nth_error w' hd = Some s ->
                OldLife.is_open s = true ->
                OldLife.baudrate s = OldLife.data_baud started_old_collector).
Proof.
  apply (X22_send_config_agrees_with_the_sender
           config_lines [] true started_old_ports started_old_collector
           0%nat).
  - repeat constructor.
  - reflexivity.
  - reflexivity.
Defined.

(** ** One port for data and config *)

Lemma Text_eqb_refl (a : Text.str) : Text.eqb a a = true.
Proof.
  induction a as [|x a IH]; [reflexivity|].
  cbn [Text.eqb]. rewrite N.eqb_refl, IH. reflexivity.
Qed.

Lemma update_new (f : OldLife.Serial -> OldLife.Serial)
      (w : OldLife.heap) (s : OldLife.Serial) :
  OldLife.update (w ++ [s]) (length w) f = w ++ [f s].
Proof.
  induction w as [|a w IH]; [reflexivity|].
  cbn [app length OldLife.update]. rewrite IH. reflexivity.
Qed.

(** X21. A collector built without a config port of its own, or with the
    data port as config port, as the old application builds it: [start()]
    opens one [Serial] object, holds it in both fields and sets it to the
    data baud rate, whatever the config baud rate; [stop()] joins the
    thread and closes that object, once. *)
Theorem X21_one_port_for_data_and_config
        (data_port : Text.str) (data_baud config_baud : Z)
        (config_port : option Text.str) (grants_data exits : bool)
        (w : OldLife.heap) :
  config_port = None \/ config_port = Some [] \/
  config_port = Some data_port ->
  let c := OldLife.init data_port data_baud config_port config_baud in
  let '(r, w', c', e) :=
      OldLife.start (OldLife.mkAnswers true grants_data true) w c in
  r = OldLife.Returned /\
  w' = w ++ [OldLife.mkSerial true data_baud] /\
  OldLife._ser_config c' = Some (length w) /\
  OldLife._ser_data c' = Some (length w) /\
  e = [OldLife.OpenSerial (length w); OldLife.SpawnThread] /\
  let '(w'', _, e') := OldLife.stop exits w' c' in
  w'' = w ++ [OldLife.mkSerial false data_baud] /\
  e' = [OldLife.JoinThread; OldLife.CloseSerial (length w)].
Proof.
  intros Hcp. cbv zeta.
  assert (Hc : OldLife.init data_port data_baud config_port config_baud
               = OldLife.mkCollector data_port data_baud data_port config_baud
                                     None None None false).
  { unfold OldLife.init. destruct Hcp as [->|[->| ->]]; try reflexivity.
    destruct data_port; reflexivity. }
  rewrite Hc. unfold OldLife.start.
  cbn [OldLife.running OldLife._thread OldLife.grants_config
       OldLife.sets_baud OldLife.data_port OldLife.config_port
       OldLife.set_ser_config OldLife.set_ser_data OldLife.data_baud
       OldLife.config_baud OldLife.spawn].
  rewrite Text_eqb_refl.
  unfold OldLife.set_baudrate. rewrite update_new. cbn [OldLife.is_open].
  repeat (split; [reflexivity|]).
  unfold OldLife.stop.
  cbn [OldLife._thread OldLife._ser_data OldLife._ser_config OldLife.differ
       OldLife.spawn OldLife.set_ser_data OldLife.set_ser_config
       OldLife.data_port OldLife.config_port OldLife.data_baud
       OldLife.config_baud].
  rewrite is_open_at_new. cbn [OldLife.is_open].
  rewrite Nat.eqb_refl. cbn [negb]. rewrite andb_false_r.
  unfold OldLife.close. rewrite update_new. cbn [OldLife.baudrate app].
  split; reflexivity.
Qed.

Lemma X21_one_port_for_data_and_config_witness :
  let '(r, w', c', e) :=
      OldLife.start (OldLife.mkAnswers true false true) [] old_app_collector
  in
  r = OldLife.Returned /\
  w' = [] ++ [OldLife.mkSerial true 921600] /\
  OldLife._ser_config c' = Some (length (@nil OldLife.Serial)) /\
  OldLife._ser_data c' = Some (length (@nil OldLife.Serial)) /\
  e = [OldLife.OpenSerial (length (@nil OldLife.Serial));
       OldLife.SpawnThread] /\
  let '(w'', _, e') := OldLife.stop true w' c' in
  w'' = [] ++ [OldLife.mkSerial false 921600] /\
  e' = [OldLife.JoinThread;
        OldLife.CloseSerial (length (@nil OldLife.Serial))].
Proof.
  apply (X21_one_port_for_data_and_config
           (Text.lit "COM4") 921600 115200 None false true []).
  left. reflexivity.
Defined.

(** ** The polling block of the old application *)

Lemma abs_opp (v : float) : PrimFloat.abs (- v) = PrimFloat.abs v.
Proof.
  apply Prim2SF_inj. rewrite !abs_spec, opp_spec.
  destruct (Prim2SF v); reflexivity.
Qed.

(** X23. One pass of the polling block of the old application, while the
    collector runs and its queue is not empty: the oldest 5000 detections
    of the queue, or all of them, leave the queue and are appended, in
    their order, to the rows on display, of which the last [max_points] are
    kept; a row is Moving or Static by the size of its velocity, whatever
    its sign; a failure of the CSV file is logged and keeps no row from the
    display; the pass does not end in a rerun. *)
Theorem X23_old_poll_moves_detections_to_the_display
        (now now' : Text.str) (csv : App.csv_outcome)
        (movement_thresh : float) (max_points : Z)
        (s : App.OldSession) (c : Old.SerialCollector) :
  App.old_is_running s = true ->
  App.old_collector s = Some c ->
  Old._data_q c <> [] ->
  0 < max_points ->
  let '(s', rerun) :=
      App.old_poll true now now' csv movement_thresh max_points s in
  rerun = false /\
  App.old_collector s'
  = Some (Old.set_queue c (skipn (Z.to_nat 5000) (Old._data_q c))) /\
  App.old_df s'
  = lastn (Z.to_nat max_points)
          (App.old_df s
             ++ map (fun o => App.mkOldRow
                                o (App.state_of movement_thresh
                                                (Old.velocity o)))
                    (firstn (Z.to_nat 5000) (Old._data_q c))) /\
  (length (App.old_df s') <= Z.to_nat max_points)%nat /\
  (forall r, In r (App.old_df s') ->
             In r (App.old_df s) \/
             (App.state r = App.state_of movement_thresh
                                         (Old.velocity (App.object r)) /\
              App.state r = App.state_of movement_thresh
                                         (- Old.velocity (App.object r)))) /\
  exists entry,
    App.old_log_messages s'
    = App.log now' entry
              (match csv with
               | App.Failed e => App.log now (Text.lit "CSV error: " ++ e)
                                         (App.old_log_messages s)
               | _ => App.old_log_messages s
               end).
Proof.
  intros Hrun Hcol Hq Hmax. unfold App.old_poll.
  rewrite Hrun, Hcol. cbn [negb].
  rewrite Old_get_latest_spec.
  destruct (firstn (Z.to_nat 5000) (Old._data_q c)) as [|o os] eqn:Ef.
  { exfalso. destruct (Old._data_q c) as [|o q]; [congruence|].
    destruct (Z.to_nat 5000) eqn:E; [lia|discriminate Ef]. }
  unfold App.tail.
  replace (max_points =? 0) with false by (symmetry; apply Z.eqb_neq; lia).
  replace (0 <? max_points) with true by (symmetry; apply Z.ltb_lt; lia).
  cbn [App.old_collector App.old_df App.old_log_messages].
  split; [reflexivity|]. split; [reflexivity|]. split; [reflexivity|].
  split; [rewrite lastn_length; lia|]. split.
  - intros r Hr. unfold lastn in Hr.
    match type of Hr with
    | In _ (skipn ?k ?l) =>
      assert (Hin : In r l)
        by (rewrite <- (firstn_skipn k l); apply in_or_app; right; exact Hr)
    end.
    clear Hr. rename Hin into Hr.
    apply in_app_or in Hr. destruct Hr as [Hr|Hr]; [left; exact Hr|right].
    apply in_map_iff in Hr. destruct Hr as [o' [<- _]].
    cbn [App.state App.object]. split; [reflexivity|].
    unfold App.state_of. rewrite abs_opp. reflexivity.
  - eexists. reflexivity.
Qed.

Lemma X23_old_poll_moves_detections_to_the_display_witness :
  fst (App.old_poll true (Text.lit "12:00:00") (Text.lit "12:00:01")
                    (App.Failed (Text.lit "disk full")) 0x1.999999999999ap-3 5000
                    old_polling_session)
  = App.mkOldSession
      (Some (Old.init 20000))
      [App.mkOldRow (Old.mkMovingObject 1 2 0 0.5 3) App.MovingState;
       App.mkOldRow (Old.mkMovingObject 1 2 0 (-0.5) 3) App.MovingState]
      [Text.lit "12:00:00 - CSV error: disk full";
       Text.lit "12:00:01 - Added 2 new objects. Total points: 2"]
      true /\
  App.old_df
    (fst (App.old_poll true (Text.lit "12:00:00") (Text.lit "12:00:01")
                       (App.Failed (Text.lit "disk full")) 0x1.999999999999ap-3 5000
                       old_polling_session))
  = lastn (Z.to_nat 5000)
          ([] ++ map (fun o => App.mkOldRow
                                 o (App.state_of 0x1.999999999999ap-3 (Old.velocity o)))
                     (firstn (Z.to_nat 5000)
                             [Old.mkMovingObject 1 2 0 0.5 3;
                              Old.mkMovingObject 1 2 0 (-0.5) 3])).
Proof.
  split; [vm_compute; reflexivity|].
  pose proof (X23_old_poll_moves_detections_to_the_display
                (Text.lit "12:00:00") (Text.lit "12:00:01")
                (App.Failed (Text.lit "disk full")) 0x1.999999999999ap-3 5000
                old_polling_session
                (Old.set_queue (Old.init 20000)
                               [Old.mkMovingObject 1 2 0 0.5 3;
                                Old.mkMovingObject 1 2 0 (-0.5) 3])
                eq_refl eq_refl ltac:(discriminate) ltac:(lia)) as H.
  destruct (App.old_poll _ _ _ _ _ _ _) as [s' rerun].
  exact (proj1 (proj2 (proj2 H))).
Defined.
